(** * Race engine of pi-lane: a shallow embedding and its verified properties

    Source: [backend/src/pilane/race/engine.py] (class [RaceEngine]) with the
    constants of [backend/src/pilane/config.py].

    Modelling conventions.
    - Python [int] is [Z]; Python [float] (clock readings, power and fuel
      levels, track positions) is read as an exact rational [Q]: rounding
      error, infinities and NaN are outside the model.
    - [dict[int, LaneState]] keeps its insertion order, which
      [_finish_race] observes; it is an association list updated in place.
      Lane objects are mutated through the dict, so a mutation of
      [lanes[k]] is a write-back at key [k].
    - [asyncio.get_event_loop().time()] is an explicit argument
      [current_time] of the operation that reads it.
    - [manager.broadcast_to_race] appends to a log of broadcasts; the
      wall-clock [timestamp] field of a message is left out.
    - Each engine method runs atomically; the countdown coroutine, which
      sleeps between its steps, is split at its sleeps. *)

From Stdlib Require Import ZArith QArith Qround List String Bool Lia.
Import ListNotations.

Local Open Scope Z_scope.

(** ** Python numerics on rationals *)

Module Py.

(** [a < b] on floats, as a boolean. *)
Definition Qltb (a b : Q) : bool := negb (Qle_bool b a).

(** [int(x)]: truncation toward zero. *)
Definition int (x : Q) : Z :=
  if Qle_bool 0 x then Qfloor x else Qceiling x.

(** [x % 1.0]: the result takes the sign of the divisor. *)
Definition fmod1 (x : Q) : Q := (x - inject_Z (Qfloor x))%Q.

(** [min(a, b)]: the first argument unless the second is smaller. *)
Definition min2 (a b : Q) : Q := if Qltb b a then b else a.

(** [max(a, b)]: the first argument unless the second is larger. *)
Definition max2 (a b : Q) : Q := if Qltb a b then b else a.

(** Truth value of a float: false exactly at zero. *)
Definition truthy (x : Q) : bool := negb (Qeq_bool x 0).

(** [min(xs)] of a list of ints; [None] stands for the [ValueError] on
    an empty list. *)
Fixpoint min_list (xs : list Z) : option Z :=
  match xs with
  | [] => None
  | x :: rest =>
      match min_list rest with
      | None => Some x
      | Some m => Some (Z.min x m)
      end
  end.

(** [sum(xs)]. *)
Definition sum (xs : list Z) : Z := fold_right Z.add 0 xs.

(** [len(xs)]. *)
Definition len {A : Type} (xs : list A) : Z := Z.of_nat (List.length xs).

End Py.

(** ** Insertion-ordered dictionaries with integer keys *)

Module Dict.

Definition t (V : Type) : Type := list (Z * V).

Fixpoint get {V : Type} (k : Z) (d : t V) : option V :=
  match d with
  | [] => None
  | (k', v) :: rest => if k =? k' then Some v else get k rest
  end.

Definition contains {V : Type} (k : Z) (d : t V) : bool :=
  match get k d with Some _ => true | None => false end.

(** [d[k] = v]: an existing key keeps its place, a new key goes last. *)
Fixpoint set {V : Type} (k : Z) (v : V) (d : t V) : t V :=
  match d with
  | [] => [(k, v)]
  | (k', v') :: rest =>
      if k =? k' then (k', v) :: rest else (k', v') :: set k v rest
  end.

Definition keys {V : Type} (d : t V) : list Z := map fst d.

Definition values {V : Type} (d : t V) : list V := map snd d.

(** A loop [for v in d.values(): mutate v]. *)
Definition map_values {V : Type} (f : V -> V) (d : t V) : t V :=
  map (fun kv => (fst kv, f (snd kv))) d.

End Dict.

(** ** Data model *)

Inductive RaceEngineState : Type :=
| IDLE | COUNTDOWN | RUNNING | PAUSED | FINISHED.

Definition state_eqb (a b : RaceEngineState) : bool :=
  match a, b with
  | IDLE, IDLE | COUNTDOWN, COUNTDOWN | RUNNING, RUNNING
  | PAUSED, PAUSED | FINISHED, FINISHED => true
  | _, _ => false
  end.

Record LaneState : Type := mkLaneState {
  lane_number : Z;
  car_id : Z;
  power_level : Q;
  current_lap : Z;
  lap_times_ms : list Z;
  best_lap_time_ms : option Z;
  total_time_ms : Z;
  last_lap_timestamp : Q;
  estimated_position : Q;
  fuel_level : Q;
  finished : bool;
  finish_position : option Z
}.

(** [LaneState(lane_number=..., car_id=...)] with the dataclass defaults. *)
Definition new_lane (lane_num car : Z) : LaneState :=
  {| lane_number := lane_num; car_id := car; power_level := 0;
     current_lap := 0; lap_times_ms := []; best_lap_time_ms := None;
     total_time_ms := 0; last_lap_timestamp := 0; estimated_position := 0;
     fuel_level := 100; finished := false; finish_position := None |}.

Record RaceState : Type := mkRaceState {
  race_id : Z;
  track_id : Z;
  mode : string;
  target_laps : Z;
  time_limit_seconds : option Z;
  fuel_simulation_enabled : bool;
  lanes : Dict.t LaneState;
  state : RaceEngineState;
  start_time : option Q;
  elapsed_time_ms : Z;
  countdown_remaining : Z;
  finish_order : list Z
}.

(** The referenced [asyncio.Task] of the tick loop. *)
Inductive Task : Type := TaskActive | TaskCancelled.

Record Engine : Type := mkEngine {
  current_race : option RaceState;
  tick_task : option Task
}.

(** [RaceEngine.__init__]. *)
Definition init : Engine := {| current_race := None; tick_task := None |}.

Record Settings : Type := { sim_base_lap_time_ms : Z }.

(** [settings = Settings()] with the default of [config.py]. *)
Definition settings : Settings := {| sim_base_lap_time_ms := 5000 |}.

(** *** Field assignments *)

Definition with_power_level (v : Q) (l : LaneState) : LaneState :=
  mkLaneState (lane_number l) (car_id l) v (current_lap l) (lap_times_ms l)
    (best_lap_time_ms l) (total_time_ms l) (last_lap_timestamp l)
    (estimated_position l) (fuel_level l) (finished l) (finish_position l).

Definition with_last_lap_timestamp (v : Q) (l : LaneState) : LaneState :=
  mkLaneState (lane_number l) (car_id l) (power_level l) (current_lap l)
    (lap_times_ms l) (best_lap_time_ms l) (total_time_ms l) v
    (estimated_position l) (fuel_level l) (finished l) (finish_position l).

Definition with_estimated_position (v : Q) (l : LaneState) : LaneState :=
  mkLaneState (lane_number l) (car_id l) (power_level l) (current_lap l)
    (lap_times_ms l) (best_lap_time_ms l) (total_time_ms l)
    (last_lap_timestamp l) v (fuel_level l) (finished l) (finish_position l).

Definition with_fuel_level (v : Q) (l : LaneState) : LaneState :=
  mkLaneState (lane_number l) (car_id l) (power_level l) (current_lap l)
    (lap_times_ms l) (best_lap_time_ms l) (total_time_ms l)
    (last_lap_timestamp l) (estimated_position l) v (finished l)
    (finish_position l).

Definition with_best_lap_time_ms (v : option Z) (l : LaneState) : LaneState :=
  mkLaneState (lane_number l) (car_id l) (power_level l) (current_lap l)
    (lap_times_ms l) v (total_time_ms l) (last_lap_timestamp l)
    (estimated_position l) (fuel_level l) (finished l) (finish_position l).

(** The three assignments [current_lap += 1],
    [lap_times_ms.append(t)], [total_time_ms += t]. *)
Definition count_lap (t : Z) (l : LaneState) : LaneState :=
  mkLaneState (lane_number l) (car_id l) (power_level l) (current_lap l + 1)
    (lap_times_ms l ++ [t]) (best_lap_time_ms l) (total_time_ms l + t)
    (last_lap_timestamp l) (estimated_position l) (fuel_level l)
    (finished l) (finish_position l).

(** [finished = True; finish_position = pos]. *)
Definition mark_finished (pos : Z) (l : LaneState) : LaneState :=
  mkLaneState (lane_number l) (car_id l) (power_level l) (current_lap l)
    (lap_times_ms l) (best_lap_time_ms l) (total_time_ms l)
    (last_lap_timestamp l) (estimated_position l) (fuel_level l) true
    (Some pos).

Definition with_lanes (v : Dict.t LaneState) (r : RaceState) : RaceState :=
  mkRaceState (race_id r) (track_id r) (mode r) (target_laps r)
    (time_limit_seconds r) (fuel_simulation_enabled r) v (state r)
    (start_time r) (elapsed_time_ms r) (countdown_remaining r)
    (finish_order r).

Definition with_state (v : RaceEngineState) (r : RaceState) : RaceState :=
  mkRaceState (race_id r) (track_id r) (mode r) (target_laps r)
    (time_limit_seconds r) (fuel_simulation_enabled r) (lanes r) v
    (start_time r) (elapsed_time_ms r) (countdown_remaining r)
    (finish_order r).

Definition with_start_time (v : option Q) (r : RaceState) : RaceState :=
  mkRaceState (race_id r) (track_id r) (mode r) (target_laps r)
    (time_limit_seconds r) (fuel_simulation_enabled r) (lanes r) (state r)
    v (elapsed_time_ms r) (countdown_remaining r) (finish_order r).

Definition with_elapsed_time_ms (v : Z) (r : RaceState) : RaceState :=
  mkRaceState (race_id r) (track_id r) (mode r) (target_laps r)
    (time_limit_seconds r) (fuel_simulation_enabled r) (lanes r) (state r)
    (start_time r) v (countdown_remaining r) (finish_order r).

Definition with_countdown_remaining (v : Z) (r : RaceState) : RaceState :=
  mkRaceState (race_id r) (track_id r) (mode r) (target_laps r)
    (time_limit_seconds r) (fuel_simulation_enabled r) (lanes r) (state r)
    (start_time r) (elapsed_time_ms r) v (finish_order r).

Definition with_finish_order (v : list Z) (r : RaceState) : RaceState :=
  mkRaceState (race_id r) (track_id r) (mode r) (target_laps r)
    (time_limit_seconds r) (fuel_simulation_enabled r) (lanes r) (state r)
    (start_time r) (elapsed_time_ms r) (countdown_remaining r) v.

Definition with_current_race (r : RaceState) (e : Engine) : Engine :=
  {| current_race := Some r; tick_task := tick_task e |}.

(** [if self._tick_task: self._tick_task.cancel()]. *)
Definition cancel_tick_task (e : Engine) : Engine :=
  match tick_task e with
  | Some _ => {| current_race := current_race e;
                 tick_task := Some TaskCancelled |}
  | None => e
  end.

(** [self._tick_task = asyncio.create_task(self._race_tick_loop())]. *)
Definition create_tick_task (e : Engine) : Engine :=
  {| current_race := current_race e; tick_task := Some TaskActive |}.

(** ** Messages handed to the broadcast hub *)

(** One entry of the [participants] list of a [race:state] message. *)
Record ParticipantView : Type := {
  pv_lane : Z;
  pv_car_id : Z;
  pv_current_lap : Z;
  pv_best_lap_time_ms : option Z;
  pv_total_time_ms : Z;
  pv_fuel_level : Q;
  pv_estimated_position : Q;
  pv_finished : bool;
  pv_finish_position : option Z
}.

(** One value of the [results] dict of a [race:finished] message. *)
Record LaneResult : Type := {
  res_car_id : Z;
  res_laps : Z;
  res_total_time_ms : Z;
  res_best_lap_ms : option Z;
  res_position : option Z
}.

Inductive Payload : Type :=
| PCountdown (remaining : Z)
| PStarted (race : Z)
| PLap (race car lane lap_number lap_time_ms : Z) (is_best_lap : bool)
| PState (race : Z) (st : RaceEngineState) (elapsed : Z)
         (participants : list ParticipantView)
| PFinished (race : Z) (order : list Z) (results : Dict.t LaneResult)
| PCancelled (race : Z).

(** [manager.broadcast_to_race(race_id, create_ws_message(type, payload))]. *)
Record Broadcast : Type := {
  to_race : Z;
  msg_type : string;
  payload : Payload
}.

Definition is_lap_event (b : Broadcast) : bool :=
  String.eqb (msg_type b) "race:lap".

(** ** Outcome of a method that may raise *)

Inductive RuntimeError : Type := MkRuntimeError (msg : string).

Inductive Result (A : Type) : Type :=
| Ok (a : A)
| Raise (err : RuntimeError).

Arguments Ok {A} a.
Arguments Raise {A} err.

(** ** The engine's methods *)

(** A participant dict [{"lane": ..., "car_id": ...}]. *)
Record Participant : Type := { p_lane : Z; p_car_id : Z }.

(** The loop of [setup_race] that fills [lanes]. *)
Definition build_lanes (participants : list Participant) : Dict.t LaneState :=
  fold_left
    (fun lanes p =>
       Dict.set (p_lane p) (new_lane (p_lane p) (p_car_id p)) lanes)
    participants [].

Definition is_running (e : Engine) : bool :=
  match current_race e with
  | Some r => state_eqb (state r) RUNNING
  | None => false
  end.

(** [setup_race]; the returned [RaceState] is [current_race] of the result. *)
Definition setup_race (race track : Z) (participants : list Participant)
    (mode_ : string) (target : Z) (time_limit : option Z) (fuel : bool)
    (e : Engine) : Result Engine :=
  if is_running e then
    Raise (MkRuntimeError "Cannot setup new race while another is running")
  else
    let lanes_ := build_lanes participants in
    Ok (with_current_race
          {| race_id := race; track_id := track; mode := mode_;
             target_laps := target; time_limit_seconds := time_limit;
             fuel_simulation_enabled := fuel; lanes := lanes_;
             state := IDLE; start_time := None; elapsed_time_ms := 0;
             countdown_remaining := 5; finish_order := [] |} e).

Definition participant_view (kv : Z * LaneState) : ParticipantView :=
  let (lane, st) := kv in
  {| pv_lane := lane; pv_car_id := car_id st;
     pv_current_lap := current_lap st;
     pv_best_lap_time_ms := best_lap_time_ms st;
     pv_total_time_ms := total_time_ms st;
     pv_fuel_level := fuel_level st;
     pv_estimated_position := estimated_position st;
     pv_finished := finished st;
     pv_finish_position := finish_position st |}.

(** [_broadcast_state]. *)
Definition broadcast_state (e : Engine) : list Broadcast :=
  match current_race e with
  | None => []
  | Some r =>
      [ {| to_race := race_id r; msg_type := "race:state";
           payload := PState (race_id r) (state r) (elapsed_time_ms r)
                        (map participant_view (lanes r)) |} ]
  end.

(** [start_countdown] up to its loop. *)
Definition countdown_begin (e : Engine) : Result Engine :=
  match current_race e with
  | None => Raise (MkRuntimeError "No race to start")
  | Some r =>
      Ok (with_current_race
            (with_countdown_remaining 5 (with_state COUNTDOWN r)) e)
  end.

(** One round of the countdown loop of [start_countdown], up to its sleep. *)
Definition countdown_step (i : Z) (e : Engine) : Engine * list Broadcast :=
  match current_race e with
  | None => (e, [])
  | Some r =>
      let e := with_current_race (with_countdown_remaining i r) e in
      (e, broadcast_state e ++
          [ {| to_race := race_id r; msg_type := "race:countdown";
               payload := PCountdown i |} ])
  end.

(** [_start_race]. *)
Definition start_race (now : Q) (e : Engine) : Engine * list Broadcast :=
  match current_race e with
  | None => (e, [])
  | Some r =>
      let r := with_start_time (Some now) (with_state RUNNING r) in
      let r :=
        with_lanes
          (Dict.map_values (with_last_lap_timestamp now) (lanes r)) r in
      (create_tick_task (with_current_race r e),
       [ {| to_race := race_id r; msg_type := "race:started";
            payload := PStarted (race_id r) |} ])
  end.

(** The loop of [_finish_race] over [lanes.values()], threading
    [finish_order]. *)
Fixpoint finish_remaining (ls : Dict.t LaneState) (order : list Z)
    : Dict.t LaneState * list Z :=
  match ls with
  | [] => ([], order)
  | (k, lane) :: rest =>
      if finished lane then
        let (rest', order') := finish_remaining rest order in
        ((k, lane) :: rest', order')
      else
        let lane' := mark_finished (Py.len order + 1) lane in
        let (rest', order') :=
          finish_remaining rest (order ++ [lane_number lane]) in
        ((k, lane') :: rest', order')
  end.

Definition lane_result (kv : Z * LaneState) : Z * LaneResult :=
  let (lane, st) := kv in
  (lane, {| res_car_id := car_id st; res_laps := current_lap st;
            res_total_time_ms := total_time_ms st;
            res_best_lap_ms := best_lap_time_ms st;
            res_position := finish_position st |}).

(** [_finish_race]. *)
Definition finish_race (e : Engine) : Engine * list Broadcast :=
  let e := cancel_tick_task e in
  match current_race e with
  | None => (e, [])
  | Some r =>
      let r := with_state FINISHED r in
      let (lanes', order') := finish_remaining (lanes r) (finish_order r) in
      let r := with_finish_order order' (with_lanes lanes' r) in
      (with_current_race r e,
       [ {| to_race := race_id r; msg_type := "race:finished";
            payload := PFinished (race_id r) (finish_order r)
                         (map lane_result (lanes r)) |} ])
  end.

(** [_update_position_estimate]. *)
Definition update_position_estimate (current_time : Q) (lane : LaneState)
    : LaneState :=
  if Qeq_bool (last_lap_timestamp lane) 0 then lane
  else
    let time_since_lap := (current_time - last_lap_timestamp lane)%Q in
    let base_lap_time_s :=
      (inject_Z (sim_base_lap_time_ms settings) / 1000)%Q in
    if Py.Qltb 0 (power_level lane) then
      let speed_factor := (power_level lane / 100)%Q in
      let expected_progress :=
        ((time_since_lap * speed_factor) / base_lap_time_s)%Q in
      with_estimated_position (Py.fmod1 expected_progress) lane
    else lane.

(** The body of the loop of [_tick] over [lanes.values()]. *)
Definition tick_lane (fuel : bool) (current_time : Q) (lane : LaneState)
    : LaneState :=
  if finished lane then lane
  else
    let lane := update_position_estimate current_time lane in
    if fuel then
      let consumption := (power_level lane * (1 # 1000))%Q in
      with_fuel_level (Py.max2 0 (fuel_level lane - consumption)%Q) lane
    else lane.

(** The time-limit test of [_tick]; [None] and [0] are falsy. *)
Definition time_limit_reached (r : RaceState) : bool :=
  match time_limit_seconds r with
  | None => false
  | Some limit =>
      negb (limit =? 0) && (limit * 1000 <=? elapsed_time_ms r)
  end.

(** [_tick]. *)
Definition tick (current_time : Q) (e : Engine) : Engine * list Broadcast :=
  match current_race e with
  | None => (e, [])
  | Some r =>
      match start_time r with
      | None => (e, [])
      | Some started =>
          if negb (Py.truthy started) then (e, [])
          else
            let r :=
              with_elapsed_time_ms
                (Py.int ((current_time - started) * 1000)%Q) r in
            let r :=
              with_lanes
                (Dict.map_values
                   (tick_lane (fuel_simulation_enabled r) current_time)
                   (lanes r)) r in
            let e := with_current_race r e in
            if time_limit_reached r then finish_race e
            else if (Py.int (current_time * 10)%Q) mod 5 =? 0
                 then (e, broadcast_state e)
                 else (e, [])
      end
  end.

(** One round of [_race_tick_loop]: the loop test, then [_tick].  The round
    only happens while the task has not been cancelled. *)
Definition race_tick_loop_round (current_time : Q) (e : Engine)
    : Engine * list Broadcast :=
  match tick_task e with
  | Some TaskActive =>
      if is_running e then tick current_time e else (e, [])
  | _ => (e, [])
  end.

(** [lap_time_ms] as [record_lap] computes it. *)
Definition lap_ms (current_time : Q) (lane_state : LaneState) : Z :=
  Py.int ((current_time - last_lap_timestamp lane_state) * 1000)%Q.

(** [record_lap]. *)
Definition record_lap (lane : Z) (current_time : Q) (e : Engine)
    : Engine * list Broadcast :=
  match current_race e with
  | None => (e, [])
  | Some r =>
      if negb (state_eqb (state r) RUNNING) then (e, [])
      else
        match Dict.get lane (lanes r) with
        | None => (e, [])
        | Some lane_state =>
            if finished lane_state then (e, [])
            else
              let lap_time_ms := lap_ms current_time lane_state in
              let lane_state :=
                with_last_lap_timestamp current_time lane_state in
              if (current_lap lane_state =? 0) && (lap_time_ms <? 1000) then
                (with_current_race
                   (with_lanes (Dict.set lane lane_state (lanes r)) r) e, [])
              else
                let lane_state :=
                  with_estimated_position 0
                    (count_lap lap_time_ms lane_state) in
                let is_best :=
                  match best_lap_time_ms lane_state with
                  | None => true
                  | Some best => lap_time_ms <? best
                  end in
                let lane_state :=
                  if is_best
                  then with_best_lap_time_ms (Some lap_time_ms) lane_state
                  else lane_state in
                let lap_event :=
                  {| to_race := race_id r; msg_type := "race:lap";
                     payload := PLap (race_id r) (car_id lane_state) lane
                                  (current_lap lane_state) lap_time_ms
                                  is_best |} in
                if String.eqb (mode r) "race_laps"
                   && (target_laps r <=? current_lap lane_state) then
                  let lane_state :=
                    mark_finished (Py.len (finish_order r) + 1) lane_state in
                  let r :=
                    with_finish_order (finish_order r ++ [lane])
                      (with_lanes (Dict.set lane lane_state (lanes r)) r) in
                  if forallb finished (Dict.values (lanes r)) then
                    let (e', evs) := finish_race (with_current_race r e) in
                    (e', lap_event :: evs)
                  else (with_current_race r e, [lap_event])
                else
                  (with_current_race
                     (with_lanes (Dict.set lane lane_state (lanes r)) r) e,
                   [lap_event])
        end
  end.

(** [set_power]. *)
Definition set_power (lane : Z) (power : Q) (e : Engine)
    : Engine * list Broadcast :=
  match current_race e with
  | None => (e, [])
  | Some r =>
      match Dict.get lane (lanes r) with
      | Some lane_state =>
          let lane_state :=
            with_power_level (Py.max2 0 (Py.min2 100 power)) lane_state in
          (with_current_race
             (with_lanes (Dict.set lane lane_state (lanes r)) r) e, [])
      | None => (e, [])
      end
  end.

(** [pause]. *)
Definition pause (e : Engine) : Engine * list Broadcast :=
  match current_race e with
  | Some r =>
      if state_eqb (state r) RUNNING then
        let e := cancel_tick_task (with_current_race (with_state PAUSED r) e) in
        (e, broadcast_state e)
      else (e, [])
  | None => (e, [])
  end.

(** [resume]. *)
Definition resume (e : Engine) : Engine * list Broadcast :=
  match current_race e with
  | Some r =>
      if state_eqb (state r) PAUSED then
        let e :=
          create_tick_task (with_current_race (with_state RUNNING r) e) in
        (e, broadcast_state e)
      else (e, [])
  | None => (e, [])
  end.

(** [stop]. *)
Definition stop (e : Engine) : Engine * list Broadcast :=
  let e := cancel_tick_task e in
  match current_race e with
  | Some r =>
      (with_current_race (with_state FINISHED r) e,
       [ {| to_race := race_id r; msg_type := "race:cancelled";
            payload := PCancelled (race_id r) |} ])
  | None => (e, [])
  end.

(** ** Runs of the engine *)

Inductive Op : Type :=
| OpSetup (race track : Z) (participants : list Participant) (mode_ : string)
          (target : Z) (time_limit : option Z) (fuel : bool)
| OpCountdownBegin
| OpCountdownStep (i : Z)
| OpStartRace (now : Q)
| OpTick (now : Q)
| OpRecordLap (lane : Z) (now : Q)
| OpSetPower (lane : Z) (power : Q)
| OpPause
| OpResume
| OpStop.

(** A raised exception leaves the engine as it was and broadcasts nothing. *)
Definition or_unchanged (e : Engine) (res : Result Engine)
    : Engine * list Broadcast :=
  match res with
  | Ok e' => (e', [])
  | Raise _ => (e, [])
  end.

Definition step (op : Op) (e : Engine) : Engine * list Broadcast :=
  match op with
  | OpSetup race track participants mode_ target time_limit fuel =>
      or_unchanged e
        (setup_race race track participants mode_ target time_limit fuel e)
  | OpCountdownBegin => or_unchanged e (countdown_begin e)
  | OpCountdownStep i => countdown_step i e
  | OpStartRace now => start_race now e
  | OpTick now => race_tick_loop_round now e
  | OpRecordLap lane now => record_lap lane now e
  | OpSetPower lane power => set_power lane power e
  | OpPause => pause e
  | OpResume => resume e
  | OpStop => stop e
  end.

(** The engine and the broadcast log after a sequence of calls. *)
Fixpoint run (ops : list Op) (e : Engine) : Engine * list Broadcast :=
  match ops with
  | [] => (e, [])
  | op :: rest =>
      let (e1, out1) := step op e in
      let (e2, out2) := run rest e1 in
      (e2, out1 ++ out2)
  end.

Inductive reachable : Engine -> Prop :=
| reach_init : reachable init
| reach_step (op : Op) (e : Engine) :
    reachable e -> reachable (fst (step op e)).

(** The lane state of [lane] in the current session, if any. *)
Definition lane_of (lane : Z) (e : Engine) : option LaneState :=
  match current_race e with
  | Some r => Dict.get lane (lanes r)
  | None => None
  end.

(** The number of finished lanes of a session. *)
Definition count_finished (d : Dict.t LaneState) : nat :=
  List.length (filter finished (Dict.values d)).

(** ** Invariants of a session *)

(** The session has a time limit that [_tick] acts on. *)
Definition has_time_limit (r : RaceState) : bool :=
  match time_limit_seconds r with
  | Some limit => negb (limit =? 0)
  | None => false
  end.

(** What holds of every lane entry of a session of mode [m] and target
    [target], with or without a time limit: the lap history is consistent,
    the levels stay in range, and in a lap race an unfinished lane has not
    yet reached the target, no lane has gone beyond it, and without a time
    limit a finished lane has reached it. *)
Record lane_ok (m : string) (target : Z) (limited : bool) (k : Z)
    (l : LaneState) : Prop := {
  ok_key : lane_number l = k;
  ok_laps : current_lap l = Py.len (lap_times_ms l);
  ok_total : total_time_ms l = Py.sum (lap_times_ms l);
  ok_best : best_lap_time_ms l = Py.min_list (lap_times_ms l);
  ok_power : (0 <= power_level l <= 100)%Q;
  ok_position : (0 <= estimated_position l < 1)%Q;
  ok_finish : finished l = false -> finish_position l = None;
  ok_target :
    String.eqb m "race_laps" = true -> finished l = false ->
    current_lap l = 0 \/ current_lap l < target;
  ok_upper :
    String.eqb m "race_laps" = true -> current_lap l <= Z.max target 1;
  ok_reached :
    String.eqb m "race_laps" = true -> limited = false ->
    finished l = true -> target <= current_lap l
}.

Definition lanes_ok (m : string) (target : Z) (limited : bool)
    (d : Dict.t LaneState) : Prop :=
  Forall (fun kv => lane_ok m target limited (fst kv) (snd kv)) d.

(** The lane invariant under the rules of session [r]. *)
Definition lane_inv (r : RaceState) : Z -> LaneState -> Prop :=
  lane_ok (mode r) (target_laps r) (has_time_limit r).

Record race_ok (r : RaceState) : Prop := {
  ok_lanes :
    lanes_ok (mode r) (target_laps r) (has_time_limit r) (lanes r);
  ok_order : List.length (finish_order r) = count_finished (lanes r)
}.

Definition engine_ok (e : Engine) : Prop :=
  match current_race e with
  | Some r => race_ok r
  | None => True
  end.

(** ** Notions used by the statements *)

(** The guards of [record_lap] let the crossing of [lane] through: a session
    [r] is RUNNING and holds the unfinished lane state [l] at [lane]. *)
Definition accepts_lap (lane : Z) (e : Engine) (r : RaceState)
    (l : LaneState) : Prop :=
  current_race e = Some r /\ state r = RUNNING /\
  Dict.get lane (lanes r) = Some l /\ finished l = false.

(** The debounce test of [record_lap]. *)
Definition debounced (now : Q) (l : LaneState) : bool :=
  (current_lap l =? 0) && (lap_ms now l <? 1000).

(** The [is_best] flag of a counted crossing of lap time [t]. *)
Definition is_best_lap (t : Z) (l : LaneState) : bool :=
  match best_lap_time_ms l with
  | None => true
  | Some best => t <? best
  end.

(** The lane state a counted crossing leaves, before the finish test. *)
Definition counted_lane (t : Z) (now : Q) (l : LaneState) : LaneState :=
  let l1 :=
    with_estimated_position 0 (count_lap t (with_last_lap_timestamp now l)) in
  match best_lap_time_ms l with
  | None => with_best_lap_time_ms (Some t) l1
  | Some best =>
      if t <? best then with_best_lap_time_ms (Some t) l1 else l1
  end.

(** The [race:lap] message of a counted crossing on lane state [l]. *)
Definition lap_event (r : RaceState) (lane : Z) (l : LaneState) (t : Z)
    : Broadcast :=
  {| to_race := race_id r; msg_type := "race:lap";
     payload := PLap (race_id r) (car_id l) lane (current_lap l + 1) t
                  (is_best_lap t l) |}.

(** The finish test of [record_lap] on the lap count [laps]. *)
Definition reaches_target (r : RaceState) (laps : Z) : bool :=
  String.eqb (mode r) "race_laps" && (target_laps r <=? laps).

(** The session after lane [lane] has been marked finished by [record_lap]. *)
Definition race_with_finisher (lane : Z) (l1 : LaneState) (r : RaceState)
    : RaceState :=
  with_finish_order (finish_order r ++ [lane])
    (with_lanes
       (Dict.set lane (mark_finished (Py.len (finish_order r) + 1) l1)
          (lanes r)) r).

(** The [race:finished] message of a session. *)
Definition finished_event (r : RaceState) : Broadcast :=
  {| to_race := race_id r; msg_type := "race:finished";
     payload := PFinished (race_id r) (finish_order r)
                  (map lane_result (lanes r)) |}.

(** The [race:cancelled] message of a session. *)
Definition cancelled_event (r : RaceState) : Broadcast :=
  {| to_race := race_id r; msg_type := "race:cancelled";
     payload := PCancelled (race_id r) |}.

Definition task_active (e : Engine) : bool :=
  match tick_task e with
  | Some TaskActive => true
  | _ => false
  end.

(** [max(0, min(100, power))]. *)
Definition clamp_power (power : Q) : Q := Py.max2 0 (Py.min2 100 power).


(** The guard of [_tick]: a session with a truthy [start_time]. *)
Definition tick_started (e : Engine) : bool :=
  match current_race e with
  | Some r =>
      match start_time r with
      | Some started => Py.truthy started
      | None => false
      end
  | None => false
  end.

(** The dead-reckoning formula of [_update_position_estimate]. *)
Definition dead_reckoning (now : Q) (l : LaneState) : Q :=
  Py.fmod1
    (((now - last_lap_timestamp l) * (power_level l / 100)) /
     (inject_Z (sim_base_lap_time_ms settings) / 1000))%Q.

(** The last participant of [ps] that is assigned lane [k]. *)
Fixpoint last_on_lane (k : Z) (ps : list Participant) : option Participant :=
  match ps with
  | [] => None
  | p :: rest =>
      match last_on_lane k rest with
      | Some q => Some q
      | None => if p_lane p =? k then Some p else None
      end
  end.


(** ** Lanes along a run *)

(** [l'] has the lap history of [l], and a finished [l] stays finished at
    its position. *)
Definition lane_kept (l l' : LaneState) : Prop :=
  lap_times_ms l' = lap_times_ms l /\
  (finished l = true ->
   finished l' = true /\ finish_position l' = finish_position l).

Definition is_setup (op : Op) : bool :=
  match op with
  | OpSetup _ _ _ _ _ _ _ => true
  | _ => false
  end.

(** The call replaces the session: a [setup_race] that does not raise. *)
Definition installs_session (op : Op) (e : Engine) : bool :=
  is_setup op && negb (is_running e).

(** The time of the lap that the call [op] makes [record_lap] count for lane
    [k]: the session is RUNNING, the lane is known and unfinished and the
    crossing is not debounced. *)
Definition counted_time (k : Z) (op : Op) (e : Engine) : option Z :=
  match op with
  | OpRecordLap lane now =>
      if (lane =? k) && is_running e then
        match lane_of lane e with
        | Some l =>
            if finished l || debounced now l then None
            else Some (lap_ms now l)
        | None => None
        end
      else None
  | _ => None
  end.

(** The times of the laps counted for lane [k] along a run, starting from
    [acc] and starting over whenever a new session is installed. *)
Fixpoint laps_recorded (k : Z) (ops : list Op) (e : Engine) (acc : list Z)
    : list Z :=
  match ops with
  | [] => acc
  | op :: rest =>
      laps_recorded k rest (fst (step op e))
        (if installs_session op e then []
         else match counted_time k op e with
              | Some t => acc ++ [t]
              | None => acc
              end)
  end.

(** ** Sample sessions *)

(** A two-lane lap race of three laps, as it stands once started at clock
    reading 10. *)
Definition demo_participants : list Participant :=
  [ {| p_lane := 1; p_car_id := 11 |}; {| p_lane := 2; p_car_id := 12 |} ].

Definition demo_lane (k car : Z) : LaneState :=
  with_last_lap_timestamp 10 (new_lane k car).

Definition demo_race : RaceState :=
  {| race_id := 1; track_id := 1; mode := "race_laps"; target_laps := 3;
     time_limit_seconds := None; fuel_simulation_enabled := false;
     lanes := [(1, demo_lane 1 11); (2, demo_lane 2 12)];
     state := RUNNING; start_time := Some 10%Q; elapsed_time_ms := 0;
     countdown_remaining := 5; finish_order := [] |}.

Definition demo_started : Engine :=
  {| current_race := Some demo_race; tick_task := Some TaskActive |}.

(** The demo session run for three crossings of lane 1, at 1.2 s, 2.3 s and
    3.1 s after the start, with a refused crossing of an unknown lane in
    between. *)
Definition demo_three_laps : list Op :=
  [ OpSetup 1 1 demo_participants "race_laps" 3 None false;
    OpStartRace 10;
    OpRecordLap 1 (112 # 10);
    OpRecordLap 7 (12 # 1);
    OpRecordLap 1 (123 # 10);
    OpRecordLap 1 (131 # 10) ].

(** The demo session after laps of 1200 and 1100 ms on lane 1. *)
Definition demo_lane1_two : LaneState :=
  {| lane_number := 1; car_id := 11; power_level := 0; current_lap := 2;
     lap_times_ms := [1200; 1100]; best_lap_time_ms := Some 1100;
     total_time_ms := 2300; last_lap_timestamp := 123 # 10;
     estimated_position := 0; fuel_level := 100; finished := false;
     finish_position := None |}.

Definition demo_race_two : RaceState :=
  with_lanes [(1, demo_lane1_two); (2, demo_lane 2 12)] demo_race.

Definition demo_after_two : Engine :=
  {| current_race := Some demo_race_two; tick_task := Some TaskActive |}.

(** Lane 1 at the end of that run. *)
Definition demo_lane1_final : LaneState :=
  {| lane_number := 1; car_id := 11; power_level := 0; current_lap := 3;
     lap_times_ms := [1200; 1100; 800]; best_lap_time_ms := Some 800;
     total_time_ms := 3100; last_lap_timestamp := 131 # 10;
     estimated_position := 0; fuel_level := 100; finished := true;
     finish_position := Some 1 |}.

(** The three-lap run, after which lane 1, finished, is given half power. *)
Definition demo_lane1_powered : LaneState :=
  with_power_level 50 demo_lane1_final.

Definition demo_finished_powered : Engine :=
  {| current_race :=
       Some (with_finish_order [1]
               (with_lanes [(1, demo_lane1_powered); (2, demo_lane 2 12)]
                  demo_race));
     tick_task := Some TaskActive |}.

(** Two cars put on lane 1. *)
Definition clashing_participants : list Participant :=
  [ {| p_lane := 1; p_car_id := 11 |}; {| p_lane := 1; p_car_id := 12 |} ].










(** ** Further notions: the countdown, messages, levels and the podium *)

(** The loop of [start_countdown] over [range(5, 0, -1)], when no other
    call runs during its sleeps. *)
Fixpoint countdown_loop (counts : list Z) (e : Engine)
    : Engine * list Broadcast :=
  match counts with
  | [] => (e, [])
  | i :: rest =>
      let (e1, out1) := countdown_step i e in
      let (e2, out2) := countdown_loop rest e1 in
      (e2, out1 ++ out2)
  end.

(** [start_countdown] run without interruption; [now] is the clock reading
    that [_start_race] takes at its end. *)
Definition start_countdown (now : Q) (e : Engine)
    : Result (Engine * list Broadcast) :=
  match countdown_begin e with
  | Raise err => Raise err
  | Ok e0 =>
      let (e1, out1) := countdown_loop [5; 4; 3; 2; 1] e0 in
      let (e2, out2) := start_race now e1 in
      Ok (e2, out1 ++ out2)
  end.

(** The [race:state] message of a session. *)
Definition state_event (r : RaceState) : Broadcast :=
  {| to_race := race_id r; msg_type := "race:state";
     payload := PState (race_id r) (state r) (elapsed_time_ms r)
                  (map participant_view (lanes r)) |}.

(** The [race:countdown] message of a session at count [i]. *)
Definition countdown_event (r : RaceState) (i : Z) : Broadcast :=
  {| to_race := race_id r; msg_type := "race:countdown";
     payload := PCountdown i |}.

(** The [race:started] message of a session. *)
Definition started_event (r : RaceState) : Broadcast :=
  {| to_race := race_id r; msg_type := "race:started";
     payload := PStarted (race_id r) |}.

(** The session that [_start_race] at [now] makes of [r]. *)
Definition started_race (now : Q) (r : RaceState) : RaceState :=
  with_lanes (Dict.map_values (with_last_lap_timestamp now) (lanes r))
    (with_start_time (Some now) (with_state RUNNING r)).

(** [l'] has the lane number, the finished flag and the position of [l]. *)
Definition same_standing (l l' : LaneState) : Prop :=
  lane_number l' = lane_number l /\ finished l' = finished l /\
  finish_position l' = finish_position l.

(** Where the lane [k] of state [l] stands in [order]: a finished lane sits
    at the place that its position names, an unfinished one is not in it. *)
Definition placed (order : list Z) (k : Z) (l : LaneState) : Prop :=
  if finished l
  then exists i : nat,
         finish_position l = Some (Z.of_nat i + 1) /\
         nth_error order i = Some k
  else ~ In k order.

(** The invariant that ties [finish_order] to the lanes. *)
Record podium_ok (r : RaceState) : Prop := {
  pod_keys : NoDup (Dict.keys (lanes r));
  pod_numbers : Forall (fun kv => lane_number (snd kv) = fst kv) (lanes r);
  pod_order : NoDup (finish_order r);
  pod_known : incl (finish_order r) (Dict.keys (lanes r));
  pod_placed :
    Forall (fun kv => placed (finish_order r) (fst kv) (snd kv)) (lanes r)
}.

Definition engine_podium_ok (e : Engine) : Prop :=
  match current_race e with
  | Some r => podium_ok r
  | None => True
  end.

(** The lanes still racing, in the order of the lanes dict. *)
Definition unfinished_numbers (d : Dict.t LaneState) : list Z :=
  map lane_number (filter (fun l => negb (finished l)) (Dict.values d)).

(** The session that [_finish_race] makes of [r]. *)
Definition finalised (r : RaceState) : RaceState :=
  let (lanes', order') := finish_remaining (lanes r) (finish_order r) in
  with_finish_order order' (with_lanes lanes' (with_state FINISHED r)).

(** Every lane entry of the session, if there is one, satisfies [P]. *)
Definition every_lane (P : Z -> LaneState -> Prop) (e : Engine) : Prop :=
  match current_race e with
  | Some r => Forall (fun kv => P (fst kv) (snd kv)) (lanes r)
  | None => True
  end.

(** Fuel and power are percentages. *)
Definition levels_in_range (k : Z) (l : LaneState) : Prop :=
  (0 <= fuel_level l <= 100)%Q /\ (0 <= power_level l <= 100)%Q.

(** The fuel that the loop body of [_tick] leaves in a lane of a session
    whose fuel simulation is [fuel]. *)
Definition fuel_after_tick (fuel : bool) (l : LaneState) : Q :=
  if fuel && negb (finished l)
  then Py.max2 0 (fuel_level l - power_level l * (1 # 1000))%Q
  else fuel_level l.

(** From [l] to [l'] a lane keeps its number and its car, its lap history
    only grows at the end, its lap count does not fall, its fuel does not
    rise, and a finished lane stays finished at its position. *)
Definition lane_moves_on (l l' : LaneState) : Prop :=
  lane_number l' = lane_number l /\
  car_id l' = car_id l /\
  (exists extra, lap_times_ms l' = lap_times_ms l ++ extra) /\
  current_lap l <= current_lap l' /\
  (fuel_level l' <= fuel_level l)%Q /\
  (finished l = true ->
   finished l' = true /\ finish_position l' = finish_position l).

(** Calls other than [setup_race]. *)
Definition no_setup (ops : list Op) : Prop :=
  Forall (fun op => is_setup op = false) ops.

(** [r'] is a later stage of the session [r]: same race, same track, same
    rules, same lane numbers in the same order. *)
Definition same_rules (r r' : RaceState) : Prop :=
  race_id r' = race_id r /\ track_id r' = track_id r /\
  mode r' = mode r /\ target_laps r' = target_laps r /\
  time_limit_seconds r' = time_limit_seconds r /\
  fuel_simulation_enabled r' = fuel_simulation_enabled r /\
  Dict.keys (lanes r') = Dict.keys (lanes r).

(** The session half-way through [_tick]: elapsed time and lanes updated. *)
Definition ticked_race (now started : Q) (r : RaceState) : RaceState :=
  with_lanes
    (Dict.map_values (tick_lane (fuel_simulation_enabled r) now) (lanes r))
    (with_elapsed_time_ms (Py.int ((now - started) * 1000)%Q) r).

(** A sequence of [record_lap] calls, each a lane and a clock reading. *)
Definition crossings (cs : list (Z * Q)) : list Op :=
  map (fun c => OpRecordLap (fst c) (snd c)) cs.

(** [record_lap] turns the crossing of [lane] away: no RUNNING session, an
    unknown lane or a finished lane. *)
Definition turned_away (lane : Z) (e : Engine) : bool :=
  negb (is_running e) ||
  match lane_of lane e with
  | Some l => finished l
  | None => true
  end.

(** The session has a time limit and the clock [now] is at least that many
    seconds after [started]. *)
Definition time_is_up (now started : Q) (r : RaceState) : Prop :=
  exists limit,
    time_limit_seconds r = Some limit /\ 0 < limit /\
    (inject_Z limit <= now - started)%Q.

(** The lap time that the message [b] announces for lane [k], if [b] is a
    [race:lap] message of that lane. *)
Definition announced_lap (k : Z) (b : Broadcast) : option Z :=
  if is_lap_event b then
    match payload b with
    | PLap _ _ lane _ t _ => if lane =? k then Some t else None
    | _ => None
    end
  else None.

(** The lap times announced for lane [k] in a log of messages, in order. *)
Definition announced_laps (k : Z) (out : list Broadcast) : list Z :=
  flat_map
    (fun b => match announced_lap k b with Some t => [t] | None => [] end)
    out.


(** A started two-lane race with a time limit of 60 s and fuel simulation. *)
Definition demo_timed_race : RaceState :=
  {| race_id := 2; track_id := 1; mode := "race_time"; target_laps := 10;
     time_limit_seconds := Some 60; fuel_simulation_enabled := true;
     lanes := [(1, with_power_level 80 (demo_lane 1 11));
               (2, demo_lane 2 12)];
     state := RUNNING; start_time := Some 10%Q; elapsed_time_ms := 0;
     countdown_remaining := 1; finish_order := [] |}.

Definition demo_timed : Engine :=
  {| current_race := Some demo_timed_race; tick_task := Some TaskActive |}.

(** The crossings of [demo_three_laps], for a session already started. *)
Definition demo_crossings : list Op :=
  [ OpRecordLap 1 (112 # 10);
    OpRecordLap 7 (12 # 1);
    OpRecordLap 1 (123 # 10);
    OpRecordLap 1 (131 # 10) ].

(** The call is a [set_power]. *)
Definition is_set_power (op : Op) : bool :=
  match op with
  | OpSetPower _ _ => true
  | _ => false
  end.

(** Calls that neither install a session nor write a power level. *)
Definition no_power_writes (ops : list Op) : Prop :=
  Forall (fun op => is_setup op = false /\ is_set_power op = false) ops.

(** ** The simulated power controller (simulation/simulator.py) *)

(** The methods of [SimulatedPWMController] act on the controller and on the
    global [race_engine]; here both are passed and returned. *)

(** [range(lo, hi)]. *)
Definition range (lo hi : Z) : list Z :=
  map (fun i => lo + Z.of_nat i) (seq 0 (Z.to_nat (hi - lo))).

(** [race_engine.set_power(lane, power)] on the global engine. *)
Definition race_engine_set_power (lane : Z) (power : Q) (e : Engine)
    : Engine :=
  fst (set_power lane power e).

Module SimulatedPWMController.

(** The controller: [power_levels], a dict from lane to level. *)
Record t : Type := { power_levels : Dict.t Q }.

(** [__init__(num_lanes)]. *)
Definition init (num_lanes : Z) : t :=
  {| power_levels := map (fun lane => (lane, 0%Q)) (range 1 (num_lanes + 1)) |}.

(** [set_power]: the controller keeps the clamped value and hands the value
    it was given on to the engine. *)
Definition set_power (lane : Z) (power : Q) (c : t) (e : Engine)
    : t * Engine :=
  if Dict.contains lane (power_levels c) then
    ({| power_levels :=
          Dict.set lane (Py.max2 0 (Py.min2 100 power)) (power_levels c) |},
     race_engine_set_power lane power e)
  else (c, e).

(** [get_power]: [power_levels.get(lane, 0.0)]. *)
Definition get_power (lane : Z) (c : t) : Q :=
  match Dict.get lane (power_levels c) with
  | Some power => power
  | None => 0%Q
  end.

(** [emergency_stop]: the loop over the keys of [power_levels]. *)
Definition emergency_stop (c : t) (e : Engine) : t * Engine :=
  fold_left
    (fun ce lane =>
       ({| power_levels := Dict.set lane 0%Q (power_levels (fst ce)) |},
        race_engine_set_power lane 0 (snd ce)))
    (Dict.keys (power_levels c)) (c, e).

End SimulatedPWMController.

(** Calls on the controller and on the engine it drives, in any order. *)
Inductive RigOp : Type :=
| RigSetPower (lane : Z) (power : Q)
| RigEmergencyStop
| RigEngine (op : Op).

Definition rig_step (op : RigOp)
    (ce : SimulatedPWMController.t * Engine)
    : SimulatedPWMController.t * Engine :=
  match op with
  | RigSetPower lane power =>
      SimulatedPWMController.set_power lane power (fst ce) (snd ce)
  | RigEmergencyStop =>
      SimulatedPWMController.emergency_stop (fst ce) (snd ce)
  | RigEngine op => (fst ce, fst (step op (snd ce)))
  end.

Definition rig_run (ops : list RigOp)
    (ce : SimulatedPWMController.t * Engine)
    : SimulatedPWMController.t * Engine :=
  fold_left (fun ce op => rig_step op ce) ops ce.

(** The engine is only called in ways that leave power levels alone: no
    [setup_race] and no [set_power] that bypasses the controller. *)
Definition rig_quiet (op : RigOp) : bool :=
  match op with
  | RigEngine op => negb (is_setup op) && negb (is_set_power op)
  | _ => true
  end.

(** Controller and engine hold the same level for every lane both know. *)
Definition levels_agree (c : SimulatedPWMController.t) (e : Engine) : Prop :=
  forall k l,
    Dict.contains k (SimulatedPWMController.power_levels c) = true ->
    lane_of k e = Some l ->
    power_level l = SimulatedPWMController.get_power k c.

(** The controller has the lanes 1 to [n], each at a level in [[0, 100]]. *)
Definition controller_ok (n : Z) (c : SimulatedPWMController.t) : Prop :=
  Dict.keys (SimulatedPWMController.power_levels c) = range 1 (n + 1) /\
  Forall (fun kv => (0 <= snd kv <= 100)%Q)
    (SimulatedPWMController.power_levels c).

(** ** The connection manager (websocket.py) *)

(** Each method of [ConnectionManager] is taken as one step, as for the
    engine: nothing else runs between its awaits.  Whether
    [websocket.send_json] returns or raises is not decided by this code, so
    every sending method takes that behaviour as an argument.  The clock of
    [datetime.utcnow()] is an argument too.  What goes out is kept as a list
    of pairs, the connection id and the message. *)

(** A [dict] with [str] keys, in insertion order. *)
Module StrDict.

Definition t (V : Type) : Type := list (string * V).

Fixpoint get {V : Type} (k : string) (d : t V) : option V :=
  match d with
  | [] => None
  | (k', v) :: rest => if String.eqb k k' then Some v else get k rest
  end.

(** [d[k] = v]: an existing key keeps its place, a new key goes last. *)
Fixpoint set {V : Type} (k : string) (v : V) (d : t V) : t V :=
  match d with
  | [] => [(k, v)]
  | (k', v') :: rest =>
      if String.eqb k k' then (k', v) :: rest else (k', v') :: set k v rest
  end.

(** [d.pop(k, None)], the value dropped. *)
Fixpoint pop {V : Type} (k : string) (d : t V) : t V :=
  match d with
  | [] => []
  | (k', v') :: rest =>
      if String.eqb k k' then rest else (k', v') :: pop k rest
  end.

Definition keys {V : Type} (d : t V) : list string := map fst d.

End StrDict.

(** A [WebSocket] object, told from the others by a handle.  Such an object
    is truthy, so [if websocket:] only tests that [get] found one. *)
Definition WebSocket : Type := Z.

(** The outcome of [websocket.send_json(message)]: [true] when the call
    returns, [false] when it raises. *)
Definition SendJson (M : Type) : Type := WebSocket -> M -> bool.

(** The metadata dict of a connection; [subscribed_races] is a set of race
    ids, of which only membership is ever read. *)
Record ConnectionMetadata : Type := {
  connected_at : Z;
  subscribed_races : list Z
}.

(** [s.add(x)], [s.discard(x)] and [x in s] on such a set. *)
Definition set_mem (x : Z) (s : list Z) : bool := existsb (Z.eqb x) s.

Definition set_add (x : Z) (s : list Z) : list Z :=
  if set_mem x s then s else s ++ [x].

Definition set_discard (x : Z) (s : list Z) : list Z :=
  filter (fun y => negb (y =? x)) s.

Record ConnectionManager : Type := {
  active_connections : StrDict.t WebSocket;
  connection_metadata : StrDict.t ConnectionMetadata
}.

(** [ConnectionManager()]. *)
Definition manager_init : ConnectionManager :=
  {| active_connections := []; connection_metadata := [] |}.

(** [connect], once [websocket.accept()] has returned, at clock [now]. *)
Definition connect (websocket : WebSocket) (connection_id : string)
    (now : Z) (m : ConnectionManager) : ConnectionManager :=
  {| active_connections :=
       StrDict.set connection_id websocket (active_connections m);
     connection_metadata :=
       StrDict.set connection_id
         {| connected_at := now; subscribed_races := [] |}
         (connection_metadata m) |}.

(** [disconnect]. *)
Definition disconnect (connection_id : string) (m : ConnectionManager)
    : ConnectionManager :=
  {| active_connections := StrDict.pop connection_id (active_connections m);
     connection_metadata :=
       StrDict.pop connection_id (connection_metadata m) |}.

(** [subscribe_to_race]. *)
Definition subscribe_to_race (connection_id : string) (race : Z)
    (m : ConnectionManager) : ConnectionManager :=
  match StrDict.get connection_id (connection_metadata m) with
  | Some md =>
      {| active_connections := active_connections m;
         connection_metadata :=
           StrDict.set connection_id
             {| connected_at := connected_at md;
                subscribed_races := set_add race (subscribed_races md) |}
             (connection_metadata m) |}
  | None => m
  end.

(** [unsubscribe_from_race]. *)
Definition unsubscribe_from_race (connection_id : string) (race : Z)
    (m : ConnectionManager) : ConnectionManager :=
  match StrDict.get connection_id (connection_metadata m) with
  | Some md =>
      {| active_connections := active_connections m;
         connection_metadata :=
           StrDict.set connection_id
             {| connected_at := connected_at md;
                subscribed_races := set_discard race (subscribed_races md) |}
             (connection_metadata m) |}
  | None => m
  end.

(** [send_personal]; the second component lists the messages that went out,
    each with the connection it went to. *)
Definition send_personal {M : Type} (send_json : SendJson M)
    (connection_id : string) (message : M) (m : ConnectionManager)
    : ConnectionManager * list (string * M) :=
  match StrDict.get connection_id (active_connections m) with
  | Some websocket =>
      if send_json websocket message then (m, [(connection_id, message)])
      else (disconnect connection_id m, [])
  | None => (m, [])
  end.

(** The first loop of [_send_to_connections]: what was sent, and the
    [disconnected] list. *)
Fixpoint send_round {M : Type} (send_json : SendJson M)
    (connection_ids : list string) (message : M) (m : ConnectionManager)
    : list (string * M) * list string :=
  match connection_ids with
  | [] => ([], [])
  | connection_id :: rest =>
      let (sent, disconnected) := send_round send_json rest message m in
      match StrDict.get connection_id (active_connections m) with
      | Some websocket =>
          if send_json websocket message
          then ((connection_id, message) :: sent, disconnected)
          else (sent, connection_id :: disconnected)
      | None => (sent, disconnected)
      end
  end.

(** [_send_to_connections]. *)
Definition send_to_connections {M : Type} (send_json : SendJson M)
    (connection_ids : list string) (message : M) (m : ConnectionManager)
    : ConnectionManager * list (string * M) :=
  let (sent, disconnected) := send_round send_json connection_ids message m in
  (fold_left (fun m connection_id => disconnect connection_id m)
     disconnected m,
   sent).

(** [broadcast]. *)
Definition broadcast {M : Type} (send_json : SendJson M) (message : M)
    (m : ConnectionManager) : ConnectionManager * list (string * M) :=
  send_to_connections send_json (StrDict.keys (active_connections m))
    message m.

(** The [connection_ids] that [broadcast_to_race] collects. *)
Definition race_subscribers (race : Z) (m : ConnectionManager)
    : list string :=
  map fst
    (filter (fun item => set_mem race (subscribed_races (snd item)))
       (connection_metadata m)).

(** [broadcast_to_race]. *)
Definition broadcast_to_race {M : Type} (send_json : SendJson M) (race : Z)
    (message : M) (m : ConnectionManager)
    : ConnectionManager * list (string * M) :=
  send_to_connections send_json (race_subscribers race m) message m.

(** [connection_count]. *)
Definition connection_count (m : ConnectionManager) : Z :=
  Py.len (active_connections m).

(** [create_ws_message], at clock [now]. *)
Record WsMessage : Type := {
  ws_type : string;
  ws_payload : Payload;
  ws_timestamp : Z
}.

Definition create_ws_message (event_type : string) (payload_ : Payload)
    (now : Z) : WsMessage :=
  {| ws_type := event_type; ws_payload := payload_; ws_timestamp := now |}.

(** One call on the manager. *)
Inductive ManagerOp (M : Type) : Type :=
| MConnect (websocket : WebSocket) (connection_id : string) (now : Z)
| MDisconnect (connection_id : string)
| MSubscribe (connection_id : string) (race : Z)
| MUnsubscribe (connection_id : string) (race : Z)
| MSendPersonal (send_json : SendJson M) (connection_id : string)
    (message : M)
| MBroadcast (send_json : SendJson M) (message : M)
| MBroadcastToRace (send_json : SendJson M) (race : Z) (message : M).

Arguments MConnect {M} websocket connection_id now.
Arguments MDisconnect {M} connection_id.
Arguments MSubscribe {M} connection_id race.
Arguments MUnsubscribe {M} connection_id race.
Arguments MSendPersonal {M} send_json connection_id message.
Arguments MBroadcast {M} send_json message.
Arguments MBroadcastToRace {M} send_json race message.

Definition manager_step {M : Type} (op : ManagerOp M)
    (m : ConnectionManager) : ConnectionManager * list (string * M) :=
  match op with
  | MConnect websocket connection_id now =>
      (connect websocket connection_id now m, [])
  | MDisconnect connection_id => (disconnect connection_id m, [])
  | MSubscribe connection_id race =>
      (subscribe_to_race connection_id race m, [])
  | MUnsubscribe connection_id race =>
      (unsubscribe_from_race connection_id race m, [])
  | MSendPersonal send_json connection_id message =>
      send_personal send_json connection_id message m
  | MBroadcast send_json message => broadcast send_json message m
  | MBroadcastToRace send_json race message =>
      broadcast_to_race send_json race message m
  end.

Fixpoint manager_run {M : Type} (ops : list (ManagerOp M))
    (m : ConnectionManager) : ConnectionManager * list (string * M) :=
  match ops with
  | [] => (m, [])
  | op :: rest =>
      let (m1, out1) := manager_step op m in
      let (m2, out2) := manager_run rest m1 in
      (m2, out1 ++ out2)
  end.

(** The two tables list the same connections, each once. *)
Definition manager_ok (m : ConnectionManager) : Prop :=
  StrDict.keys (active_connections m) =
  StrDict.keys (connection_metadata m) /\
  NoDup (StrDict.keys (active_connections m)).

(** The connection is in the tables and subscribed to the race. *)
Definition subscribed (connection_id : string) (race : Z)
    (m : ConnectionManager) : bool :=
  match StrDict.get connection_id (connection_metadata m) with
  | Some md => set_mem race (subscribed_races md)
  | None => false
  end.

(** The connection has a socket and sending [message] on it returns. *)
Definition reachable_by {M : Type} (send_json : SendJson M)
    (connection_id : string) (message : M) (m : ConnectionManager) : bool :=
  match StrDict.get connection_id (active_connections m) with
  | Some websocket => send_json websocket message
  | None => false
  end.

(** The call is [connect] for the connection [c]. *)
Definition is_connect {M : Type} (c : string) (op : ManagerOp M) : bool :=
  match op with
  | MConnect _ connection_id _ => String.eqb connection_id c
  | _ => false
  end.

(** The engine's message [b] handed to the manager: the
    [manager.broadcast_to_race(race_id, create_ws_message(type, payload))]
    of the engine's methods, at clock [now]. *)
Definition relay_op (send_json : SendJson WsMessage) (now : Z)
    (b : Broadcast) : ManagerOp WsMessage :=
  MBroadcastToRace send_json (to_race b)
    (create_ws_message (msg_type b) (payload b) now).

(** The messages of the engine handed to the manager one after the other,
    each with the behaviour of the sockets and the clock at its turn. *)
Fixpoint relay (env : nat -> SendJson WsMessage * Z) (out : list Broadcast)
    : list (ManagerOp WsMessage) :=
  match out with
  | [] => []
  | b :: rest =>
      relay_op (fst (env O)) (snd (env O)) b ::
      relay (fun i => env (S i)) rest
  end.

(** Two clients, the first subscribed to race 1, the second to race 2. *)
Definition demo_manager : ConnectionManager :=
  {| active_connections := [("a"%string, 1); ("b"%string, 2)];
     connection_metadata :=
       [("a"%string, {| connected_at := 0; subscribed_races := [1] |});
        ("b"%string, {| connected_at := 5; subscribed_races := [2] |})] |}.

(** The connection has a socket and sending [message] on it raises. *)
Definition fails_on {M : Type} (send_json : SendJson M)
    (connection_id : string) (message : M) (m : ConnectionManager) : bool :=
  match StrDict.get connection_id (active_connections m) with
  | Some websocket => negb (send_json websocket message)
  | None => false
  end.

(** A run of the manager without a [connect] for the connection [c]. *)
Definition no_connect {M : Type} (c : string) (ops : list (ManagerOp M))
    : Prop :=
  Forall (fun op => is_connect c op = false) ops.

(** The connection has a metadata entry. *)
Definition has_metadata (connection_id : string) (m : ConnectionManager)
    : bool :=
  match StrDict.get connection_id (connection_metadata m) with
  | Some _ => true
  | None => false
  end.

(** ** Creating a race (api/races.py, database.py) *)

(** [generate_id(table)], on the documents of [table.all()], each seen
    through [doc.get("id")]: [None] for a document without an id. *)
Definition doc_id (d : option Z) : Z :=
  match d with
  | Some i => i
  | None => 0
  end.

Definition generate_id (all_docs : list (option Z)) : Z :=
  match all_docs with
  | [] => 1
  | d :: rest => fold_left Z.max (map doc_id rest) (doc_id d) + 1
  end.

(** A track document: its id and its ["lanes"] entry, if it has one. *)
Record TrackDoc : Type := { td_id : Z; td_lanes : option Z }.

(** The [HTTPException]s of [create_race], all with status 400; the numbers
    are those that the detail text shows. *)
Inductive CreateRaceError : Type :=
| TrackNotFound
| LaneAlreadyAssigned (lane : Z)
| LaneExceedsTrack (lane track_lanes : Z)
| CarNotFound (car : Z).

(** The loop of [create_race] over the participants; [car_ids] are the ids
    of the documents of the cars table.  [None]: no exception. *)
Fixpoint validate_participants (track_lanes : Z) (car_ids : list Z)
    (lanes_used : list Z) (participants : list Participant)
    : option CreateRaceError :=
  match participants with
  | [] => None
  | participant :: rest =>
      if set_mem (p_lane participant) lanes_used then
        Some (LaneAlreadyAssigned (p_lane participant))
      else if track_lanes <? p_lane participant then
        Some (LaneExceedsTrack (p_lane participant) track_lanes)
      else if negb (existsb (Z.eqb (p_car_id participant)) car_ids) then
        Some (CarNotFound (p_car_id participant))
      else
        validate_participants track_lanes car_ids
          (set_add (p_lane participant) lanes_used) rest
  end.

(** [track.get("lanes", 2)]. *)
Definition lanes_of_track (track : TrackDoc) : Z :=
  match td_lanes track with
  | Some n => n
  | None => 2
  end.

(** The checks of [create_race], up to the insertion of the new race. *)
Definition create_race_checks (tracks : list TrackDoc) (car_ids : list Z)
    (track : Z) (participants : list Participant)
    : option CreateRaceError :=
  match find (fun t => td_id t =? track) tracks with
  | None => Some TrackNotFound
  | Some t => validate_participants (lanes_of_track t) car_ids []
                participants
  end.

(** ** The race endpoints (api/races.py) *)

(** A document of the races table, with the keys that [create_race] gives
    it; times are clock readings. *)
Record RaceDoc : Type := {
  rd_id : Z;
  rd_track_id : Z;
  rd_mode : string;
  rd_state : string;
  rd_target_laps : Z;
  rd_time_limit_seconds : option Z;
  rd_fuel_simulation_enabled : bool;
  rd_started_at : option Z;
  rd_finished_at : option Z;
  rd_created_at : Z;
  rd_participants : list Participant
}.

(** [race["state"] = v]. *)
Definition with_rd_state (v : string) (race : RaceDoc) : RaceDoc :=
  {| rd_id := rd_id race; rd_track_id := rd_track_id race;
     rd_mode := rd_mode race; rd_state := v;
     rd_target_laps := rd_target_laps race;
     rd_time_limit_seconds := rd_time_limit_seconds race;
     rd_fuel_simulation_enabled := rd_fuel_simulation_enabled race;
     rd_started_at := rd_started_at race;
     rd_finished_at := rd_finished_at race;
     rd_created_at := rd_created_at race;
     rd_participants := rd_participants race |}.

(** The tables the race endpoints use; of a car only its id is read. *)
Record Db : Type := {
  db_tracks : list TrackDoc;
  db_cars : list Z;
  db_races : list RaceDoc
}.

Definition with_db_races (v : list RaceDoc) (db : Db) : Db :=
  {| db_tracks := db_tracks db; db_cars := db_cars db; db_races := v |}.

(** The [HTTPException]s of the race endpoints. *)
Inductive ApiError : Type :=
| CreateRaceRefused (err : CreateRaceError)
| RaceNotFound
| CannotStartInState (st : string)
| CannotStartWithoutParticipants
| CannotPauseInState (st : string)
| CannotResumeInState (st : string)
| RaceAlreadyEnded (st : string).

Definition status_code (err : ApiError) : Z :=
  match err with
  | RaceNotFound => 404
  | _ => 400
  end.

Inductive ApiResult (A : Type) : Type :=
| ApiOk (a : A)
| ApiRaise (err : ApiError).

Arguments ApiOk {A} a.
Arguments ApiRaise {A} err.

Definition api_ok {A : Type} (res : ApiResult A) : bool :=
  match res with
  | ApiOk _ => true
  | ApiRaise _ => false
  end.

Module Races.

(** [db.races.search(Q.id == race_id)]. *)
Definition search (race_id : Z) (races : list RaceDoc) : list RaceDoc :=
  filter (fun d => rd_id d =? race_id) races.

(** [db.races.update(race, Q.id == race_id)], [race] holding every key. *)
Definition update (race : RaceDoc) (race_id : Z) (races : list RaceDoc)
    : list RaceDoc :=
  map (fun d => if rd_id d =? race_id then race else d) races.

(** [db.races.remove(Q.id == race_id)]. *)
Definition remove (race_id : Z) (races : list RaceDoc) : list RaceDoc :=
  filter (fun d => negb (rd_id d =? race_id)) races.

(** [create_race], at clock [now]. *)
Definition create_race (now : Z) (track : Z) (mode_ : string)
    (target : Z) (time_limit : option Z) (fuel : bool)
    (participants : list Participant) (db : Db) : ApiResult (Db * RaceDoc) :=
  match create_race_checks (db_tracks db) (db_cars db) track participants with
  | Some err => ApiRaise (CreateRaceRefused err)
  | None =>
      let new_race :=
        {| rd_id := generate_id (map (fun d => Some (rd_id d)) (db_races db));
           rd_track_id := track; rd_mode := mode_; rd_state := "created";
           rd_target_laps := target; rd_time_limit_seconds := time_limit;
           rd_fuel_simulation_enabled := fuel;
           rd_started_at := None; rd_finished_at := None;
           rd_created_at := now; rd_participants := participants |} in
      ApiOk (with_db_races (db_races db ++ [new_race]) db, new_race)
  end.

(** [get_race]. *)
Definition get_race (race_id : Z) (db : Db) : ApiResult RaceDoc :=
  match search race_id (db_races db) with
  | [] => ApiRaise RaceNotFound
  | race :: _ => ApiOk race
  end.

(** The common end of the state endpoints: the new state is written to the
    document and the table is updated. *)
Definition store_state (v : string) (race_id : Z) (race : RaceDoc) (db : Db)
    : ApiResult (Db * RaceDoc) :=
  let race := with_rd_state v race in
  ApiOk (with_db_races (update race race_id (db_races db)) db, race).

(** [start_race]. *)
Definition start_race (race_id : Z) (db : Db) : ApiResult (Db * RaceDoc) :=
  match search race_id (db_races db) with
  | [] => ApiRaise RaceNotFound
  | race :: _ =>
      if negb (String.eqb (rd_state race) "created") then
        ApiRaise (CannotStartInState (rd_state race))
      else
        match rd_participants race with
        | [] => ApiRaise CannotStartWithoutParticipants
        | _ :: _ => store_state "countdown" race_id race db
        end
  end.

(** [pause_race]. *)
Definition pause_race (race_id : Z) (db : Db) : ApiResult (Db * RaceDoc) :=
  match search race_id (db_races db) with
  | [] => ApiRaise RaceNotFound
  | race :: _ =>
      if negb (String.eqb (rd_state race) "running") then
        ApiRaise (CannotPauseInState (rd_state race))
      else store_state "paused" race_id race db
  end.

(** [resume_race]. *)
Definition resume_race (race_id : Z) (db : Db) : ApiResult (Db * RaceDoc) :=
  match search race_id (db_races db) with
  | [] => ApiRaise RaceNotFound
  | race :: _ =>
      if negb (String.eqb (rd_state race) "paused") then
        ApiRaise (CannotResumeInState (rd_state race))
      else store_state "running" race_id race db
  end.

(** [stop_race]. *)
Definition stop_race (race_id : Z) (db : Db) : ApiResult (Db * RaceDoc) :=
  match search race_id (db_races db) with
  | [] => ApiRaise RaceNotFound
  | race :: _ =>
      if String.eqb (rd_state race) "finished" ||
         String.eqb (rd_state race) "cancelled" then
        ApiRaise (RaceAlreadyEnded (rd_state race))
      else store_state "cancelled" race_id race db
  end.

(** [delete_race]. *)
Definition delete_race (race_id : Z) (db : Db) : ApiResult Db :=
  match search race_id (db_races db) with
  | [] => ApiRaise RaceNotFound
  | _ :: _ => ApiOk (with_db_races (remove race_id (db_races db)) db)
  end.

End Races.

(** One request to a race endpoint that changes the tables. *)
Inductive ApiOp : Type :=
| ApiCreate (now track : Z) (mode_ : string) (target : Z)
            (time_limit : option Z) (fuel : bool)
            (participants : list Participant)
| ApiStart (race_id : Z)
| ApiPause (race_id : Z)
| ApiResume (race_id : Z)
| ApiStop (race_id : Z)
| ApiDelete (race_id : Z).

(** The tables after a request; a request that raises leaves them alone. *)
Definition db_after {A : Type} (db : Db) (res : ApiResult (Db * A)) : Db :=
  match res with
  | ApiOk (db', _) => db'
  | ApiRaise _ => db
  end.

Definition api_step (op : ApiOp) (db : Db) : Db :=
  match op with
  | ApiCreate now track mode_ target time_limit fuel participants =>
      db_after db
        (Races.create_race now track mode_ target time_limit fuel
           participants db)
  | ApiStart race_id => db_after db (Races.start_race race_id db)
  | ApiPause race_id => db_after db (Races.pause_race race_id db)
  | ApiResume race_id => db_after db (Races.resume_race race_id db)
  | ApiStop race_id => db_after db (Races.stop_race race_id db)
  | ApiDelete race_id =>
      match Races.delete_race race_id db with
      | ApiOk db' => db'
      | ApiRaise _ => db
      end
  end.

Definition api_run (ops : list ApiOp) (db : Db) : Db :=
  fold_left (fun db op => api_step op db) ops db.

(** No race of the table is running, paused or finished. *)
Definition idle_table (db : Db) : Prop :=
  Forall (fun d => rd_state d = "created"%string \/
                   rd_state d = "countdown"%string \/
                   rd_state d = "cancelled"%string)
    (db_races db).

(** The races of the table have ids of their own. *)
Definition distinct_ids (db : Db) : Prop :=
  NoDup (map rd_id (db_races db)).

(** A database with one two-lane track, two cars and no race. *)
Definition demo_db : Db :=
  {| db_tracks := [ {| td_id := 1; td_lanes := Some 2 |} ];
     db_cars := [11; 12];
     db_races := [] |}.

(** ** Facts on dictionaries *)

Section DictFacts.

Context {V : Type}.
Implicit Types (d : Dict.t V) (k : Z) (v : V).

Lemma get_set_same k v d : Dict.get k (Dict.set k v d) = Some v.
Proof.
  induction d as [|[k' v'] d IH]; simpl.
  - now rewrite Z.eqb_refl.
  - destruct (k =? k') eqn:E; simpl; rewrite E; auto.
Qed.

Lemma get_set_other k k' v d :
  k <> k' -> Dict.get k (Dict.set k' v d) = Dict.get k d.
Proof.
  intros Hne. induction d as [|[k0 v0] d IH]; simpl.
  - destruct (k =? k') eqn:E; auto. apply Z.eqb_eq in E. contradiction.
  - destruct (k' =? k0) eqn:E; simpl.
    + apply Z.eqb_eq in E. subst k0.
      destruct (k =? k') eqn:E'; auto.
      apply Z.eqb_eq in E'. contradiction.
    + now rewrite IH.
Qed.

Lemma get_map_values (f : V -> V) k d :
  Dict.get k (Dict.map_values f d) = option_map f (Dict.get k d).
Proof.
  induction d as [|[k' v'] d IH]; simpl; auto.
  destruct (k =? k'); auto.
Qed.

Lemma get_In k v d : Dict.get k d = Some v -> In (k, v) d.
Proof.
  induction d as [|[k' v'] d IH]; simpl; [discriminate|].
  destruct (k =? k') eqn:E.
  - apply Z.eqb_eq in E. intros [= ->]. subst. now left.
  - intros H. right. auto.
Qed.

Lemma get_None_keys k d : Dict.get k d = None -> ~ In k (Dict.keys d).
Proof.
  induction d as [|[k' v'] d IH]; simpl; [tauto|].
  destruct (k =? k') eqn:E; [discriminate|].
  apply Z.eqb_neq in E. intros H [Hk|Hk]; [congruence|]. now apply IH.
Qed.

Lemma keys_set_present k v v0 d :
  Dict.get k d = Some v0 -> Dict.keys (Dict.set k v d) = Dict.keys d.
Proof.
  induction d as [|[k' v'] d IH]; simpl; [discriminate|].
  destruct (k =? k') eqn:E; simpl; auto.
  intros H. f_equal. auto.
Qed.

Lemma keys_set_absent k v d :
  Dict.get k d = None -> Dict.keys (Dict.set k v d) = Dict.keys d ++ [k].
Proof.
  induction d as [|[k' v'] d IH]; simpl; auto.
  destruct (k =? k') eqn:E; [discriminate|].
  intros H. simpl. f_equal. auto.
Qed.

Lemma keys_map_values (f : V -> V) d :
  Dict.keys (Dict.map_values f d) = Dict.keys d.
Proof.
  unfold Dict.keys, Dict.map_values. rewrite map_map. reflexivity.
Qed.

Lemma values_map_values (f : V -> V) d :
  Dict.values (Dict.map_values f d) = map f (Dict.values d).
Proof.
  unfold Dict.values, Dict.map_values. now rewrite !map_map.
Qed.

(** A property of every entry survives an assignment of a good value. *)
Lemma Forall_set (P : Z -> V -> Prop) k v d :
  P k v ->
  Forall (fun kv => P (fst kv) (snd kv)) d ->
  Forall (fun kv => P (fst kv) (snd kv)) (Dict.set k v d).
Proof.
  intros Hv. induction d as [|[k' v'] d IH]; simpl; intros Hd.
  - constructor; auto.
  - inversion Hd as [|? ? Hhd Htl]; subst.
    destruct (k =? k') eqn:E.
    + apply Z.eqb_eq in E. subst. constructor; auto.
    + constructor; auto.
Qed.

Lemma Forall_map_values (P : Z -> V -> Prop) (f : V -> V) d :
  (forall k v, P k v -> P k (f v)) ->
  Forall (fun kv => P (fst kv) (snd kv)) d ->
  Forall (fun kv => P (fst kv) (snd kv)) (Dict.map_values f d).
Proof.
  intros Hf Hd. unfold Dict.map_values. apply Forall_map.
  eapply Forall_impl; [|exact Hd]. intros [k v]; simpl. apply Hf.
Qed.

Lemma Forall_get (P : Z -> V -> Prop) k v d :
  Forall (fun kv => P (fst kv) (snd kv)) d ->
  Dict.get k d = Some v -> P k v.
Proof.
  intros Hd Hg. apply get_In in Hg.
  rewrite Forall_forall in Hd. exact (Hd _ Hg).
Qed.

End DictFacts.

(** ** Facts on the numeric helpers *)

Lemma Qltb_lt (a b : Q) : Py.Qltb a b = true <-> (a < b)%Q.
Proof.
  unfold Py.Qltb. rewrite negb_true_iff. split.
  - intros H. apply Qnot_le_lt. intros Hle.
    apply Qle_bool_iff in Hle. congruence.
  - intros H. destruct (Qle_bool b a) eqn:E; auto.
    apply Qle_bool_iff in E. exfalso. exact (Qlt_not_le _ _ H E).
Qed.

Lemma Qltb_ge (a b : Q) : Py.Qltb a b = false <-> (b <= a)%Q.
Proof.
  unfold Py.Qltb. rewrite negb_false_iff. apply Qle_bool_iff.
Qed.

(** [max(0, min(100, p))] lies between 0 and 100 for every [p]. *)
Lemma clamp_range (p : Q) :
  (0 <= Py.max2 0 (Py.min2 100 p) <= 100)%Q.
Proof.
  unfold Py.max2, Py.min2.
  destruct (Py.Qltb p 100) eqn:E1.
  - apply Qltb_lt in E1.
    destruct (Py.Qltb 0 p) eqn:E2.
    + apply Qltb_lt in E2. split; apply Qlt_le_weak; assumption.
    + split; [apply Qle_refl | discriminate].
  - destruct (Py.Qltb 0 100) eqn:E2.
    + split; [discriminate | apply Qle_refl].
    + split; [apply Qle_refl | discriminate].
Qed.

Lemma max2_nonneg (x : Q) : (0 <= Py.max2 0 x)%Q.
Proof.
  unfold Py.max2. destruct (Py.Qltb 0 x) eqn:E.
  - apply Qltb_lt in E. now apply Qlt_le_weak.
  - apply Qle_refl.
Qed.

(** [x % 1.0] lies in [[0, 1)] for every [x]. *)
Lemma fmod1_range (x : Q) : (0 <= Py.fmod1 x < 1)%Q.
Proof.
  unfold Py.fmod1.
  set (f := inject_Z (Qfloor x)).
  split.
  - apply (Qplus_le_l _ _ f).
    setoid_replace (x - f + f)%Q with x by ring.
    setoid_replace (0 + f)%Q with f by ring.
    apply Qfloor_le.
  - apply (Qplus_lt_l _ _ f).
    setoid_replace (x - f + f)%Q with x by ring.
    setoid_replace (1 + f)%Q with (f + 1)%Q by ring.
    assert (H := Qlt_floor x).
    rewrite inject_Z_plus in H. exact H.
Qed.

Lemma len_app {A : Type} (xs : list A) (x : A) :
  Py.len (xs ++ [x]) = Py.len xs + 1.
Proof. unfold Py.len. rewrite length_app. simpl. lia. Qed.

Lemma sum_app (xs : list Z) (t : Z) : Py.sum (xs ++ [t]) = Py.sum xs + t.
Proof. unfold Py.sum. induction xs as [|x xs IH]; simpl; lia. Qed.

Lemma min_list_app (xs : list Z) (t : Z) :
  Py.min_list (xs ++ [t]) =
  match Py.min_list xs with
  | None => Some t
  | Some m => Some (Z.min m t)
  end.
Proof.
  induction xs as [|x xs IH]; simpl; auto.
  rewrite IH. destruct (Py.min_list xs) as [m|]; auto.
  now rewrite Z.min_assoc.
Qed.

Lemma min_list_None (xs : list Z) : Py.min_list xs = None -> xs = [].
Proof.
  destruct xs as [|x xs]; simpl; auto.
  destruct (Py.min_list xs); discriminate.
Qed.

Lemma state_eqb_eq (a b : RaceEngineState) : state_eqb a b = true <-> a = b.
Proof. destruct a, b; simpl; split; congruence. Qed.

(** ** Preservation of the invariants *)

(** *** Lane-level preservation *)

Lemma lane_ok_new (m : string) (target : Z) (limited : bool) (k c : Z) :
  lane_ok m target limited k (new_lane k c).
Proof.
  constructor; simpl; auto; try (intros; discriminate); try lia;
    split; try discriminate; reflexivity.
Qed.

Lemma lane_ok_with_power (m : string) (target : Z) (limited : bool)
    (k : Z) (v : Q) (l : LaneState) :
  (0 <= v <= 100)%Q -> lane_ok m target limited k l ->
  lane_ok m target limited k (with_power_level v l).
Proof. intros Hv [? ? ? ? ? ? ? ? ? ?]. constructor; simpl; auto. Qed.

Lemma lane_ok_with_last_lap_timestamp (m : string) (target : Z) (limited : bool)
    (k : Z) (v : Q) (l : LaneState) :
  lane_ok m target limited k l ->
  lane_ok m target limited k (with_last_lap_timestamp v l).
Proof. intros [? ? ? ? ? ? ? ? ? ?]. constructor; simpl; auto. Qed.

Lemma lane_ok_with_fuel_level (m : string) (target : Z) (limited : bool)
    (k : Z) (v : Q) (l : LaneState) :
  lane_ok m target limited k l ->
  lane_ok m target limited k (with_fuel_level v l).
Proof. intros [? ? ? ? ? ? ? ? ? ?]. constructor; simpl; auto. Qed.

Lemma lane_ok_with_estimated_position (m : string) (target : Z) (limited : bool)
    (k : Z) (v : Q) (l : LaneState) :
  (0 <= v < 1)%Q -> lane_ok m target limited k l ->
  lane_ok m target limited k (with_estimated_position v l).
Proof. intros Hv [? ? ? ? ? ? ? ? ? ?]. constructor; simpl; auto. Qed.

Lemma lane_ok_mark_finished (m : string) (target : Z) (k pos : Z)
    (l : LaneState) :
  lane_ok m target true k l -> lane_ok m target true k (mark_finished pos l).
Proof.
  intros [? ? ? ? ? ? ? ? ? ?]. constructor; simpl; auto; intros; discriminate.
Qed.

Lemma lane_ok_update_position_estimate (m : string) (target : Z)
    (limited : bool) (k : Z) (now : Q) (l : LaneState) :
  lane_ok m target limited k l ->
  lane_ok m target limited k (update_position_estimate now l).
Proof.
  intros H. unfold update_position_estimate.
  destruct (Qeq_bool (last_lap_timestamp l) 0); auto.
  destruct (Py.Qltb 0 (power_level l)); auto.
  apply lane_ok_with_estimated_position; auto. apply fmod1_range.
Qed.

Lemma lane_ok_tick_lane (m : string) (target : Z) (limited : bool)
    (k : Z) (fuel : bool) (now : Q) (l : LaneState) :
  lane_ok m target limited k l ->
  lane_ok m target limited k (tick_lane fuel now l).
Proof.
  intros H. unfold tick_lane. destruct (finished l); auto.
  destruct fuel.
  - apply lane_ok_with_fuel_level.
    now apply lane_ok_update_position_estimate.
  - now apply lane_ok_update_position_estimate.
Qed.

Lemma counted_lane_fields (t : Z) (now : Q) (l : LaneState) :
  let l1 := counted_lane t now l in
  current_lap l1 = current_lap l + 1 /\
  lap_times_ms l1 = lap_times_ms l ++ [t] /\
  total_time_ms l1 = total_time_ms l + t /\
  best_lap_time_ms l1 =
    (if is_best_lap t l then Some t else best_lap_time_ms l) /\
  estimated_position l1 = 0%Q /\
  last_lap_timestamp l1 = now /\
  finished l1 = finished l /\
  finish_position l1 = finish_position l /\
  lane_number l1 = lane_number l /\
  car_id l1 = car_id l /\
  power_level l1 = power_level l.
Proof.
  unfold counted_lane, is_best_lap.
  destruct (best_lap_time_ms l) as [best|] eqn:Eb;
    [destruct (t <? best)|]; simpl; repeat split; auto.
Qed.

Lemma best_after_lap (t : Z) (l : LaneState) :
  best_lap_time_ms l = Py.min_list (lap_times_ms l) ->
  (if is_best_lap t l then Some t else best_lap_time_ms l) =
  Py.min_list (lap_times_ms l ++ [t]).
Proof.
  intros Hb. rewrite min_list_app, <- Hb. unfold is_best_lap.
  destruct (best_lap_time_ms l) as [best|]; auto.
  destruct (t <? best) eqn:Elt; f_equal.
  - apply Z.ltb_lt in Elt. lia.
  - apply Z.ltb_ge in Elt. lia.
Qed.

Lemma lane_ok_counted_lane (m : string) (target : Z) (limited : bool)
    (k t : Z) (now : Q) (l : LaneState) :
  lane_ok m target limited k l ->
  (String.eqb m "race_laps" = true -> current_lap l + 1 < target) ->
  lane_ok m target limited k (counted_lane t now l).
Proof.
  intros [Hk Hl Ht Hb Hp He Hf Hg Hu Hr] Hnew.
  assert (Hpos : (0 <= 0 < 1)%Q) by (split; [apply Qle_refl | reflexivity]).
  assert (Hbest := best_after_lap t l Hb).
  destruct (counted_lane_fields t now l)
    as (F1 & F2 & F3 & F4 & F5 & _ & F7 & F8 & F9 & _ & F11).
  constructor;
    rewrite ?F1, ?F2, ?F3, ?F4, ?F5, ?F7, ?F8, ?F9, ?F11; auto.
  - rewrite len_app. lia.
  - rewrite sum_app. lia.
  - intros Hm. specialize (Hnew Hm). lia.
  - intros Hm Hx Hfin. specialize (Hnew Hm). specialize (Hr Hm Hx Hfin). lia.
Qed.

(** A lane that [record_lap] counts a lap for and marks finished. *)
Lemma lane_ok_finisher (m : string) (target : Z) (limited : bool)
    (k t pos : Z) (now : Q) (l : LaneState) :
  lane_ok m target limited k l ->
  finished l = false ->
  (String.eqb m "race_laps" = true -> target <= current_lap l + 1) ->
  lane_ok m target limited k (mark_finished pos (counted_lane t now l)).
Proof.
  intros [Hk Hl Ht Hb Hp He Hf Hg Hu Hr] Hunf Hnew.
  assert (Hpos : (0 <= 0 < 1)%Q) by (split; [apply Qle_refl | reflexivity]).
  assert (Hbest := best_after_lap t l Hb).
  destruct (counted_lane_fields t now l)
    as (F1 & F2 & F3 & F4 & F5 & _ & F7 & F8 & F9 & _ & F11).
  constructor; simpl;
    rewrite ?F1, ?F2, ?F3, ?F4, ?F5, ?F7, ?F8, ?F9, ?F11; auto.
  - rewrite len_app. lia.
  - rewrite sum_app. lia.
  - discriminate.
  - intros; discriminate.
  - intros Hm. specialize (Hg Hm Hunf). lia.
Qed.

(** *** Counting finished lanes *)

Lemma count_finished_cons (k : Z) (l : LaneState) (d : Dict.t LaneState) :
  count_finished ((k, l) :: d) =
  ((if finished l then 1 else 0) + count_finished d)%nat.
Proof. unfold count_finished. simpl. destruct (finished l); reflexivity. Qed.

Lemma count_finished_set (k : Z) (l l' : LaneState) (d : Dict.t LaneState) :
  Dict.get k d = Some l ->
  (count_finished (Dict.set k l' d) + (if finished l then 1 else 0) =
   count_finished d + (if finished l' then 1 else 0))%nat.
Proof.
  induction d as [|[k0 l0] d IH]; simpl; [discriminate|].
  destruct (k =? k0) eqn:E.
  - intros [= ->]. rewrite !count_finished_cons. lia.
  - intros H. rewrite !count_finished_cons. specialize (IH H). lia.
Qed.

Lemma count_finished_map_values (f : LaneState -> LaneState)
    (d : Dict.t LaneState) :
  (forall l, finished (f l) = finished l) ->
  count_finished (Dict.map_values f d) = count_finished d.
Proof.
  intros Hf. induction d as [|[k l] d IH]; auto.
  change (Dict.map_values f ((k, l) :: d))
    with ((k, f l) :: Dict.map_values f d).
  rewrite !count_finished_cons, IH, Hf. reflexivity.
Qed.

Lemma count_finished_le (d : Dict.t LaneState) :
  (count_finished d <= List.length d)%nat.
Proof.
  induction d as [|[k l] d IH]; auto.
  rewrite count_finished_cons. simpl. destruct (finished l); lia.
Qed.

Lemma finish_remaining_count (d : Dict.t LaneState) (order : list Z) :
  let (d', order') := finish_remaining d order in
  (List.length order' + count_finished d =
   List.length order + count_finished d')%nat.
Proof.
  revert order. induction d as [|[k l] d IH]; intros order; simpl; auto.
  destruct (finished l) eqn:Ef.
  - specialize (IH order).
    destruct (finish_remaining d order) as [d' order'].
    rewrite !count_finished_cons, Ef. lia.
  - specialize (IH (order ++ [lane_number l])).
    destruct (finish_remaining d (order ++ [lane_number l])) as [d' order'].
    rewrite !count_finished_cons, Ef. simpl.
    rewrite length_app in IH. simpl in IH. lia.
Qed.

Lemma finish_remaining_lanes_ok (m : string) (target : Z)
    (d : Dict.t LaneState) (order : list Z) :
  lanes_ok m target true d ->
  lanes_ok m target true (fst (finish_remaining d order)).
Proof.
  revert order. induction d as [|[k l] d IH]; intros order Hd; simpl; auto.
  inversion Hd as [|? ? Hhd Htl]; subst. simpl in Hhd.
  destruct (finished l).
  - specialize (IH order Htl).
    destruct (finish_remaining d order) as [d' order'].
    constructor; auto.
  - specialize (IH (order ++ [lane_number l]) Htl).
    destruct (finish_remaining d (order ++ [lane_number l])) as [d' order'].
    constructor; auto. simpl. now apply lane_ok_mark_finished.
Qed.

(** With every lane finished the loop of [_finish_race] changes nothing. *)
Lemma finish_remaining_all_finished (d : Dict.t LaneState) (order : list Z) :
  forallb finished (Dict.values d) = true ->
  finish_remaining d order = (d, order).
Proof.
  induction d as [|[k l] d IH]; simpl; auto.
  intros H. apply andb_true_iff in H. destruct H as [Hl Hd].
  rewrite Hl, (IH Hd). reflexivity.
Qed.

(** Every lane is finished after the loop of [_finish_race]. *)
Lemma finish_remaining_finished (d : Dict.t LaneState) (order : list Z) :
  forallb finished (Dict.values (fst (finish_remaining d order))) = true.
Proof.
  revert order. induction d as [|[k l] d IH]; intros order; simpl; auto.
  destruct (finished l) eqn:Ef.
  - specialize (IH order).
    destruct (finish_remaining d order) as [d' order']. simpl in *.
    now rewrite Ef, IH.
  - specialize (IH (order ++ [lane_number l])).
    destruct (finish_remaining d (order ++ [lane_number l])) as [d' order'].
    simpl in *. exact IH.
Qed.

(** A lane entry after the loop of [_finish_race]: the entry before it,
    marked finished if it was not. *)
Lemma finish_remaining_get (k : Z) (l' : LaneState) (d : Dict.t LaneState)
    (order : list Z) :
  Dict.get k (fst (finish_remaining d order)) = Some l' ->
  exists l, Dict.get k d = Some l /\
    ((finished l = true /\ l' = l) \/
     (finished l = false /\ exists pos, l' = mark_finished pos l)).
Proof.
  revert order. induction d as [|[k0 l0] d IH]; intros order; simpl.
  - discriminate.
  - destruct (finished l0) eqn:Ef.
    + specialize (IH order).
      destruct (finish_remaining d order) as [d' order']. simpl in *.
      destruct (k =? k0).
      * intros [= <-]. exists l0. split; auto.
      * apply IH.
    + specialize (IH (order ++ [lane_number l0])).
      destruct (finish_remaining d (order ++ [lane_number l0])) as [d' order'].
      simpl in *. destruct (k =? k0).
      * intros [= <-]. exists l0. split; auto. right. split; eauto.
      * apply IH.
Qed.

(** ** What [record_lap] does, case by case *)

Lemma record_lap_debounced (lane : Z) (now : Q) (e : Engine)
    (r : RaceState) (l : LaneState) :
  accepts_lap lane e r l -> debounced now l = true ->
  record_lap lane now e =
  (with_current_race
     (with_lanes (Dict.set lane (with_last_lap_timestamp now l) (lanes r)) r)
     e, []).
Proof.
  intros (Hr & Hs & Hg & Hf) Hd. unfold record_lap, debounced in *.
  rewrite Hr, Hs, Hg, Hf. simpl. unfold lap_ms in *. simpl.
  now rewrite Hd.
Qed.

Lemma record_lap_counted (lane : Z) (now : Q) (e : Engine)
    (r : RaceState) (l : LaneState) :
  accepts_lap lane e r l -> debounced now l = false ->
  let t := lap_ms now l in
  let l1 := counted_lane t now l in
  record_lap lane now e =
  if reaches_target r (current_lap l + 1) then
    let r2 := race_with_finisher lane l1 r in
    if forallb finished (Dict.values (lanes r2)) then
      (fst (finish_race (with_current_race r2 e)),
       lap_event r lane l t :: snd (finish_race (with_current_race r2 e)))
    else (with_current_race r2 e, [lap_event r lane l t])
  else
    (with_current_race (with_lanes (Dict.set lane l1 (lanes r)) r) e,
     [lap_event r lane l t]).
Proof.
  intros (Hr & Hs & Hg & Hf) Hd. unfold record_lap, debounced in *.
  rewrite Hr, Hs, Hg, Hf. simpl. unfold lap_ms in *. simpl.
  rewrite Hd.
  unfold reaches_target, race_with_finisher, lap_event, is_best_lap,
    counted_lane.
  destruct (best_lap_time_ms l) as [best|];
    [destruct (_ <? best)|]; simpl;
    destruct (String.eqb (mode r) "race_laps" &&
              (target_laps r <=? current_lap l + 1)); simpl; auto;
    match goal with
    | |- context [forallb finished ?d] => destruct (forallb finished d)
    end; auto;
    match goal with
    | |- context [finish_race ?x] => destruct (finish_race x)
    end; reflexivity.
Qed.

(** When every lane is finished, [_finish_race] sets FINISHED, cancels the
    tick task and broadcasts the results; the lanes stay as they are. *)
Lemma finish_race_all_finished (e : Engine) (r : RaceState) :
  current_race e = Some r ->
  forallb finished (Dict.values (lanes r)) = true ->
  finish_race e =
  (with_current_race (with_state FINISHED r) (cancel_tick_task e),
   [ {| to_race := race_id r; msg_type := "race:finished";
        payload := PFinished (race_id r) (finish_order r)
                     (map lane_result (lanes r)) |} ]).
Proof.
  intros Hr Hall. unfold finish_race.
  assert (Hc : current_race (cancel_tick_task e) = Some r).
  { unfold cancel_tick_task. destruct (tick_task e); auto. }
  rewrite Hc. simpl.
  rewrite (finish_remaining_all_finished _ _ Hall).
  destruct r; reflexivity.
Qed.

(** ** The invariants hold in every reachable engine *)

Lemma race_ok_same_lanes (r r' : RaceState) :
  mode r' = mode r -> target_laps r' = target_laps r ->
  time_limit_seconds r' = time_limit_seconds r ->
  lanes r' = lanes r -> finish_order r' = finish_order r ->
  race_ok r -> race_ok r'.
Proof.
  intros Hm Ht Hlim Hl Ho [H1 H2].
  constructor; unfold has_time_limit; rewrite ?Hm, ?Ht, ?Hlim, ?Hl, ?Ho; auto.
Qed.

Lemma current_race_cancel (e : Engine) :
  current_race (cancel_tick_task e) = current_race e.
Proof. unfold cancel_tick_task. destruct (tick_task e); reflexivity. Qed.

Lemma build_lanes_fresh_from (ps : list Participant)
    (acc : Dict.t LaneState) :
  Forall (fun kv => exists c, snd kv = new_lane (fst kv) c) acc ->
  Forall (fun kv => exists c, snd kv = new_lane (fst kv) c)
    (fold_left
       (fun lanes p =>
          Dict.set (p_lane p) (new_lane (p_lane p) (p_car_id p)) lanes)
       ps acc).
Proof.
  revert acc. induction ps as [|p ps IH]; intros acc Hacc; simpl; auto.
  apply IH.
  apply (Forall_set (fun k v => exists c, v = new_lane k c)); eauto.
Qed.

(** Every lane entry made by [setup_race] is a fresh lane state under its
    own lane number. *)
Lemma build_lanes_fresh (ps : list Participant) :
  Forall (fun kv => exists c, snd kv = new_lane (fst kv) c) (build_lanes ps).
Proof. apply build_lanes_fresh_from. constructor. Qed.

Lemma race_ok_setup (race track : Z) (ps : list Participant) (m : string)
    (target : Z) (limit : option Z) (fuel : bool) :
  race_ok
    {| race_id := race; track_id := track; mode := m; target_laps := target;
       time_limit_seconds := limit; fuel_simulation_enabled := fuel;
       lanes := build_lanes ps; state := IDLE; start_time := None;
       elapsed_time_ms := 0; countdown_remaining := 5; finish_order := [] |}.
Proof.
  assert (H := build_lanes_fresh ps).
  constructor; simpl.
  - eapply Forall_impl; [|exact H].
    intros [k l] [c Hc]; simpl in *. subst l. apply lane_ok_new.
  - induction H as [|[k l] d [c Hc] Hd IH]; auto.
    rewrite count_finished_cons, <- IH. simpl in Hc. now subst l.
Qed.

Lemma time_limit_reached_limited (r : RaceState) :
  time_limit_reached r = true -> has_time_limit r = true.
Proof.
  unfold time_limit_reached, has_time_limit.
  destruct (time_limit_seconds r) as [limit|]; [|discriminate].
  intros H. now apply andb_true_iff in H.
Qed.

(** [_finish_race] keeps the invariants when it is called on a time limit
    or, as [record_lap] does, with every lane finished. *)
Lemma engine_ok_finish_race (e : Engine) :
  engine_ok e ->
  (forall r, current_race e = Some r ->
     has_time_limit r = true \/
     forallb finished (Dict.values (lanes r)) = true) ->
  engine_ok (fst (finish_race e)).
Proof.
  unfold engine_ok, finish_race. rewrite current_race_cancel.
  destruct (current_race e) as [r|] eqn:Hr; simpl.
  - intros [Hl Ho] Hwhy.
    destruct (Hwhy r eq_refl) as [Hlim|Hall].
    + rewrite Hlim in Hl.
      assert (Hc := finish_remaining_count (lanes r) (finish_order r)).
      assert (Hk := finish_remaining_lanes_ok _ _ (lanes r) (finish_order r)
                      Hl).
      destruct (finish_remaining (lanes r) (finish_order r)) as [d' o'].
      simpl in *. constructor; simpl; auto.
      * change (has_time_limit _) with (has_time_limit r). now rewrite Hlim.
      * lia.
    + rewrite (finish_remaining_all_finished _ _ Hall).
      constructor; simpl; auto.
  - rewrite current_race_cancel, Hr. auto.
Qed.

Lemma finished_tick_lane (fuel : bool) (now : Q) (l : LaneState) :
  finished (tick_lane fuel now l) = finished l.
Proof.
  unfold tick_lane, update_position_estimate.
  destruct (finished l) eqn:Ef; auto.
  destruct (Qeq_bool (last_lap_timestamp l) 0);
    destruct (Py.Qltb 0 (power_level l)); destruct fuel; simpl; auto.
Qed.

(** The session after the first half of [_tick]: elapsed time and lanes. *)
Lemma race_ok_ticked (now : Q) (ms : Z) (r : RaceState) :
  race_ok r ->
  race_ok
    (with_lanes
       (Dict.map_values (tick_lane (fuel_simulation_enabled r) now) (lanes r))
       (with_elapsed_time_ms ms r)).
Proof.
  intros [Hl Ho]. constructor; simpl.
  - apply (Forall_map_values
             (lane_inv r)); auto.
    intros. now apply lane_ok_tick_lane.
  - rewrite count_finished_map_values; auto.
    intros l. apply finished_tick_lane.
Qed.

Lemma engine_ok_tick (now : Q) (e : Engine) :
  engine_ok e -> engine_ok (fst (tick now e)).
Proof.
  intros He. unfold tick.
  destruct (current_race e) as [r|] eqn:Hr; auto.
  destruct (start_time r) as [started|]; auto.
  destruct (negb (Py.truthy started)); auto.
  unfold engine_ok in He. rewrite Hr in He.
  assert (Hmid := race_ok_ticked now (Py.int ((now - started) * 1000)%Q) r He).
  match goal with
  | |- context [time_limit_reached ?x] =>
      destruct (time_limit_reached x) eqn:Hlim
  end.
  - apply engine_ok_finish_race; [exact Hmid|].
    intros r0 [= <-]. left. now apply time_limit_reached_limited.
  - destruct (_ =? 0); exact Hmid.
Qed.

Lemma engine_ok_record_lap (lane : Z) (now : Q) (e : Engine) :
  engine_ok e -> engine_ok (fst (record_lap lane now e)).
Proof.
  intros He.
  destruct (current_race e) as [r|] eqn:Hr;
    [|unfold record_lap; now rewrite Hr].
  destruct (state_eqb (state r) RUNNING) eqn:Hs;
    [|unfold record_lap; now rewrite Hr, Hs].
  destruct (Dict.get lane (lanes r)) as [l|] eqn:Hg;
    [|unfold record_lap; now rewrite Hr, Hs, Hg].
  destruct (finished l) eqn:Hf;
    [unfold record_lap; now rewrite Hr, Hs, Hg, Hf|].
  apply state_eqb_eq in Hs.
  assert (Hacc : accepts_lap lane e r l) by (repeat split; auto).
  assert (Hok : race_ok r) by (unfold engine_ok in He; now rewrite Hr in He).
  destruct Hok as [Hl Ho].
  set (P := lane_inv r) in *.
  assert (Hlane : P lane l) by (eapply (Forall_get P); eauto).
  destruct (debounced now l) eqn:Hd.
  - rewrite (record_lap_debounced _ _ _ _ _ Hacc Hd).
    unfold engine_ok; simpl. constructor; simpl.
    + apply (Forall_set P); auto.
      now apply lane_ok_with_last_lap_timestamp.
    + assert (Hc := count_finished_set lane l
                      (with_last_lap_timestamp now l) _ Hg).
      simpl in Hc. rewrite Hf in Hc. lia.
  - rewrite (record_lap_counted _ _ _ _ _ Hacc Hd). cbv zeta.
    destruct (counted_lane_fields (lap_ms now l) now l)
      as (_ & _ & _ & _ & _ & _ & Hfc & _).
    rewrite Hf in Hfc.
    destruct (reaches_target r (current_lap l + 1)) eqn:Hreach.
    + assert (Hok2 : race_ok
                (race_with_finisher lane
                   (counted_lane (lap_ms now l) now l) r)).
      { constructor; simpl.
        - apply (Forall_set P); auto.
          apply lane_ok_finisher; auto.
          intros _. unfold reaches_target in Hreach.
          apply andb_true_iff in Hreach. destruct Hreach as [_ Hle].
          now apply Z.leb_le in Hle.
        - assert (Hc := count_finished_set lane l
                   (mark_finished (Py.len (finish_order r) + 1)
                      (counted_lane (lap_ms now l) now l)) _ Hg).
          simpl in Hc. rewrite Hf in Hc. rewrite length_app. simpl. lia. }
      destruct (forallb finished _) eqn:Hall.
      * simpl. apply engine_ok_finish_race; [exact Hok2|].
        intros r0 [= <-]. right. exact Hall.
      * exact Hok2.
    + unfold engine_ok; simpl. constructor; simpl.
      * apply (Forall_set P); auto.
        apply lane_ok_counted_lane; auto.
        intros Hm. unfold reaches_target in Hreach. rewrite Hm in Hreach.
        simpl in Hreach. apply Z.leb_gt in Hreach. lia.
      * assert (Hc := count_finished_set lane l
                        (counted_lane (lap_ms now l) now l) _ Hg).
        rewrite Hf, Hfc in Hc. lia.
Qed.

Lemma engine_ok_set_power (lane : Z) (power : Q) (e : Engine) :
  engine_ok e -> engine_ok (fst (set_power lane power e)).
Proof.
  intros He. unfold set_power.
  destruct (current_race e) as [r|] eqn:Hr; auto.
  destruct (Dict.get lane (lanes r)) as [l|] eqn:Hg; auto.
  unfold engine_ok in *. rewrite Hr in He. destruct He as [Hl Ho].
  simpl. constructor; simpl.
  - apply (Forall_set (lane_inv r)); auto.
    apply lane_ok_with_power; [apply clamp_range|].
    eapply (Forall_get (lane_inv r)); eauto.
  - assert (Hc := count_finished_set lane l
       (with_power_level (Py.max2 0 (Py.min2 100 power)) l) _ Hg).
    simpl in Hc. destruct (finished l); lia.
Qed.

Lemma engine_ok_step (op : Op) (e : Engine) :
  engine_ok e -> engine_ok (fst (step op e)).
Proof.
  intros He. destruct op; simpl.
  - unfold setup_race. destruct (is_running e); simpl; auto.
    apply race_ok_setup.
  - unfold countdown_begin.
    destruct (current_race e) as [r|] eqn:Hr; simpl; auto.
    unfold engine_ok in *. rewrite Hr in He. simpl.
    eapply race_ok_same_lanes; [| | | | |exact He]; reflexivity.
  - unfold countdown_step.
    destruct (current_race e) as [r|] eqn:Hr; simpl; auto.
    unfold engine_ok in *. rewrite Hr in He. simpl.
    eapply race_ok_same_lanes; [| | | | |exact He]; reflexivity.
  - unfold start_race.
    destruct (current_race e) as [r|] eqn:Hr; simpl; auto.
    unfold engine_ok in *. rewrite Hr in He. destruct He as [Hl Ho].
    simpl. constructor; simpl.
    + apply (Forall_map_values (lane_inv r)); auto.
      intros. now apply lane_ok_with_last_lap_timestamp.
    + rewrite count_finished_map_values; auto.
  - unfold race_tick_loop_round.
    destruct (tick_task e) as [[|]|]; auto.
    destruct (is_running e); auto. now apply engine_ok_tick.
  - now apply engine_ok_record_lap.
  - now apply engine_ok_set_power.
  - unfold pause.
    destruct (current_race e) as [r|] eqn:Hr; simpl; auto.
    destruct (state_eqb (state r) RUNNING); simpl; auto.
    unfold engine_ok in *. rewrite current_race_cancel. simpl.
    rewrite Hr in He.
    eapply race_ok_same_lanes; [| | | | |exact He]; reflexivity.
  - unfold resume.
    destruct (current_race e) as [r|] eqn:Hr; simpl; auto.
    destruct (state_eqb (state r) PAUSED); simpl; auto.
    unfold engine_ok in *. simpl. rewrite Hr in He.
    eapply race_ok_same_lanes; [| | | | |exact He]; reflexivity.
  - unfold stop. rewrite current_race_cancel.
    destruct (current_race e) as [r|] eqn:Hr; simpl.
    + unfold engine_ok in *. simpl. rewrite Hr in He.
      eapply race_ok_same_lanes; [| | | | |exact He]; reflexivity.
    + unfold engine_ok. now rewrite current_race_cancel, Hr.
Qed.

(** Every engine reached from [init] by calls of the methods satisfies the
    session invariants. *)
Lemma reachable_ok (e : Engine) : reachable e -> engine_ok e.
Proof.
  induction 1 as [|op e Hreach IH].
  - exact I.
  - now apply engine_ok_step.
Qed.

(** A counted crossing, in closed form. *)
Lemma record_lap_counted_closed (lane : Z) (now : Q) (e : Engine)
    (r : RaceState) (l : LaneState) :
  accepts_lap lane e r l -> debounced now l = false ->
  let t := lap_ms now l in
  let l1 := counted_lane t now l in
  record_lap lane now e =
  if reaches_target r (current_lap l + 1) then
    let r2 := race_with_finisher lane l1 r in
    if forallb finished (Dict.values (lanes r2)) then
      (with_current_race (with_state FINISHED r2)
         (cancel_tick_task (with_current_race r2 e)),
       [lap_event r lane l t; finished_event r2])
    else (with_current_race r2 e, [lap_event r lane l t])
  else
    (with_current_race (with_lanes (Dict.set lane l1 (lanes r)) r) e,
     [lap_event r lane l t]).
Proof.
  intros Hacc Hd. cbv zeta.
  rewrite (record_lap_counted _ _ _ _ _ Hacc Hd). cbv zeta.
  destruct (reaches_target r (current_lap l + 1)); auto.
  destruct (forallb finished _) eqn:Hall; auto.
  erewrite finish_race_all_finished; [reflexivity|reflexivity|exact Hall].
Qed.

(** The lane state of the crossing lane after a counted crossing. *)
Lemma record_lap_counted_lane (lane : Z) (now : Q) (e : Engine)
    (r : RaceState) (l : LaneState) :
  accepts_lap lane e r l -> debounced now l = false ->
  lane_of lane (fst (record_lap lane now e)) =
  Some (if reaches_target r (current_lap l + 1)
        then mark_finished (Py.len (finish_order r) + 1)
               (counted_lane (lap_ms now l) now l)
        else counted_lane (lap_ms now l) now l).
Proof.
  intros Hacc Hd.
  rewrite (record_lap_counted_closed _ _ _ _ _ Hacc Hd). cbv zeta.
  destruct (reaches_target r (current_lap l + 1)).
  - destruct (forallb finished _); unfold lane_of; simpl;
      apply get_set_same.
  - unfold lane_of; simpl. apply get_set_same.
Qed.

(** [record_lap] never touches another lane. *)
Lemma record_lap_other_lane (lane k : Z) (now : Q) (e : Engine) :
  k <> lane ->
  lane_of k (fst (record_lap lane now e)) = lane_of k e.
Proof.
  intros Hk.
  destruct (current_race e) as [r|] eqn:Hr;
    [|unfold record_lap; now rewrite Hr].
  destruct (state_eqb (state r) RUNNING) eqn:Hs;
    [|unfold record_lap; now rewrite Hr, Hs].
  destruct (Dict.get lane (lanes r)) as [l|] eqn:Hg;
    [|unfold record_lap; now rewrite Hr, Hs, Hg].
  destruct (finished l) eqn:Hf;
    [unfold record_lap; now rewrite Hr, Hs, Hg, Hf|].
  apply state_eqb_eq in Hs.
  assert (Hacc : accepts_lap lane e r l) by (repeat split; auto).
  destruct (debounced now l) eqn:Hd.
  - rewrite (record_lap_debounced _ _ _ _ _ Hacc Hd).
    unfold lane_of; simpl. rewrite Hr. now apply get_set_other.
  - rewrite (record_lap_counted_closed _ _ _ _ _ Hacc Hd). cbv zeta.
    destruct (reaches_target r (current_lap l + 1)).
    + destruct (forallb finished _); unfold lane_of; simpl; rewrite Hr;
        now apply get_set_other.
    + unfold lane_of; simpl. rewrite Hr. now apply get_set_other.
Qed.

Lemma reachable_run (ops : list Op) (e : Engine) :
  reachable e -> reachable (fst (run ops e)).
Proof.
  revert e. induction ops as [|op ops IH]; intros e He; simpl; auto.
  assert (H1 := reach_step op e He).
  destruct (step op e) as [e1 out1]. simpl in H1.
  specialize (IH e1 H1).
  destruct (run ops e1) as [e2 out2]. exact IH.
Qed.

(** * The debounce rule of [record_lap] (C1) *)

Lemma demo_started_run :
  fst (run [ OpSetup 1 1 demo_participants "race_laps" 3 None false;
             OpStartRace 10 ] init) = demo_started.
Proof. reflexivity. Qed.

Lemma demo_started_reachable : reachable demo_started.
Proof. rewrite <- demo_started_run. apply reachable_run, reach_init. Qed.

Lemma demo_accepts_lane1 :
  accepts_lap 1 demo_started demo_race (demo_lane 1 11).
Proof. repeat split; reflexivity. Qed.

(** C1, amended: a crossing of a known, unfinished lane of a RUNNING session
    that has no lap yet and comes less than 1000 ms after the lane's last
    timestamp is discarded: no message is broadcast, [current_lap],
    [lap_times_ms], [total_time_ms] and [best_lap_time_ms] stay as they are,
    every other lane and every session field but [lanes] is untouched; the
    lane's [last_lap_timestamp], however, is set to the time of the
    crossing. *)
Theorem debounced_crossing_only_restamps (lane : Z) (now : Q) (e : Engine)
    (r : RaceState) (l : LaneState) :
  accepts_lap lane e r l ->
  current_lap l = 0 ->
  lap_ms now l < 1000 ->
  let e' := fst (record_lap lane now e) in
  snd (record_lap lane now e) = [] /\
  filter is_lap_event (snd (record_lap lane now e)) = [] /\
  e' = with_current_race
         (with_lanes (Dict.set lane (with_last_lap_timestamp now l) (lanes r))
            r) e /\
  (exists l',
     lane_of lane e' = Some l' /\
     current_lap l' = current_lap l /\
     lap_times_ms l' = lap_times_ms l /\
     total_time_ms l' = total_time_ms l /\
     best_lap_time_ms l' = best_lap_time_ms l /\
     estimated_position l' = estimated_position l /\
     finished l' = false /\
     last_lap_timestamp l' = now) /\
  (forall k, k <> lane -> lane_of k e' = lane_of k e).
Proof.
  intros Hacc Hlap Hms. cbv zeta.
  assert (Hd : debounced now l = true).
  { unfold debounced. rewrite Hlap. simpl. now apply Z.ltb_lt. }
  rewrite (record_lap_debounced _ _ _ _ _ Hacc Hd). simpl.
  destruct Hacc as (Hr & Hs & Hg & Hf).
  repeat split; auto.
  - exists (with_last_lap_timestamp now l). unfold lane_of. simpl.
    rewrite get_set_same. repeat split; auto.
  - intros k Hk. unfold lane_of. simpl. rewrite Hr.
    now apply get_set_other.
Qed.

(** C1 as stated fails: lane 1 is crossed half a second after the start at
    10; the crossing is debounced, yet the lane's [last_lap_timestamp] has
    moved from 10 to 10.5. *)
Lemma debounced_crossing_moves_timestamp :
  accepts_lap 1 demo_started demo_race (demo_lane 1 11) /\
  current_lap (demo_lane 1 11) = 0 /\
  lap_ms (21 # 2) (demo_lane 1 11) = 500 /\
  last_lap_timestamp (demo_lane 1 11) = 10%Q /\
  exists l',
    lane_of 1 (fst (record_lap 1 (21 # 2) demo_started)) = Some l' /\
    last_lap_timestamp l' = (21 # 2)%Q /\
    ~ (last_lap_timestamp l' == last_lap_timestamp (demo_lane 1 11))%Q.
Proof.
  split; [exact demo_accepts_lane1|].
  repeat (split; [reflexivity|]).
  eexists. repeat (split; [reflexivity|]).
  simpl. intros H. discriminate H.
Qed.

Lemma debounced_crossing_only_restamps_witness :
  accepts_lap 1 demo_started demo_race (demo_lane 1 11) /\
  current_lap (demo_lane 1 11) = 0 /\
  lap_ms (21 # 2) (demo_lane 1 11) < 1000 /\
  snd (record_lap 1 (21 # 2) demo_started) = [].
Proof.
  split; [exact demo_accepts_lane1|].
  split; [reflexivity|].
  split; [reflexivity|].
  apply (debounced_crossing_only_restamps 1 (21 # 2) demo_started demo_race
           (demo_lane 1 11) demo_accepts_lane1);
    reflexivity.
Defined.

(** * Duplicate lane assignments in [setup_race] (C2) *)

Lemma keys_set_In {V : Type} (x k : Z) (v : V) (d : Dict.t V) :
  In x (Dict.keys (Dict.set k v d)) <-> x = k \/ In x (Dict.keys d).
Proof.
  induction d as [|[k' v'] d IH]; simpl.
  - intuition.
  - destruct (k =? k') eqn:E; simpl.
    + apply Z.eqb_eq in E. subst. intuition.
    + rewrite IH. intuition.
Qed.

Lemma NoDup_keys_set {V : Type} (k : Z) (v : V) (d : Dict.t V) :
  NoDup (Dict.keys d) -> NoDup (Dict.keys (Dict.set k v d)).
Proof.
  induction d as [|[k' v'] d IH]; simpl; intros Hd.
  - constructor; [intros []|constructor].
  - inversion Hd as [|? ? Hnotin Hrest]; subst.
    destruct (k =? k') eqn:E; simpl.
    + constructor; auto.
    + constructor; auto. rewrite keys_set_In.
      apply Z.eqb_neq in E. intros [Hk|Hk]; [congruence|contradiction].
Qed.

Lemma fill_lanes_spec (ps : list Participant) (acc : Dict.t LaneState) :
  let d :=
    fold_left
      (fun lanes p =>
         Dict.set (p_lane p) (new_lane (p_lane p) (p_car_id p)) lanes)
      ps acc in
  (NoDup (Dict.keys acc) -> NoDup (Dict.keys d)) /\
  (forall k, In k (Dict.keys d) <->
             In k (Dict.keys acc) \/ In k (map p_lane ps)) /\
  (forall k, Dict.get k d =
             match last_on_lane k ps with
             | Some p => Some (new_lane k (p_car_id p))
             | None => Dict.get k acc
             end).
Proof.
  revert acc. induction ps as [|p ps IH]; intros acc; simpl.
  - repeat split; auto. intros [H|[]]; auto.
  - destruct (IH (Dict.set (p_lane p) (new_lane (p_lane p) (p_car_id p)) acc))
      as (H1 & H2 & H3).
    repeat split.
    + intros Hacc. apply H1. now apply NoDup_keys_set.
    + rewrite H2, keys_set_In. intuition.
    + rewrite H2, keys_set_In. intuition.
    + intros k. rewrite H3.
      destruct (last_on_lane k ps); auto.
      destruct (p_lane p =? k) eqn:E.
      * apply Z.eqb_eq in E. subst k. apply get_set_same.
      * apply Z.eqb_neq in E. apply get_set_other. congruence.
Qed.

(** C2, amended: [setup_race] does not reject a participants list with
    duplicate lane assignments.  Unless a session is RUNNING it succeeds on
    every list; the lanes it creates have pairwise distinct keys, which are
    the lane numbers of the list, and the entry of a lane is a fresh lane
    state with the car of the last participant assigned to it: participants
    sharing a lane are merged into one entry. *)
Theorem setup_race_merges_duplicate_lanes (race track : Z)
    (ps : list Participant) (m : string) (target : Z) (limit : option Z)
    (fuel : bool) (e : Engine) :
  is_running e = false ->
  exists e' r',
    setup_race race track ps m target limit fuel e = Ok e' /\
    current_race e' = Some r' /\
    lanes r' = build_lanes ps /\
    NoDup (Dict.keys (lanes r')) /\
    (forall k, In k (Dict.keys (lanes r')) <-> In k (map p_lane ps)) /\
    (forall k,
       Dict.get k (lanes r') =
       option_map (fun p => new_lane k (p_car_id p)) (last_on_lane k ps)).
Proof.
  intros Hrun. unfold setup_race. rewrite Hrun.
  eexists. eexists. split; [reflexivity|]. split; [reflexivity|]. simpl.
  destruct (fill_lanes_spec ps []) as (H1 & H2 & H3).
  split; [reflexivity|]. split; [|split].
  - apply H1. constructor.
  - intros k. unfold build_lanes. rewrite H2. simpl. intuition.
  - intros k. unfold build_lanes. rewrite H3.
    destruct (last_on_lane k ps); reflexivity.
Qed.

(** C2 as stated fails: two participants on lane 1 are accepted, and the
    session holds the single lane entry of the second car. *)
Lemma setup_race_accepts_duplicate_lane :
  exists e' r',
    setup_race 1 1 clashing_participants "race_laps" 3 None false init
    = Ok e' /\
    current_race e' = Some r' /\
    lanes r' = [(1, new_lane 1 12)].
Proof.
  eexists. eexists. repeat split; reflexivity.
Qed.

Lemma setup_race_merges_duplicate_lanes_witness :
  is_running init = false /\
  exists e' r',
    setup_race 1 1 clashing_participants "race_laps" 3 None false init
    = Ok e' /\
    current_race e' = Some r' /\
    Dict.get 1 (lanes r') = Some (new_lane 1 12).
Proof.
  split; [reflexivity|].
  destruct (setup_race_merges_duplicate_lanes 1 1 clashing_participants
              "race_laps" 3 None false init eq_refl)
    as (e' & r' & Hs & Hr & _ & _ & _ & Hget).
  exists e', r'. split; [exact Hs|]. split; [exact Hr|].
  rewrite Hget. reflexivity.
Defined.

(** * Conflict on [setup_race] (C8) *)

Lemma is_running_spec (e : Engine) :
  is_running e = true <->
  exists r, current_race e = Some r /\ state r = RUNNING.
Proof.
  unfold is_running. destruct (current_race e) as [r|].
  - rewrite state_eqb_eq. split.
    + intros H. exists r. auto.
    + intros (r' & [= <-] & H). exact H.
  - split; [discriminate|]. intros (r & H & _). discriminate.
Qed.

(** C8: with a session that is RUNNING, [setup_race] raises the
    [RuntimeError] and the engine stays as it is, session included; in every
    other case (no session, or a session in another state) it succeeds and
    installs a fresh session: state IDLE, no start time, nothing elapsed,
    empty finish order, only fresh lane states, built from the arguments
    alone. *)
Theorem setup_race_conflict_or_fresh (race track : Z) (ps : list Participant)
    (m : string) (target : Z) (limit : option Z) (fuel : bool) (e : Engine) :
  let call := setup_race race track ps m target limit fuel e in
  let fresh :=
    {| race_id := race; track_id := track; mode := m; target_laps := target;
       time_limit_seconds := limit; fuel_simulation_enabled := fuel;
       lanes := build_lanes ps; state := IDLE; start_time := None;
       elapsed_time_ms := 0; countdown_remaining := 5; finish_order := [] |} in
  ((exists r, current_race e = Some r /\ state r = RUNNING) ->
     call =
     Raise (MkRuntimeError "Cannot setup new race while another is running")
     /\ step (OpSetup race track ps m target limit fuel) e = (e, [])) /\
  (~ (exists r, current_race e = Some r /\ state r = RUNNING) ->
     call = Ok {| current_race := Some fresh; tick_task := tick_task e |} /\
     Forall (fun kv => exists c, snd kv = new_lane (fst kv) c) (lanes fresh)).
Proof.
  cbv zeta. rewrite <- is_running_spec. unfold step, setup_race.
  destruct (is_running e); split; intros H; try congruence.
  - split; reflexivity.
  - split; [reflexivity|]. apply build_lanes_fresh.
Qed.

Lemma setup_race_conflict_or_fresh_witness :
  (exists r, current_race demo_started = Some r /\ state r = RUNNING) /\
  setup_race 2 1 demo_participants "race_laps" 5 None false demo_started =
  Raise (MkRuntimeError "Cannot setup new race while another is running") /\
  step (OpSetup 2 1 demo_participants "race_laps" 5 None false) demo_started
  = (demo_started, []).
Proof.
  assert (Hrun : exists r, current_race demo_started = Some r /\
                           state r = RUNNING)
    by (exists demo_race; split; reflexivity).
  split; [exact Hrun|].
  apply (setup_race_conflict_or_fresh 2 1 demo_participants "race_laps" 5
           None false demo_started).
  exact Hrun.
Defined.

(** * [stop] (C7) *)

(** C7, amended: on an engine with a session, in whatever state, [stop]
    sets the state to FINISHED, leaves every other session field as it is,
    cancels the tick task and broadcasts one [race:cancelled] message.  A
    second [stop] leaves the engine as the first one left it, but broadcasts
    [race:cancelled] once more. *)
Theorem stop_finishes_and_cancels (e : Engine) (r : RaceState) :
  current_race e = Some r ->
  let e1 := fst (stop e) in
  current_race e1 = Some (with_state FINISHED r) /\
  state (with_state FINISHED r) = FINISHED /\
  task_active e1 = false /\
  (forall now, race_tick_loop_round now e1 = (e1, [])) /\
  snd (stop e) = [cancelled_event r] /\
  fst (stop e1) = e1 /\
  snd (stop e1) = [cancelled_event r].
Proof.
  intros Hr. cbv zeta. destruct e as [cr task]. simpl in Hr. subst cr.
  unfold stop, task_active, race_tick_loop_round, cancel_tick_task.
  destruct task as [[|]|]; simpl; repeat split; auto.
Qed.

(** C7 as stated fails: the started demo session is stopped, which makes it
    terminal; stopping it again still broadcasts a [race:cancelled]
    message. *)
Lemma stop_again_broadcasts_again :
  (exists r, current_race (fst (stop demo_started)) = Some r /\
             state r = FINISHED) /\
  snd (stop (fst (stop demo_started))) = [cancelled_event demo_race] /\
  snd (stop (fst (stop demo_started))) <> [].
Proof.
  split; [eexists; split; reflexivity|].
  split; [reflexivity | discriminate].
Qed.

Lemma stop_finishes_and_cancels_witness :
  current_race demo_started = Some demo_race /\
  current_race (fst (stop demo_started)) = Some (with_state FINISHED demo_race).
Proof.
  split; [reflexivity|].
  apply (stop_finishes_and_cancels demo_started demo_race eq_refl).
Defined.

(** * [set_power] (C5) *)

Lemma set_power_silent (lane : Z) (power : Q) (e : Engine) :
  snd (set_power lane power e) = [].
Proof.
  unfold set_power. destruct (current_race e) as [r|]; auto.
  destruct (Dict.get lane (lanes r)); auto.
Qed.




(** ** How one call changes a lane *)

Lemma lane_kept_refl (l : LaneState) : lane_kept l l.
Proof. split; auto. Qed.

Lemma lane_kept_trans (l1 l2 l3 : LaneState) :
  lane_kept l1 l2 -> lane_kept l2 l3 -> lane_kept l1 l3.
Proof.
  intros [H1 H2] [H3 H4]. split; [congruence|].
  intros Hf. destruct (H2 Hf) as [Hf2 Hp2]. destruct (H4 Hf2) as [Hf3 Hp3].
  split; congruence.
Qed.

Lemma lane_kept_tick_lane (fuel : bool) (now : Q) (l : LaneState) :
  lane_kept l (tick_lane fuel now l).
Proof.
  unfold tick_lane, update_position_estimate.
  destruct (finished l) eqn:Ef; [apply lane_kept_refl|].
  destruct (Qeq_bool (last_lap_timestamp l) 0);
    destruct (Py.Qltb 0 (power_level l)); destruct fuel;
    split; simpl; auto; congruence.
Qed.

Lemma lane_of_with_lanes (k : Z) (d : Dict.t LaneState) (r : RaceState)
    (e : Engine) :
  lane_of k (with_current_race (with_lanes d r) e) = Dict.get k d.
Proof. reflexivity. Qed.

Lemma finish_remaining_get_some (k : Z) (l : LaneState)
    (d : Dict.t LaneState) (order : list Z) :
  Dict.get k d = Some l ->
  exists l', Dict.get k (fst (finish_remaining d order)) = Some l' /\
             lane_kept l l'.
Proof.
  revert order. induction d as [|[k0 l0] d IH]; intros order; simpl.
  - discriminate.
  - destruct (finished l0) eqn:Ef.
    + specialize (IH order).
      destruct (finish_remaining d order) as [d' order']. simpl in *.
      destruct (k =? k0); auto.
      intros [= <-]. exists l0. split; auto. apply lane_kept_refl.
    + specialize (IH (order ++ [lane_number l0])).
      destruct (finish_remaining d (order ++ [lane_number l0])) as [d' order'].
      simpl in *. destruct (k =? k0); auto.
      intros [= <-]. eexists. split; [reflexivity|].
      split; simpl; auto. congruence.
Qed.

Lemma finish_remaining_get_none (k : Z) (d : Dict.t LaneState)
    (order : list Z) :
  Dict.get k d = None ->
  Dict.get k (fst (finish_remaining d order)) = None.
Proof.
  revert order. induction d as [|[k0 l0] d IH]; intros order; simpl; auto.
  destruct (finished l0).
  - specialize (IH order).
    destruct (finish_remaining d order) as [d' order']. simpl in *.
    destruct (k =? k0); [discriminate|auto].
  - specialize (IH (order ++ [lane_number l0])).
    destruct (finish_remaining d (order ++ [lane_number l0])) as [d' order'].
    simpl in *. destruct (k =? k0); [discriminate|auto].
Qed.

Lemma finish_race_lane_some (k : Z) (l : LaneState) (e : Engine) :
  lane_of k e = Some l ->
  exists l', lane_of k (fst (finish_race e)) = Some l' /\ lane_kept l l'.
Proof.
  unfold lane_of, finish_race. rewrite current_race_cancel.
  destruct (current_race e) as [r|]; [|discriminate].
  intros Hg. simpl.
  destruct (finish_remaining_get_some k l (lanes r) (finish_order r) Hg)
    as (l' & Hg' & Hk).
  destruct (finish_remaining (lanes r) (finish_order r)) as [d' o'].
  simpl in *. eauto.
Qed.

Lemma finish_race_lane_none (k : Z) (e : Engine) :
  lane_of k e = None -> lane_of k (fst (finish_race e)) = None.
Proof.
  unfold lane_of, finish_race. rewrite current_race_cancel.
  destruct (current_race e) as [r|] eqn:Hr; simpl.
  - intros Hg.
    assert (H := finish_remaining_get_none k (lanes r) (finish_order r) Hg).
    destruct (finish_remaining (lanes r) (finish_order r)) as [d' o'].
    simpl in *. exact H.
  - now rewrite current_race_cancel, Hr.
Qed.

Lemma tick_lane_some (k : Z) (l : LaneState) (now : Q) (e : Engine) :
  lane_of k e = Some l ->
  exists l', lane_of k (fst (tick now e)) = Some l' /\ lane_kept l l'.
Proof.
  intros Hl. unfold tick.
  destruct (current_race e) as [r|] eqn:Hr;
    [|exists l; split; [exact Hl|apply lane_kept_refl]].
  destruct (start_time r) as [started|];
    [|exists l; split; [exact Hl|apply lane_kept_refl]].
  destruct (negb (Py.truthy started));
    [exists l; split; [exact Hl|apply lane_kept_refl]|].
  unfold lane_of in Hl. rewrite Hr in Hl.
  assert (Hmid : forall e0 : Engine,
    lane_of k (with_current_race
      (with_lanes
         (Dict.map_values (tick_lane (fuel_simulation_enabled r) now)
            (lanes r))
         (with_elapsed_time_ms (Py.int ((now - started) * 1000)%Q) r)) e0)
    = Some (tick_lane (fuel_simulation_enabled r) now l)).
  { intros e0. rewrite lane_of_with_lanes, get_map_values, Hl. reflexivity. }
  simpl. 
  match goal with
  | |- context [time_limit_reached ?x] => destruct (time_limit_reached x)
  end.
  - destruct (finish_race_lane_some k _ _ (Hmid e)) as (l' & Hl' & Hk).
    exists l'. split; [exact Hl'|].
    eapply lane_kept_trans; [apply lane_kept_tick_lane|exact Hk].
  - destruct (_ =? 0); simpl; eexists;
      (split; [apply (Hmid e) | apply lane_kept_tick_lane]).
Qed.

Lemma tick_lane_none (k : Z) (now : Q) (e : Engine) :
  lane_of k e = None -> lane_of k (fst (tick now e)) = None.
Proof.
  intros Hl. unfold tick.
  destruct (current_race e) as [r|] eqn:Hr; auto.
  destruct (start_time r) as [started|]; auto.
  destruct (negb (Py.truthy started)); auto.
  unfold lane_of in Hl. rewrite Hr in Hl.
  assert (Hmid : forall e0 : Engine,
    lane_of k (with_current_race
      (with_lanes
         (Dict.map_values (tick_lane (fuel_simulation_enabled r) now)
            (lanes r))
         (with_elapsed_time_ms (Py.int ((now - started) * 1000)%Q) r)) e0)
    = None).
  { intros e0. rewrite lane_of_with_lanes, get_map_values, Hl. reflexivity. }
  simpl.
  match goal with
  | |- context [time_limit_reached ?x] => destruct (time_limit_reached x)
  end.
  - apply finish_race_lane_none. apply (Hmid e).
  - destruct (_ =? 0); simpl; apply (Hmid e).
Qed.

Lemma record_lap_refused (lane : Z) (now : Q) (e : Engine) :
  (is_running e = false \/ lane_of lane e = None \/
   exists l, lane_of lane e = Some l /\ finished l = true) ->
  record_lap lane now e = (e, []).
Proof.
  unfold is_running, lane_of, record_lap.
  destruct (current_race e) as [r|]; auto.
  destruct (state_eqb (state r) RUNNING); simpl; auto.
  intros [H|[H|(l & H & Hf)]]; [discriminate| |]; rewrite H; auto.
  now rewrite Hf.
Qed.

Lemma record_lap_lane_some (lane k : Z) (now : Q) (e : Engine)
    (l : LaneState) :
  lane_of k e = Some l ->
  exists l',
    lane_of k (fst (record_lap lane now e)) = Some l' /\
    (finished l = true ->
     finished l' = true /\ finish_position l' = finish_position l) /\
    lap_times_ms l' =
    lap_times_ms l ++
    match counted_time k (OpRecordLap lane now) e with
    | Some t => [t]
    | None => []
    end.
Proof.
  intros Hl. unfold counted_time.
  destruct (lane =? k) eqn:Ek; simpl.
  2:{ apply Z.eqb_neq in Ek. exists l.
      rewrite record_lap_other_lane by congruence.
      rewrite app_nil_r. auto. }
  apply Z.eqb_eq in Ek. subst k. rewrite Hl.
  destruct (is_running e) eqn:Hrun.
  2:{ rewrite record_lap_refused by auto. exists l.
      rewrite app_nil_r. auto. }
  destruct (finished l) eqn:Hf; simpl.
  { rewrite record_lap_refused by eauto. exists l.
    rewrite app_nil_r. auto. }
  apply is_running_spec in Hrun. destruct Hrun as (r & Hr & Hs).
  assert (Hacc : accepts_lap lane e r l).
  { unfold lane_of in Hl. rewrite Hr in Hl. repeat split; auto. }
  destruct (debounced now l) eqn:Hd.
  - rewrite (record_lap_debounced _ _ _ _ _ Hacc Hd). simpl.
    rewrite lane_of_with_lanes, get_set_same. eexists. split; eauto.
    simpl. rewrite app_nil_r. split; auto. discriminate.
  - rewrite (record_lap_counted_lane _ _ _ _ _ Hacc Hd).
    eexists. split; [reflexivity|]. split; [discriminate|].
    destruct (counted_lane_fields (lap_ms now l) now l) as (_ & H & _).
    destruct (reaches_target r (current_lap l + 1)); simpl; exact H.
Qed.

Lemma record_lap_lane_none (lane k : Z) (now : Q) (e : Engine) :
  lane_of k e = None -> lane_of k (fst (record_lap lane now e)) = None.
Proof.
  intros Hl. destruct (Z.eq_dec k lane) as [->|Hne].
  - rewrite record_lap_refused by auto. exact Hl.
  - now rewrite record_lap_other_lane.
Qed.

Lemma set_power_lane (lane k : Z) (power : Q) (e : Engine) :
  match lane_of k e with
  | Some l =>
      exists l', lane_of k (fst (set_power lane power e)) = Some l' /\
                 lane_kept l l'
  | None => lane_of k (fst (set_power lane power e)) = None
  end.
Proof.
  unfold lane_of, set_power.
  destruct (current_race e) as [r|] eqn:Hr; simpl; [|now rewrite Hr].
  destruct (Dict.get lane (lanes r)) as [l0|] eqn:Hg; simpl; rewrite ?Hr.
  - destruct (Z.eq_dec k lane) as [->|Hne].
    + rewrite Hg, get_set_same. eexists. split; [reflexivity|].
      split; simpl; auto.
    + rewrite get_set_other by auto.
      destruct (Dict.get k (lanes r)) as [l|]; auto.
      exists l. split; auto. apply lane_kept_refl.
  - destruct (Dict.get k (lanes r)) as [l|]; auto.
    exists l. split; auto. apply lane_kept_refl.
Qed.

(** Closes a goal on a call that leaves [lanes] as it is; [Hr] names the
    session. *)
Ltac untouched Hr :=
  simpl; rewrite ?current_race_cancel; simpl; rewrite ?Hr; auto.

(** One call other than [setup_race] on a known lane: the lane stays known,
    a finished lane keeps its position, and the lap history grows by the
    counted lap, if any. *)
Lemma step_lane_some (op : Op) (e : Engine) (k : Z) (l : LaneState) :
  is_setup op = false ->
  lane_of k e = Some l ->
  exists l',
    lane_of k (fst (step op e)) = Some l' /\
    (finished l = true ->
     finished l' = true /\ finish_position l' = finish_position l) /\
    lap_times_ms l' =
    lap_times_ms l ++
    match counted_time k op e with Some t => [t] | None => [] end.
Proof.
  intros Hop Hl.
  assert (Hsame : forall e', lane_of k e' = lane_of k e ->
    exists l', lane_of k e' = Some l' /\
      (finished l = true ->
       finished l' = true /\ finish_position l' = finish_position l) /\
      lap_times_ms l' = lap_times_ms l ++ []).
  { intros e' He'. exists l. rewrite He', app_nil_r. auto. }
  assert (Hkept : forall e' l', lane_of k e' = Some l' -> lane_kept l l' ->
    exists l', lane_of k e' = Some l' /\
      (finished l = true ->
       finished l' = true /\ finish_position l' = finish_position l) /\
      lap_times_ms l' = lap_times_ms l ++ []).
  { intros e' l' He' [H1 H2]. exists l'. rewrite app_nil_r. auto. }
  destruct op; try discriminate; simpl.
  - apply Hsame. unfold countdown_begin, lane_of.
    destruct (current_race e) eqn:Hr; simpl; rewrite ?Hr; reflexivity.
  - apply Hsame. unfold countdown_step, lane_of.
    destruct (current_race e) eqn:Hr; simpl; rewrite ?Hr; reflexivity.
  - apply (Hkept _ (with_last_lap_timestamp now l)).
    + unfold start_race, lane_of in *.
      destruct (current_race e) as [r|]; [|discriminate]. simpl.
      rewrite get_map_values, Hl. reflexivity.
    + split; simpl; auto.
  - unfold race_tick_loop_round.
    destruct (tick_task e) as [[|]|]; try (now apply Hsame).
    destruct (is_running e); try (now apply Hsame).
    destruct (tick_lane_some k l now e Hl) as (l' & Hl' & Hk).
    eapply Hkept; eauto.
  - now apply record_lap_lane_some.
  - assert (H := set_power_lane lane k power e). rewrite Hl in H.
    destruct H as (l' & Hl' & Hk). eapply Hkept; eauto.
  - apply Hsame. unfold pause, lane_of.
    destruct (current_race e) as [r|] eqn:Hr; [|untouched Hr].
    destruct (state_eqb (state r) RUNNING); untouched Hr.
  - apply Hsame. unfold resume, lane_of.
    destruct (current_race e) as [r|] eqn:Hr; [|untouched Hr].
    destruct (state_eqb (state r) PAUSED); untouched Hr.
  - apply Hsame. unfold stop, lane_of. rewrite current_race_cancel.
    destruct (current_race e) as [r|] eqn:Hr; untouched Hr.
Qed.

(** One call other than [setup_race] makes no lane known. *)
Lemma step_lane_none (op : Op) (e : Engine) (k : Z) :
  is_setup op = false ->
  lane_of k e = None -> lane_of k (fst (step op e)) = None.
Proof.
  intros Hop Hl.
  destruct op; try discriminate; simpl.
  - unfold countdown_begin, lane_of in *.
    destruct (current_race e) eqn:Hr; untouched Hr.
  - unfold countdown_step, lane_of in *.
    destruct (current_race e) eqn:Hr; untouched Hr.
  - unfold start_race, lane_of in *.
    destruct (current_race e) as [r|] eqn:Hr; [|untouched Hr]. simpl.
    now rewrite get_map_values, Hl.
  - unfold race_tick_loop_round.
    destruct (tick_task e) as [[|]|]; auto.
    destruct (is_running e); auto. now apply tick_lane_none.
  - now apply record_lap_lane_none.
  - assert (H := set_power_lane lane k power e). now rewrite Hl in H.
  - unfold pause, lane_of in *.
    destruct (current_race e) as [r|] eqn:Hr; [|untouched Hr].
    destruct (state_eqb (state r) RUNNING); untouched Hr.
  - unfold resume, lane_of in *.
    destruct (current_race e) as [r|] eqn:Hr; [|untouched Hr].
    destruct (state_eqb (state r) PAUSED); untouched Hr.
  - unfold stop, lane_of in *. rewrite current_race_cancel.
    destruct (current_race e) as [r|] eqn:Hr; untouched Hr.
Qed.

(** * Lap history after valid laps (C4) *)

Lemma run_cons_fst (op : Op) (ops : list Op) (e : Engine) :
  fst (run (op :: ops) e) = fst (run ops (fst (step op e))).
Proof.
  simpl. destruct (step op e) as [e1 out1]. simpl.
  destruct (run ops e1) as [e2 out2]. reflexivity.
Qed.

Lemma setup_lanes_fresh (race track : Z) (ps : list Participant)
    (m : string) (target : Z) (limit : option Z) (fuel : bool)
    (e e' : Engine) (k : Z) (l : LaneState) :
  setup_race race track ps m target limit fuel e = Ok e' ->
  lane_of k e' = Some l -> exists c, l = new_lane k c.
Proof.
  unfold setup_race. destruct (is_running e); [discriminate|].
  intros [= <-]. unfold lane_of. simpl. intros Hg.
  apply (Forall_get (fun k v => exists c, v = new_lane k c) _ _ _
           (build_lanes_fresh ps) Hg).
Qed.

Lemma laps_recorded_sound (k : Z) (ops : list Op) :
  forall (e : Engine) (acc : list Z),
    (forall l, lane_of k e = Some l -> lap_times_ms l = acc) ->
    forall l', lane_of k (fst (run ops e)) = Some l' ->
               lap_times_ms l' = laps_recorded k ops e acc.
Proof.
  induction ops as [|op ops IH]; intros e acc Hacc l' Hl'.
  - simpl in *. auto.
  - rewrite run_cons_fst in Hl'. cbn [laps_recorded].
    apply (IH (fst (step op e))); [|exact Hl'].
    intros l1 Hl1. unfold installs_session.
    destruct (is_setup op) eqn:Hop.
    + destruct op; try discriminate. simpl in *.
      destruct (setup_race race track participants mode_ target time_limit
                  fuel e) as [e1|err] eqn:Hs.
      * assert (Hrun : is_running e = false).
        { unfold setup_race in Hs. destruct (is_running e);
            [discriminate|reflexivity]. }
        rewrite Hrun. simpl in *.
        destruct (setup_lanes_fresh _ _ _ _ _ _ _ _ _ _ _ Hs Hl1) as [c ->].
        reflexivity.
      * assert (Hrun : is_running e = true).
        { unfold setup_race in Hs. destruct (is_running e);
            [reflexivity|discriminate]. }
        rewrite Hrun. simpl in *. auto.
    + simpl. destruct (lane_of k e) as [l|] eqn:Hl.
      * destruct (step_lane_some op e k l Hop Hl) as (l2 & Hl2 & _ & Ht).
        rewrite Hl1 in Hl2. injection Hl2 as <-.
        rewrite Ht, (Hacc l eq_refl).
        destruct (counted_time k op e); auto using app_nil_r.
      * rewrite (step_lane_none op e k Hop Hl) in Hl1. discriminate.
Qed.

(** C4: whatever calls are made on a new engine, a lane [k] of the session
    they lead to holds in [lap_times_ms] the times of the valid laps
    recorded for it in that session, in order; with [N] their number,
    [current_lap] is [N], [lap_times_ms] has length [N], [best_lap_time_ms]
    is the minimum of [lap_times_ms] (none when there is no lap) and
    [total_time_ms] is its sum. *)
Theorem lap_history_after_valid_laps (ops : list Op) (k : Z) (l : LaneState) :
  lane_of k (fst (run ops init)) = Some l ->
  let times := laps_recorded k ops init [] in
  let N := Py.len times in
  lap_times_ms l = times /\
  current_lap l = N /\
  Py.len (lap_times_ms l) = N /\
  best_lap_time_ms l = Py.min_list (lap_times_ms l) /\
  total_time_ms l = Py.sum (lap_times_ms l).
Proof.
  intros Hl. cbv zeta.
  assert (Ht : lap_times_ms l = laps_recorded k ops init []).
  { apply (laps_recorded_sound k ops init []); [discriminate|exact Hl]. }
  assert (Hok := reachable_ok _ (reachable_run ops init reach_init)).
  unfold engine_ok, lane_of in *.
  destruct (current_race (fst (run ops init))) as [r|]; [|discriminate].
  destruct Hok as [Hlanes _].
  assert (H := Forall_get (lane_inv r) _ _ _ Hlanes Hl).
  destruct H as [_ Hlaps Htotal Hbest _ _ _ _ _ _].
  rewrite <- Ht. auto.
Qed.

Lemma demo_three_laps_lane1 :
  lane_of 1 (fst (run demo_three_laps init)) = Some demo_lane1_final.
Proof. vm_compute. reflexivity. Qed.

Lemma demo_three_laps_recorded :
  laps_recorded 1 demo_three_laps init [] = [1200; 1100; 800].
Proof. vm_compute. reflexivity. Qed.

Lemma lap_history_after_valid_laps_witness :
  lane_of 1 (fst (run demo_three_laps init)) = Some demo_lane1_final /\
  current_lap demo_lane1_final =
  Py.len (laps_recorded 1 demo_three_laps init []).
Proof.
  split; [exact demo_three_laps_lane1|].
  apply (lap_history_after_valid_laps demo_three_laps 1 demo_lane1_final
           demo_three_laps_lane1).
Defined.

(** * Best lap on strict improvement only (C10) *)

(** C10: a counted crossing of lap time [t] broadcasts one [race:lap]
    message, whose [is_best_lap] flag is set exactly when the lane has no
    best lap yet or [t] is strictly below it, and [best_lap_time_ms] becomes
    [t] exactly when the flag is set.  So a lap that equals the best so far
    leaves [best_lap_time_ms] as it is and is flagged false, and in a
    reachable engine the first counted lap of a lane is flagged true. *)
Theorem best_lap_on_strict_improvement (lane : Z) (now : Q) (e : Engine)
    (r : RaceState) (l : LaneState) :
  accepts_lap lane e r l ->
  debounced now l = false ->
  let t := lap_ms now l in
  exists l' rest,
    lane_of lane (fst (record_lap lane now e)) = Some l' /\
    snd (record_lap lane now e) = lap_event r lane l t :: rest /\
    filter is_lap_event rest = [] /\
    payload (lap_event r lane l t) =
      PLap (race_id r) (car_id l) lane (current_lap l + 1) t
        (is_best_lap t l) /\
    best_lap_time_ms l' =
      (if is_best_lap t l then Some t else best_lap_time_ms l) /\
    (is_best_lap t l = true <->
     best_lap_time_ms l = None \/
     exists best, best_lap_time_ms l = Some best /\ t < best) /\
    (best_lap_time_ms l = Some t ->
     is_best_lap t l = false /\ best_lap_time_ms l' = best_lap_time_ms l) /\
    (reachable e -> current_lap l = 0 ->
     is_best_lap t l = true /\ best_lap_time_ms l' = Some t).
Proof.
  intros Hacc Hd. cbv zeta.
  assert (Hlane := record_lap_counted_lane _ _ _ _ _ Hacc Hd).
  assert (Hout := record_lap_counted_closed _ _ _ _ _ Hacc Hd).
  cbv zeta in Hout.
  destruct (counted_lane_fields (lap_ms now l) now l)
    as (_ & _ & _ & Hbest & _).
  set (t := lap_ms now l) in *.
  assert (Hflag : is_best_lap t l = true <->
            best_lap_time_ms l = None \/
            exists best, best_lap_time_ms l = Some best /\ t < best).
  { unfold is_best_lap. destruct (best_lap_time_ms l) as [best|].
    - rewrite Z.ltb_lt. split.
      + intros H. right. exists best. auto.
      + intros [H|(b & [= <-] & H)]; [discriminate|exact H].
    - split; auto. }
  exists (if reaches_target r (current_lap l + 1)
          then mark_finished (Py.len (finish_order r) + 1)
                 (counted_lane t now l)
          else counted_lane t now l).
  exists (if reaches_target r (current_lap l + 1)
          then if forallb finished
                    (Dict.values
                       (lanes (race_with_finisher lane
                                 (counted_lane t now l) r)))
               then [finished_event
                       (race_with_finisher lane (counted_lane t now l) r)]
               else []
          else []).
  assert (Hb' : best_lap_time_ms
                  (if reaches_target r (current_lap l + 1)
                   then mark_finished (Py.len (finish_order r) + 1)
                          (counted_lane t now l)
                   else counted_lane t now l) =
                (if is_best_lap t l then Some t else best_lap_time_ms l)).
  { destruct (reaches_target r (current_lap l + 1)); simpl; exact Hbest. }
  split; [exact Hlane|].
  split.
  { rewrite Hout. destruct (reaches_target r (current_lap l + 1)); auto.
    destruct (forallb finished _); reflexivity. }
  split.
  { destruct (reaches_target r (current_lap l + 1)); auto.
    destruct (forallb finished _); reflexivity. }
  split; [reflexivity|].
  split; [exact Hb'|].
  split; [exact Hflag|].
  split.
  - intros Heq. rewrite Hb'. unfold is_best_lap. rewrite Heq.
    rewrite Z.ltb_irrefl. auto.
  - intros Hreach Hzero. rewrite Hb'.
    assert (Hok := reachable_ok _ Hreach).
    destruct Hacc as (Hr & _ & Hg & _).
    unfold engine_ok in Hok. rewrite Hr in Hok. destruct Hok as [Hlanes _].
    assert (H := Forall_get (lane_inv r) _ _ _ Hlanes Hg).
    destruct H as [_ Hlaps _ Hmin _ _ _ _ _ _].
    assert (Hnil : lap_times_ms l = []).
    { unfold Py.len in Hlaps. destruct (lap_times_ms l); auto.
      simpl in Hlaps. lia. }
    rewrite Hnil in Hmin. simpl in Hmin.
    unfold is_best_lap. rewrite Hmin. auto.
Qed.

Lemma best_lap_on_strict_improvement_witness :
  accepts_lap 1 demo_started demo_race (demo_lane 1 11) /\
  debounced (112 # 10) (demo_lane 1 11) = false /\
  exists l' rest,
    lane_of 1 (fst (record_lap 1 (112 # 10) demo_started)) = Some l' /\
    snd (record_lap 1 (112 # 10) demo_started) =
    lap_event demo_race 1 (demo_lane 1 11)
      (lap_ms (112 # 10) (demo_lane 1 11)) :: rest.
Proof.
  split; [exact demo_accepts_lane1|]. split; [reflexivity|].
  destruct (best_lap_on_strict_improvement 1 (112 # 10) demo_started
              demo_race (demo_lane 1 11) demo_accepts_lane1 eq_refl)
    as (l' & rest & H1 & H2 & _).
  exists l', rest. split; assumption.
Defined.

(** Laps of 1200, 1100 and 1100 ms on lane 1: the third equals the best so
    far and is not flagged. *)
Example equal_lap_is_not_best :
  filter is_lap_event
    (snd (run [ OpSetup 1 1 demo_participants "race_laps" 3 None false;
                OpStartRace 10;
                OpRecordLap 1 (112 # 10);
                OpRecordLap 1 (123 # 10);
                OpRecordLap 1 (134 # 10) ] init)) =
  [ {| to_race := 1; msg_type := "race:lap";
       payload := PLap 1 11 1 1 1200 true |};
    {| to_race := 1; msg_type := "race:lap";
       payload := PLap 1 11 1 2 1100 true |};
    {| to_race := 1; msg_type := "race:lap";
       payload := PLap 1 11 1 3 1100 false |} ].
Proof. vm_compute. reflexivity. Qed.

(** * Finishing a lap race (C3) *)








(** Lane 1 finishes first on its third lap, while lane 2 is still racing. *)
Example third_lap_finishes_lane1 :
  lane_of 1 (fst (record_lap 1 (131 # 10) demo_after_two))
  = Some demo_lane1_final /\
  option_map state (current_race (fst (record_lap 1 (131 # 10) demo_after_two)))
  = Some RUNNING /\
  option_map finish_order
    (current_race (fst (record_lap 1 (131 # 10) demo_after_two)))
  = Some [1].
Proof. vm_compute. repeat split; reflexivity. Qed.

(** With a time limit a lap race also ends on the clock: at the limit of
    60 s [_tick] calls [_finish_race], which marks both lanes finished at
    lap 0, in the order of the lanes dict. *)
Example time_limit_finishes_below_target :
  let e :=
    fst (run [ OpSetup 1 1 demo_participants "race_laps" 3 (Some 60) false;
               OpStartRace 10;
               OpTick 70 ] init) in
  option_map state (current_race e) = Some FINISHED /\
  option_map finish_order (current_race e) = Some [1; 2] /\
  option_map (fun l => (finished l, current_lap l, finish_position l))
    (lane_of 2 e) = Some (true, 0, Some 2).
Proof. vm_compute. repeat split; reflexivity. Qed.

(** * The position estimate (C6) *)

Lemma tick_not_started (now : Q) (e : Engine) :
  tick_started e = false -> tick now e = (e, []).
Proof.
  unfold tick_started, tick.
  destruct (current_race e) as [r|]; auto.
  destruct (start_time r) as [started|]; auto.
  intros H. now rewrite H.
Qed.

Lemma finish_remaining_get_position (k : Z) (l : LaneState)
    (d : Dict.t LaneState) (order : list Z) :
  Dict.get k d = Some l ->
  exists l', Dict.get k (fst (finish_remaining d order)) = Some l' /\
             estimated_position l' = estimated_position l.
Proof.
  revert order. induction d as [|[k0 l0] d IH]; intros order; simpl.
  - discriminate.
  - destruct (finished l0) eqn:Ef.
    + specialize (IH order).
      destruct (finish_remaining d order) as [d' order']. simpl in *.
      destruct (k =? k0); auto.
      intros [= <-]. exists l0. auto.
    + specialize (IH (order ++ [lane_number l0])).
      destruct (finish_remaining d (order ++ [lane_number l0])) as [d' order'].
      simpl in *. destruct (k =? k0); auto.
      intros [= <-]. eexists. split; reflexivity.
Qed.

(** The estimate that the loop body of [_tick] leaves on a lane. *)
Lemma tick_lane_position (fuel : bool) (now : Q) (l : LaneState) :
  estimated_position (tick_lane fuel now l) =
  if finished l || Qeq_bool (last_lap_timestamp l) 0
     || negb (Py.Qltb 0 (power_level l))
  then estimated_position l
  else dead_reckoning now l.
Proof.
  unfold tick_lane, update_position_estimate, dead_reckoning.
  destruct (finished l); simpl; auto.
  destruct (Qeq_bool (last_lap_timestamp l) 0); simpl;
    destruct (Py.Qltb 0 (power_level l)); destruct fuel; reflexivity.
Qed.

(** The estimate of a lane after a [_tick] that gets past its guard. *)
Lemma tick_started_position (k : Z) (l : LaneState) (now : Q) (e : Engine) :
  tick_started e = true ->
  lane_of k e = Some l ->
  exists l' fuel,
    lane_of k (fst (tick now e)) = Some l' /\
    estimated_position l' = estimated_position (tick_lane fuel now l).
Proof.
  unfold tick_started, lane_of, tick.
  destruct (current_race e) as [r|]; [|discriminate].
  destruct (start_time r) as [started|]; [|discriminate].
  intros Hst Hl. rewrite Hst. simpl.
  assert (Hmid : forall e0 : Engine,
    lane_of k (with_current_race
      (with_lanes
         (Dict.map_values (tick_lane (fuel_simulation_enabled r) now)
            (lanes r))
         (with_elapsed_time_ms (Py.int ((now - started) * 1000)%Q) r)) e0)
    = Some (tick_lane (fuel_simulation_enabled r) now l)).
  { intros e0. rewrite lane_of_with_lanes, get_map_values, Hl. reflexivity. }
  match goal with
  | |- context [time_limit_reached ?x] => destruct (time_limit_reached x)
  end.
  - unfold finish_race. rewrite current_race_cancel. simpl.
    destruct (finish_remaining_get_position k _ _ (finish_order r) (Hmid e))
      as (l' & Hl' & Hp).
    simpl in Hl'.
    destruct (finish_remaining _ (finish_order r)) as [d' o'].
    simpl in *. eauto.
  - exists (tick_lane (fuel_simulation_enabled r) now l),
      (fuel_simulation_enabled r).
    split; [|reflexivity].
    destruct (_ =? 0); apply (Hmid e).
Qed.

(** C6, amended: in a reachable engine every lane's [estimated_position]
    lies in [[0, 1)], before and after a tick.  A tick leaves the estimate of
    a lane as it is when the lane's [power_level] is 0, when the lane is
    finished, when its [last_lap_timestamp] is 0, or when the session has no
    start time; it sets the estimate to
    ((now - last_lap_timestamp) * (power_level / 100)) / nominal lap seconds,
    mod 1.0, when the session has a start time and the lane is unfinished,
    has a non-zero [last_lap_timestamp] and a [power_level] above 0. *)
Theorem position_estimate_in_range_and_ticked (e : Engine) (k : Z)
    (l : LaneState) (now : Q) :
  reachable e ->
  lane_of k e = Some l ->
  (0 <= estimated_position l < 1)%Q /\
  exists l',
    lane_of k (fst (tick now e)) = Some l' /\
    (0 <= estimated_position l' < 1)%Q /\
    ((power_level l == 0)%Q -> estimated_position l' = estimated_position l) /\
    (finished l = true -> estimated_position l' = estimated_position l) /\
    ((last_lap_timestamp l == 0)%Q ->
     estimated_position l' = estimated_position l) /\
    (tick_started e = false -> estimated_position l' = estimated_position l) /\
    (tick_started e = true -> finished l = false ->
     ~ (last_lap_timestamp l == 0)%Q -> (0 < power_level l)%Q ->
     estimated_position l' = dead_reckoning now l).
Proof.
  intros Hreach Hl.
  assert (Hrange : forall e0 l0, engine_ok e0 -> lane_of k e0 = Some l0 ->
            (0 <= estimated_position l0 < 1)%Q).
  { intros e0 l0 Hok Hl0. unfold engine_ok, lane_of in *.
    destruct (current_race e0) as [r|]; [|discriminate].
    destruct Hok as [Hlanes _].
    apply (ok_position _ _ _ _ _
             (Forall_get (lane_inv r) _ _ _ Hlanes Hl0)). }
  assert (Hok := reachable_ok _ Hreach).
  split; [now apply (Hrange e)|].
  destruct (tick_started e) eqn:Hst.
  - destruct (tick_started_position k l now e Hst Hl) as (l' & fuel & Hl' & Hp).
    exists l'. split; [exact Hl'|].
    split; [apply (Hrange (fst (tick now e))); auto; now apply engine_ok_tick|].
    rewrite Hp, tick_lane_position.
    split; [|split; [|split; [|split]]].
    + intros Hzero.
      assert (Hq : Py.Qltb 0 (power_level l) = false).
      { apply Qltb_ge. rewrite Hzero. apply Qle_refl. }
      rewrite Hq. simpl. now rewrite !orb_true_r.
    + intros Hf. now rewrite Hf.
    + intros Hzero. apply Qeq_bool_iff in Hzero. rewrite Hzero.
      simpl. now rewrite orb_true_r.
    + discriminate.
    + intros _ Hf Hstamp Hpow. rewrite Hf.
      destruct (Qeq_bool (last_lap_timestamp l) 0) eqn:Hq.
      * apply Qeq_bool_iff in Hq. contradiction.
      * apply Qltb_lt in Hpow. rewrite Hpow. reflexivity.
  - exists l. rewrite tick_not_started by assumption. simpl.
    split; [exact Hl|]. split; [now apply (Hrange e)|].
    repeat split; auto. discriminate.
Qed.

Lemma demo_finished_powered_run :
  fst (run (demo_three_laps ++ [OpSetPower 1 50]) init)
  = demo_finished_powered.
Proof. vm_compute. reflexivity. Qed.

Lemma demo_finished_powered_reachable : reachable demo_finished_powered.
Proof.
  rewrite <- demo_finished_powered_run. apply reachable_run, reach_init.
Qed.

(** C6 as stated fails: lane 1 has finished and is at half power when the
    tick loop runs at clock reading 14; the formula gives 0.09, the tick
    leaves the estimate at 0. *)
Lemma tick_skips_finished_lane :
  lane_of 1 demo_finished_powered = Some demo_lane1_powered /\
  (0 < power_level demo_lane1_powered)%Q /\
  (dead_reckoning 14 demo_lane1_powered == 9 # 100)%Q /\
  exists l',
    lane_of 1 (fst (step (OpTick 14) demo_finished_powered)) = Some l' /\
    estimated_position l' = 0%Q /\
    ~ (estimated_position l' == dead_reckoning 14 demo_lane1_powered)%Q.
Proof.
  split; [reflexivity|]. split; [reflexivity|]. split; [reflexivity|].
  exists demo_lane1_powered.
  split; [vm_compute; reflexivity|]. split; [reflexivity|].
  intros H. vm_compute in H. discriminate H.
Qed.

Lemma position_estimate_in_range_and_ticked_witness :
  reachable demo_finished_powered /\
  lane_of 1 demo_finished_powered = Some demo_lane1_powered /\
  (0 <= estimated_position demo_lane1_powered < 1)%Q.
Proof.
  split; [exact demo_finished_powered_reachable|].
  split; [reflexivity|].
  apply (position_estimate_in_range_and_ticked demo_finished_powered 1
           demo_lane1_powered 14 demo_finished_powered_reachable eq_refl).
Defined.

(** An unfinished lane at half power, 0.9 s after its last crossing: the
    tick moves its estimate to 0.09. *)
Example tick_moves_unfinished_lane :
  option_map estimated_position
    (lane_of 2 (fst (step (OpTick (109 # 10))
                       (fst (set_power 2 50 demo_started)))))
  = Some (dead_reckoning (109 # 10)
            (with_power_level 50 (demo_lane 2 12))) /\
  (dead_reckoning (109 # 10) (with_power_level 50 (demo_lane 2 12))
   == 9 # 100)%Q.
Proof. split; vm_compute; reflexivity. Qed.

(** * The three-crossings scenario (C9) *)















(** * The countdown and the start *)

(** X1: [start_countdown], run without interruption, raises when there is no
    session.  With a session it broadcasts, for each count from 5 down to 1,
    a [race:state] message showing COUNTDOWN with that count left and then
    the [race:countdown] message of the count, and at last [race:started];
    it leaves the session RUNNING from [now], every lane stamped with [now],
    and an active tick task. *)
Theorem start_countdown_sequence (now : Q) (e : Engine) :
  match current_race e with
  | None =>
      start_countdown now e = Raise (MkRuntimeError "No race to start")
  | Some r =>
      start_countdown now e =
      Ok ({| current_race :=
               Some (started_race now (with_countdown_remaining 1 r));
             tick_task := Some TaskActive |},
          flat_map
            (fun i =>
               [ state_event
                   (with_countdown_remaining i (with_state COUNTDOWN r));
                 countdown_event r i ])
            [5; 4; 3; 2; 1]
          ++ [started_event r])
  end.
Proof.
  unfold start_countdown, countdown_begin.
  destruct (current_race e) as [r|] eqn:Hr; reflexivity.
Qed.

Lemma int_below (x : Q) (n : Z) :
  0 < n -> (x < inject_Z n)%Q -> Py.int x < n.
Proof.
  intros Hn Hx. unfold Py.int.
  destruct (Qle_bool 0 x) eqn:E.
  - assert (H : (inject_Z (Qfloor x) < inject_Z n)%Q)
      by (eapply Qle_lt_trans; [apply Qfloor_le | exact Hx]).
    now rewrite <- Zlt_Qlt in H.
  - assert (Hneg : (x <= 0)%Q).
    { apply Qlt_le_weak, Qnot_le_lt. intros H.
      apply Qle_bool_iff in H. congruence. }
    assert (H := Qceiling_resp_le _ _ Hneg).
    change (Qceiling 0) with 0 in H. lia.
Qed.

Lemma int_at_least (x : Q) (n : Z) :
  0 <= n -> (inject_Z n <= x)%Q -> n <= Py.int x.
Proof.
  intros Hn Hx. unfold Py.int.
  assert (H0 : (0 <= x)%Q).
  { eapply Qle_trans; [|exact Hx].
    change 0%Q with (inject_Z 0). now rewrite <- Zle_Qle. }
  apply Qle_bool_iff in H0. rewrite H0.
  assert (H := Qfloor_resp_le _ _ Hx). now rewrite Qfloor_Z in H.
Qed.




(** * Pause and resume *)

(** X3: [pause] on a RUNNING session sets it PAUSED, cancels the tick task
    and broadcasts the state; while paused, crossings, ticks and a second
    [pause] do nothing; [resume] then gives back the session exactly as it
    was, with a new tick task, and broadcasts the state.  Outside RUNNING
    [pause] does nothing, and outside PAUSED [resume] does nothing. *)
Theorem pause_then_resume (e : Engine) (r : RaceState) :
  current_race e = Some r ->
  state r = RUNNING ->
  let paused := fst (pause e) in
  current_race paused = Some (with_state PAUSED r) /\
  task_active paused = false /\
  snd (pause e) = [state_event (with_state PAUSED r)] /\
  (forall lane now, record_lap lane now paused = (paused, [])) /\
  (forall now, race_tick_loop_round now paused = (paused, [])) /\
  pause paused = (paused, []) /\
  fst (resume paused) = create_tick_task e /\
  snd (resume paused) = [state_event r] /\
  (forall e0, is_running e0 = false -> pause e0 = (e0, [])) /\
  (forall e0,
     (forall r0, current_race e0 = Some r0 -> state r0 <> PAUSED) ->
     resume e0 = (e0, [])).
Proof.
  intros Hr Hs. cbv zeta.
  destruct e as [cr task]. simpl in Hr. subst cr.
  destruct r as [rid tid m tl lim fuel ls st started el cd fo].
  simpl in Hs. subst st.
  unfold pause, resume, record_lap, race_tick_loop_round, task_active,
    cancel_tick_task, create_tick_task, is_running.
  destruct task as [[|]|]; simpl; repeat split; auto.
  all: try (intros e0 H0; destruct (current_race e0) as [r0|]; auto).
  all: try (now rewrite H0).
  all: destruct (state r0) eqn:E; auto; exfalso; apply (H0 r0 eq_refl);
    exact E.
Qed.

Lemma pause_then_resume_witness :
  current_race demo_started = Some demo_race /\
  state demo_race = RUNNING /\
  fst (resume (fst (pause demo_started))) = create_tick_task demo_started.
Proof.
  split; [reflexivity|]. split; [reflexivity|].
  apply (pause_then_resume demo_started demo_race eq_refl eq_refl).
Defined.

(** * Finalisation and the finish order *)

Lemma finish_remaining_order (d : Dict.t LaneState) (order : list Z) :
  snd (finish_remaining d order) = order ++ unfinished_numbers d.
Proof.
  revert order. induction d as [|[k l] d IH]; intros order.
  - simpl. now rewrite app_nil_r.
  - simpl. unfold unfinished_numbers. simpl.
    destruct (finished l) eqn:Ef; simpl.
    + specialize (IH order).
      destruct (finish_remaining d order) as [d' o']. exact IH.
    + specialize (IH (order ++ [lane_number l])).
      destruct (finish_remaining d (order ++ [lane_number l])) as [d' o'].
      simpl in *. rewrite IH, <- app_assoc. reflexivity.
Qed.

Lemma finish_remaining_keys (d : Dict.t LaneState) (order : list Z) :
  Dict.keys (fst (finish_remaining d order)) = Dict.keys d.
Proof.
  revert order. induction d as [|[k l] d IH]; intros order; simpl; auto.
  destruct (finished l).
  - specialize (IH order).
    destruct (finish_remaining d order) as [d' o']. simpl in *. now f_equal.
  - specialize (IH (order ++ [lane_number l])).
    destruct (finish_remaining d (order ++ [lane_number l])) as [d' o'].
    simpl in *. now f_equal.
Qed.

Lemma finish_remaining_get_forward (k : Z) (l : LaneState)
    (d : Dict.t LaneState) (order : list Z) :
  Dict.get k d = Some l ->
  exists pos,
    Dict.get k (fst (finish_remaining d order)) =
    Some (if finished l then l else mark_finished pos l).
Proof.
  revert order. induction d as [|[k0 l0] d IH]; intros order; simpl.
  - discriminate.
  - destruct (finished l0) eqn:Ef.
    + specialize (IH order).
      destruct (finish_remaining d order) as [d' o']. simpl in *.
      destruct (k =? k0); auto.
      intros [= <-]. exists 0. now rewrite Ef.
    + specialize (IH (order ++ [lane_number l0])).
      destruct (finish_remaining d (order ++ [lane_number l0])) as [d' o'].
      simpl in *. destruct (k =? k0); auto.
      intros [= <-]. exists (Py.len order + 1). now rewrite Ef.
Qed.

Lemma finish_race_closed (e : Engine) (r : RaceState) :
  current_race e = Some r ->
  finish_race e =
  (with_current_race (finalised r) (cancel_tick_task e),
   [finished_event (finalised r)]).
Proof.
  intros Hr. unfold finish_race, finalised.
  rewrite current_race_cancel, Hr.
  destruct (finish_remaining (lanes (with_state FINISHED r))
              (finish_order (with_state FINISHED r))) as [d' o'] eqn:Hrem.
  simpl in Hrem. rewrite Hrem. reflexivity.
Qed.

(** X4: [_finish_race] on a session sets it FINISHED, marks every lane
    finished, cancels the tick task and broadcasts one [race:finished]
    message.  The lanes keep their keys; a lane finished before is left as it
    was, one still racing is only marked; [finish_order] grows by the numbers
    of the lanes still racing, in the order of the lanes dict.  A second call
    changes nothing more but broadcasts the same message again. *)
Theorem finish_race_finalises (e : Engine) (r : RaceState) :
  current_race e = Some r ->
  exists r',
    current_race (fst (finish_race e)) = Some r' /\
    state r' = FINISHED /\
    forallb finished (Dict.values (lanes r')) = true /\
    Dict.keys (lanes r') = Dict.keys (lanes r) /\
    finish_order r' = finish_order r ++ unfinished_numbers (lanes r) /\
    (forall k l, Dict.get k (lanes r) = Some l ->
       exists pos,
         Dict.get k (lanes r') =
         Some (if finished l then l else mark_finished pos l)) /\
    task_active (fst (finish_race e)) = false /\
    snd (finish_race e) = [finished_event r'] /\
    finish_race (fst (finish_race e)) =
    (fst (finish_race e), [finished_event r']).
Proof.
  intros Hr.
  assert (Hkeys := finish_remaining_keys (lanes r) (finish_order r)).
  assert (Hord := finish_remaining_order (lanes r) (finish_order r)).
  assert (Hfin := finish_remaining_finished (lanes r) (finish_order r)).
  assert (Hget := fun k l =>
            finish_remaining_get_forward k l (lanes r) (finish_order r)).
  rewrite (finish_race_closed e r Hr).
  exists (finalised r). unfold finalised in *.
  destruct (finish_remaining (lanes r) (finish_order r)) as [d' o'].
  simpl in *.
  split; [reflexivity|]. split; [reflexivity|]. split; [exact Hfin|].
  split; [exact Hkeys|]. split; [exact Hord|]. split; [exact Hget|].
  split.
  { destruct e as [cr [[|]|]]; reflexivity. }
  split; [reflexivity|].
  rewrite (finish_race_all_finished _
             (with_finish_order o' (with_lanes d' (with_state FINISHED r))));
    [|reflexivity|exact Hfin].
  destruct e as [cr [t|]]; reflexivity.
Qed.

Lemma finish_race_finalises_witness :
  current_race demo_after_two = Some demo_race_two /\
  exists r',
    current_race (fst (finish_race demo_after_two)) = Some r' /\
    finish_order r' = [1; 2].
Proof.
  split; [reflexivity|].
  destruct (finish_race_finalises demo_after_two demo_race_two eq_refl)
    as (r' & H1 & _ & _ & _ & H5 & _).
  exists r'. split; [exact H1|]. rewrite H5. reflexivity.
Defined.

(** ** The finish order and the positions *)

Lemma get_of_key {V : Type} (k : Z) (d : Dict.t V) :
  In k (Dict.keys d) -> exists v, Dict.get k d = Some v.
Proof.
  induction d as [|[k0 v0] d IH]; simpl; [intros []|].
  destruct (k =? k0) eqn:E; [eauto|].
  apply Z.eqb_neq in E. intros [H|H]; [congruence|auto].
Qed.

Lemma key_of_get {V : Type} (k : Z) (v : V) (d : Dict.t V) :
  Dict.get k d = Some v -> In k (Dict.keys d).
Proof.
  intros H. apply get_In in H. unfold Dict.keys.
  change k with (fst (k, v)). now apply in_map.
Qed.

Lemma NoDup_snoc (o : list Z) (k : Z) :
  NoDup o -> ~ In k o -> NoDup (o ++ [k]).
Proof.
  induction o as [|x o IH]; simpl; intros Hn Hk.
  - constructor; [intros []|constructor].
  - inversion Hn as [|? ? Hx Ho]; subst. constructor.
    + rewrite in_app_iff. simpl. intros [H|[H|[]]]; [auto|].
      subst. apply Hk. now left.
    + apply IH; auto.
Qed.

Lemma placed_same (o : list Z) (k : Z) (l l' : LaneState) :
  same_standing l l' -> placed o k l -> placed o k l'.
Proof.
  intros (_ & Hf & Hp). unfold placed. now rewrite Hf, Hp.
Qed.

Lemma placed_app (o extra : list Z) (k : Z) (l : LaneState) :
  placed o k l -> ~ In k extra -> placed (o ++ extra) k l.
Proof.
  unfold placed. destruct (finished l).
  - intros (i & Hp & Hn) _. exists i. split; auto.
    rewrite nth_error_app1; auto.
    apply nth_error_Some. congruence.
  - intros Ho He. rewrite in_app_iff. tauto.
Qed.

Lemma placed_last (o extra : list Z) (k : Z) (l : LaneState) :
  placed (o ++ k :: extra) k (mark_finished (Py.len o + 1) l).
Proof.
  unfold placed. simpl. exists (List.length o). split; [reflexivity|].
  rewrite nth_error_app2 by lia. now rewrite Nat.sub_diag.
Qed.

Lemma same_standing_refl (l : LaneState) : same_standing l l.
Proof. repeat split. Qed.

Lemma same_standing_tick_lane (fuel : bool) (now : Q) (l : LaneState) :
  same_standing l (tick_lane fuel now l).
Proof.
  unfold tick_lane, update_position_estimate.
  destruct (finished l) eqn:Ef; [apply same_standing_refl|].
  destruct (Qeq_bool (last_lap_timestamp l) 0);
    destruct (Py.Qltb 0 (power_level l)); destruct fuel;
    repeat split; simpl; auto.
Qed.

Lemma same_standing_counted_lane (t : Z) (now : Q) (l : LaneState) :
  same_standing l (counted_lane t now l).
Proof.
  destruct (counted_lane_fields t now l)
    as (_ & _ & _ & _ & _ & _ & F7 & F8 & F9 & _).
  repeat split; auto.
Qed.

Lemma podium_same_lanes (r r' : RaceState) :
  lanes r' = lanes r -> finish_order r' = finish_order r ->
  podium_ok r -> podium_ok r'.
Proof.
  intros Hl Ho [H1 H2 H3 H4 H5]. constructor; rewrite ?Hl, ?Ho; auto.
Qed.

Lemma podium_set (r r' : RaceState) (k : Z) (l l' : LaneState) :
  podium_ok r ->
  Dict.get k (lanes r) = Some l ->
  same_standing l l' ->
  lanes r' = Dict.set k l' (lanes r) ->
  finish_order r' = finish_order r ->
  podium_ok r'.
Proof.
  intros [H1 H2 H3 H4 H5] Hg Hs Hl Ho.
  assert (Hkeys := keys_set_present k l' l (lanes r) Hg).
  constructor; rewrite ?Hl, ?Ho, ?Hkeys; auto.
  - apply (Forall_set (fun k v => lane_number v = k)); auto.
    destruct Hs as (Hn & _). rewrite Hn.
    apply (Forall_get (fun k v => lane_number v = k) _ _ _ H2 Hg).
  - apply (Forall_set (placed (finish_order r))); auto.
    apply (placed_same _ _ l); auto.
    apply (Forall_get (placed (finish_order r)) _ _ _ H5 Hg).
Qed.

Lemma podium_map (r r' : RaceState) (f : LaneState -> LaneState) :
  podium_ok r ->
  (forall l, same_standing l (f l)) ->
  lanes r' = Dict.map_values f (lanes r) ->
  finish_order r' = finish_order r ->
  podium_ok r'.
Proof.
  intros [H1 H2 H3 H4 H5] Hf Hl Ho.
  constructor; rewrite ?Hl, ?Ho, ?keys_map_values; auto.
  - apply (Forall_map_values (fun k v => lane_number v = k)); auto.
    intros k v Hv. destruct (Hf v) as (Hn & _). congruence.
  - apply (Forall_map_values (placed (finish_order r))); auto.
    intros k v Hv. now apply (placed_same _ _ v).
Qed.

Lemma placed_set_finisher (d : Dict.t LaneState) (o : list Z) (k : Z)
    (l l1 : LaneState) :
  NoDup (Dict.keys d) ->
  Forall (fun kv => placed o (fst kv) (snd kv)) d ->
  Dict.get k d = Some l ->
  Forall (fun kv => placed (o ++ [k]) (fst kv) (snd kv))
    (Dict.set k (mark_finished (Py.len o + 1) l1) d).
Proof.
  induction d as [|[k0 l0] d IH]; simpl; [discriminate|].
  intros Hnd Hpl Hg.
  inversion Hnd as [|? ? Hnotin Hrest]; subst.
  inversion Hpl as [|? ? Hhd Htl]; subst. simpl in Hhd.
  destruct (k =? k0) eqn:E.
  - apply Z.eqb_eq in E. subst k0. constructor.
    + simpl. apply placed_last.
    + rewrite Forall_forall in *. intros [k' l'] Hin. simpl.
      apply placed_app; [exact (Htl _ Hin)|].
      intros [Hk|[]]. subst k'. apply Hnotin.
      unfold Dict.keys. change k with (fst (k, l')). now apply in_map.
  - apply Z.eqb_neq in E. constructor.
    + simpl. apply placed_app; auto. intros [Hk|[]]. congruence.
    + apply IH; auto.
Qed.

Lemma podium_finisher (r : RaceState) (k : Z) (l l1 : LaneState) :
  podium_ok r ->
  Dict.get k (lanes r) = Some l ->
  finished l = false ->
  lane_number l1 = lane_number l ->
  podium_ok (race_with_finisher k l1 r).
Proof.
  intros [H1 H2 H3 H4 H5] Hg Hf Hn.
  assert (Hkeys := keys_set_present k
            (mark_finished (Py.len (finish_order r) + 1) l1) l (lanes r) Hg).
  assert (Hout : ~ In k (finish_order r)).
  { assert (H := Forall_get (placed (finish_order r)) _ _ _ H5 Hg).
    unfold placed in H. now rewrite Hf in H. }
  constructor; simpl; rewrite ?Hkeys; auto.
  - apply (Forall_set (fun k v => lane_number v = k)); auto. simpl.
    rewrite Hn.
    apply (Forall_get (fun k v => lane_number v = k) _ _ _ H2 Hg).
  - now apply NoDup_snoc.
  - intros x Hx. apply in_app_iff in Hx. destruct Hx as [Hx|[Hx|[]]].
    + now apply H4.
    + subst x. eapply key_of_get; eauto.
  - now apply (placed_set_finisher _ _ _ l).
Qed.

Lemma finish_remaining_placed (d : Dict.t LaneState) :
  forall o : list Z,
    NoDup (Dict.keys d) ->
    Forall (fun kv => lane_number (snd kv) = fst kv) d ->
    Forall (fun kv => placed o (fst kv) (snd kv)) d ->
    NoDup o ->
    Forall (fun kv =>
              placed (snd (finish_remaining d o)) (fst kv) (snd kv))
      (fst (finish_remaining d o)) /\
    Forall (fun kv => lane_number (snd kv) = fst kv)
      (fst (finish_remaining d o)) /\
    NoDup (snd (finish_remaining d o)) /\
    exists extra,
      snd (finish_remaining d o) = o ++ extra /\
      incl extra (Dict.keys d).
Proof.
  induction d as [|[k l] d IH]; intros o Hnd Hnum Hpl Ho.
  - simpl. repeat split; auto. exists []. split; [now rewrite app_nil_r|].
    intros x [].
  - simpl in Hnd. apply NoDup_cons_iff in Hnd. destruct Hnd as [Hnotin Hrest].
    assert (Hk := Forall_inv Hnum). assert (Hnums := Forall_inv_tail Hnum).
    assert (Hhd := Forall_inv Hpl). assert (Htl := Forall_inv_tail Hpl).
    simpl in Hk, Hhd.
    simpl. destruct (finished l) eqn:Ef.
    + destruct (IH o Hrest Hnums Htl Ho) as (A & B & C & extra & D & E).
      destruct (finish_remaining d o) as [d' o']. simpl in *.
      split; [|split; [|split]]; auto.
      * constructor; auto. simpl. rewrite D.
        apply placed_app; auto.
      * exists extra. split; auto. intros x Hx. right. now apply E.
    + assert (Hout : ~ In k o).
      { unfold placed in Hhd. now rewrite Ef in Hhd. }
      rewrite Hk.
      assert (Htl' : Forall (fun kv => placed (o ++ [k]) (fst kv) (snd kv)) d).
      { rewrite Forall_forall in *. intros [k' l'] Hin. simpl.
        apply placed_app; [exact (Htl _ Hin)|].
        intros [Hx|[]]. subst k'. apply Hnotin.
        unfold Dict.keys. change k with (fst (k, l')). now apply in_map. }
      destruct (IH (o ++ [k]) Hrest Hnums Htl' (NoDup_snoc _ _ Ho Hout))
        as (A & B & C & extra & D & E).
      destruct (finish_remaining d (o ++ [k])) as [d' o']. simpl in *.
      split; [|split; [|split]]; auto.
      * constructor; auto. simpl. rewrite D, <- app_assoc. simpl.
        apply placed_last.
      * exists (k :: extra). split.
        -- rewrite D, <- app_assoc. reflexivity.
        -- intros x [Hx|Hx]; [now left|right; now apply E].
Qed.

Lemma podium_finalised (r : RaceState) :
  podium_ok r -> podium_ok (finalised r).
Proof.
  intros [H1 H2 H3 H4 H5].
  destruct (finish_remaining_placed (lanes r) (finish_order r) H1 H2 H5 H3)
    as (A & B & C & extra & D & E).
  assert (Hkeys := finish_remaining_keys (lanes r) (finish_order r)).
  unfold finalised.
  destruct (finish_remaining (lanes r) (finish_order r)) as [d' o'].
  simpl in *. constructor; simpl; rewrite ?Hkeys; auto.
  rewrite D. intros x Hx. apply in_app_iff in Hx.
  destruct Hx as [Hx|Hx]; auto.
Qed.

Lemma engine_podium_finish_race (e : Engine) :
  engine_podium_ok e -> engine_podium_ok (fst (finish_race e)).
Proof.
  unfold engine_podium_ok.
  destruct (current_race e) as [r|] eqn:Hr.
  - rewrite (finish_race_closed e r Hr). simpl. apply podium_finalised.
  - unfold finish_race. rewrite current_race_cancel, Hr. simpl.
    now rewrite current_race_cancel, Hr.
Qed.

Lemma engine_podium_record_lap (lane : Z) (now : Q) (e : Engine) :
  engine_podium_ok e -> engine_podium_ok (fst (record_lap lane now e)).
Proof.
  intros He.
  destruct (is_running e) eqn:Hrun;
    [|rewrite record_lap_refused; auto].
  destruct (lane_of lane e) as [l|] eqn:Hl;
    [|rewrite record_lap_refused; auto].
  destruct (finished l) eqn:Hf;
    [rewrite record_lap_refused; eauto|].
  apply is_running_spec in Hrun. destruct Hrun as (r & Hr & Hs).
  unfold lane_of in Hl. rewrite Hr in Hl.
  assert (Hacc : accepts_lap lane e r l) by (repeat split; auto).
  unfold engine_podium_ok in He. rewrite Hr in He.
  destruct (debounced now l) eqn:Hd.
  - rewrite (record_lap_debounced _ _ _ _ _ Hacc Hd).
    unfold engine_podium_ok. simpl.
    eapply (podium_set r _ lane l); eauto; try reflexivity.
    repeat split.
  - rewrite (record_lap_counted_closed _ _ _ _ _ Hacc Hd). cbv zeta.
    assert (Hst := same_standing_counted_lane (lap_ms now l) now l).
    assert (Hfin : podium_ok
              (race_with_finisher lane
                 (counted_lane (lap_ms now l) now l) r)).
    { apply (podium_finisher r lane l); auto. apply Hst. }
    destruct (reaches_target r (current_lap l + 1)).
    + destruct (forallb finished _); unfold engine_podium_ok; simpl.
      * eapply podium_same_lanes; [| |exact Hfin]; reflexivity.
      * exact Hfin.
    + unfold engine_podium_ok. simpl.
      eapply (podium_set r _ lane l); eauto; reflexivity.
Qed.

Lemma engine_podium_step (op : Op) (e : Engine) :
  engine_podium_ok e -> engine_podium_ok (fst (step op e)).
Proof.
  intros He. destruct op; simpl.
  - unfold setup_race. destruct (is_running e); simpl; auto.
    unfold engine_podium_ok. simpl.
    destruct (fill_lanes_spec participants []) as (H1 & H2 & _).
    assert (Hfresh := build_lanes_fresh participants).
    constructor; simpl.
    + apply H1. constructor.
    + eapply Forall_impl; [|exact Hfresh].
      intros [k l] [c Hc]. simpl in *. now subst l.
    + constructor.
    + intros x [].
    + eapply Forall_impl; [|exact Hfresh].
      intros [k l] [c Hc]. simpl in *. subst l. unfold placed. simpl. tauto.
  - unfold countdown_begin, engine_podium_ok in *.
    destruct (current_race e) as [r|] eqn:Hr; simpl; rewrite ?Hr; auto.
    eapply podium_same_lanes; [| |exact He]; reflexivity.
  - unfold countdown_step, engine_podium_ok in *.
    destruct (current_race e) as [r|] eqn:Hr; simpl; rewrite ?Hr; auto.
    eapply podium_same_lanes; [| |exact He]; reflexivity.
  - unfold start_race, engine_podium_ok in *.
    destruct (current_race e) as [r|] eqn:Hr; simpl; rewrite ?Hr; auto.
    eapply (podium_map r _ (with_last_lap_timestamp now)); eauto;
      try reflexivity.
    intros l. repeat split.
  - unfold race_tick_loop_round.
    destruct (tick_task e) as [[|]|]; auto.
    destruct (is_running e); auto.
    unfold tick.
    destruct (current_race e) as [r|] eqn:Hr; auto.
    destruct (start_time r) as [started|]; auto.
    destruct (negb (Py.truthy started)); auto.
    assert (Hmid : podium_ok
      (with_lanes
         (Dict.map_values (tick_lane (fuel_simulation_enabled r) now)
            (lanes r))
         (with_elapsed_time_ms (Py.int ((now - started) * 1000)%Q) r))).
    { unfold engine_podium_ok in He. rewrite Hr in He.
      eapply (podium_map r _ (tick_lane (fuel_simulation_enabled r) now));
        eauto; try reflexivity.
      intros l. apply same_standing_tick_lane. }
    match goal with
    | |- context [time_limit_reached ?x] => destruct (time_limit_reached x)
    end.
    + apply engine_podium_finish_race. exact Hmid.
    + destruct (_ =? 0); exact Hmid.
  - now apply engine_podium_record_lap.
  - unfold set_power.
    destruct (current_race e) as [r|] eqn:Hr; auto.
    destruct (Dict.get lane (lanes r)) as [l|] eqn:Hg; auto.
    unfold engine_podium_ok in *. rewrite Hr in He. simpl.
    eapply (podium_set r _ lane l); eauto; try reflexivity.
    repeat split.
  - unfold pause, engine_podium_ok in *.
    destruct (current_race e) as [r|] eqn:Hr; [|untouched Hr].
    destruct (state_eqb (state r) RUNNING); [|untouched Hr].
    simpl. rewrite current_race_cancel. simpl.
    eapply podium_same_lanes; [| |exact He]; reflexivity.
  - unfold resume, engine_podium_ok in *.
    destruct (current_race e) as [r|] eqn:Hr; [|untouched Hr].
    destruct (state_eqb (state r) PAUSED); [|untouched Hr].
    simpl. eapply podium_same_lanes; [| |exact He]; reflexivity.
  - unfold stop, engine_podium_ok in *. rewrite current_race_cancel.
    destruct (current_race e) as [r|] eqn:Hr; [|untouched Hr].
    simpl. eapply podium_same_lanes; [| |exact He]; reflexivity.
Qed.

Lemma reachable_podium (e : Engine) : reachable e -> engine_podium_ok e.
Proof.
  induction 1 as [|op e Hreach IH]; [exact I|now apply engine_podium_step].
Qed.

(** X5: in every reachable engine [finish_order] has no lane twice and holds
    the finished lanes, each at the place its position names: a known lane is
    finished exactly when its number is in [finish_order], the lane at place
    [i] (from 0) of [finish_order] is a known lane of [finish_position]
    [i + 1], and an unfinished lane has no position.  So the positions given
    out are 1, 2, ..., one per finished lane. *)
Theorem finish_order_holds_the_positions (e : Engine) (r : RaceState) :
  reachable e ->
  current_race e = Some r ->
  NoDup (finish_order r) /\
  List.length (finish_order r) = count_finished (lanes r) /\
  (forall k l, Dict.get k (lanes r) = Some l ->
     (finished l = true <-> In k (finish_order r)) /\
     (finished l = false -> finish_position l = None)) /\
  (forall i k, nth_error (finish_order r) i = Some k ->
     exists l, Dict.get k (lanes r) = Some l /\
               finished l = true /\
               finish_position l = Some (Z.of_nat i + 1)).
Proof.
  intros Hreach Hr.
  assert (Hpod := reachable_podium e Hreach).
  assert (Hok := reachable_ok e Hreach).
  unfold engine_podium_ok, engine_ok in *. rewrite Hr in *.
  destruct Hpod as [H1 H2 H3 H4 H5]. destruct Hok as [Hlanes Hcount].
  assert (Hin : forall k l, Dict.get k (lanes r) = Some l ->
            (finished l = true <-> In k (finish_order r))).
  { intros k l Hg.
    assert (H := Forall_get (placed (finish_order r)) _ _ _ H5 Hg).
    unfold placed in H. destruct (finished l).
    - destruct H as (i & _ & Hn). split; auto. intros _.
      eapply nth_error_In; eauto.
    - split; [discriminate|]. intros Habs. contradiction. }
  split; [exact H3|]. split; [exact Hcount|]. split.
  - intros k l Hg. split; [now apply Hin|].
    apply (ok_finish _ _ _ _ _ (Forall_get (lane_inv r) _ _ _ Hlanes Hg)).
  - intros i k Hn.
    assert (Hk : In k (Dict.keys (lanes r)))
      by (apply H4; eapply nth_error_In; eauto).
    destruct (get_of_key k (lanes r) Hk) as [l Hg].
    exists l. split; [exact Hg|].
    assert (Hf : finished l = true)
      by (apply (Hin k l Hg); eapply nth_error_In; eauto).
    split; [exact Hf|].
    assert (H := Forall_get (placed (finish_order r)) _ _ _ H5 Hg).
    unfold placed in H. rewrite Hf in H. destruct H as (j & Hp & Hj).
    assert (Hij : i = j).
    { apply (proj1 (NoDup_nth_error (finish_order r)) H3 i j).
      - apply nth_error_Some. congruence.
      - congruence. }
    now subst j.
Qed.

Lemma finish_order_holds_the_positions_witness :
  reachable demo_finished_powered /\
  exists r,
    current_race demo_finished_powered = Some r /\
    NoDup (finish_order r).
Proof.
  split; [exact demo_finished_powered_reachable|].
  eexists. split; [reflexivity|].
  apply (finish_order_holds_the_positions demo_finished_powered _
           demo_finished_powered_reachable eq_refl).
Defined.

(** * Lane-wise invariants and relations over the calls *)

Section EveryLane.

Variable P : Z -> LaneState -> Prop.

Hypothesis P_new : forall k c, P k (new_lane k c).
Hypothesis P_stamp : forall k l v, P k l -> P k (with_last_lap_timestamp v l).
Hypothesis P_power :
  forall k l v, P k l -> P k (with_power_level (clamp_power v) l).
Hypothesis P_tick : forall k l fuel now, P k l -> P k (tick_lane fuel now l).
Hypothesis P_count : forall k l t now, P k l -> P k (counted_lane t now l).
Hypothesis P_mark : forall k l pos, P k l -> P k (mark_finished pos l).

Lemma finish_remaining_every (d : Dict.t LaneState) (order : list Z) :
  Forall (fun kv => P (fst kv) (snd kv)) d ->
  Forall (fun kv => P (fst kv) (snd kv)) (fst (finish_remaining d order)).
Proof.
  revert order. induction d as [|[k l] d IH]; intros order Hd; simpl; auto.
  assert (Hhd := Forall_inv Hd). assert (Htl := Forall_inv_tail Hd).
  simpl in Hhd. destruct (finished l).
  - specialize (IH order Htl).
    destruct (finish_remaining d order) as [d' o']. constructor; auto.
  - specialize (IH (order ++ [lane_number l]) Htl).
    destruct (finish_remaining d (order ++ [lane_number l])) as [d' o'].
    constructor; auto. simpl. now apply P_mark.
Qed.

Lemma finish_race_every (e : Engine) :
  every_lane P e -> every_lane P (fst (finish_race e)).
Proof.
  unfold every_lane.
  destruct (current_race e) as [r|] eqn:Hr.
  - rewrite (finish_race_closed e r Hr). simpl. unfold finalised.
    intros H. apply (finish_remaining_every _ (finish_order r)) in H.
    destruct (finish_remaining (lanes r) (finish_order r)) as [d' o'].
    exact H.
  - unfold finish_race. rewrite current_race_cancel, Hr. simpl.
    now rewrite current_race_cancel, Hr.
Qed.

Lemma record_lap_every (lane : Z) (now : Q) (e : Engine) :
  every_lane P e -> every_lane P (fst (record_lap lane now e)).
Proof.
  intros He.
  destruct (is_running e) eqn:Hrun;
    [|rewrite record_lap_refused; auto].
  destruct (lane_of lane e) as [l|] eqn:Hl;
    [|rewrite record_lap_refused; auto].
  destruct (finished l) eqn:Hf;
    [rewrite record_lap_refused; eauto|].
  apply is_running_spec in Hrun. destruct Hrun as (r & Hr & Hs).
  unfold lane_of in Hl. rewrite Hr in Hl.
  assert (Hacc : accepts_lap lane e r l) by (repeat split; auto).
  unfold every_lane in He. rewrite Hr in He.
  assert (Hlane : P lane l) by (apply (Forall_get P _ _ _ He Hl)).
  destruct (debounced now l) eqn:Hd.
  - rewrite (record_lap_debounced _ _ _ _ _ Hacc Hd).
    unfold every_lane. simpl. apply (Forall_set P); auto.
  - rewrite (record_lap_counted_closed _ _ _ _ _ Hacc Hd). cbv zeta.
    destruct (reaches_target r (current_lap l + 1)).
    + destruct (forallb finished _); unfold every_lane; simpl;
        apply (Forall_set P); auto.
    + unfold every_lane. simpl. apply (Forall_set P); auto.
Qed.

(** A property of the lanes that the lane-level assignments of the methods
    keep is kept by every call. *)
Lemma step_keeps_every_lane (op : Op) (e : Engine) :
  every_lane P e -> every_lane P (fst (step op e)).
Proof.
  intros He. destruct op; simpl.
  - unfold setup_race. destruct (is_running e); simpl; auto.
    unfold every_lane. simpl.
    eapply Forall_impl; [|apply (build_lanes_fresh participants)].
    intros [k l] [c Hc]. simpl in *. subst l. apply P_new.
  - unfold countdown_begin, every_lane in *.
    destruct (current_race e) as [r|] eqn:Hr; simpl; rewrite ?Hr; auto.
  - unfold countdown_step, every_lane in *.
    destruct (current_race e) as [r|] eqn:Hr; simpl; rewrite ?Hr; auto.
  - unfold start_race, every_lane in *.
    destruct (current_race e) as [r|] eqn:Hr; simpl; rewrite ?Hr; auto.
    apply (Forall_map_values P); auto.
  - unfold race_tick_loop_round.
    destruct (tick_task e) as [[|]|]; auto.
    destruct (is_running e); auto.
    unfold tick.
    destruct (current_race e) as [r|] eqn:Hr; auto.
    destruct (start_time r) as [started|]; auto.
    destruct (negb (Py.truthy started)); auto.
    assert (Hmid : forall e0, every_lane P
      (with_current_race
         (with_lanes
            (Dict.map_values (tick_lane (fuel_simulation_enabled r) now)
               (lanes r))
            (with_elapsed_time_ms (Py.int ((now - started) * 1000)%Q) r))
         e0)).
    { intros e0. unfold every_lane in *. rewrite Hr in He. simpl.
      apply (Forall_map_values P); auto. }
    match goal with
    | |- context [time_limit_reached ?x] => destruct (time_limit_reached x)
    end.
    + apply finish_race_every. apply Hmid.
    + destruct (_ =? 0); apply Hmid.
  - now apply record_lap_every.
  - unfold set_power.
    destruct (current_race e) as [r|] eqn:Hr; auto.
    destruct (Dict.get lane (lanes r)) as [l|] eqn:Hg; auto.
    unfold every_lane in *. rewrite Hr in He. simpl.
    apply (Forall_set P); auto. apply P_power.
    apply (Forall_get P _ _ _ He Hg).
  - unfold pause, every_lane in *.
    destruct (current_race e) as [r|] eqn:Hr; [|untouched Hr].
    destruct (state_eqb (state r) RUNNING); untouched Hr.
  - unfold resume, every_lane in *.
    destruct (current_race e) as [r|] eqn:Hr; [|untouched Hr].
    destruct (state_eqb (state r) PAUSED); untouched Hr.
  - unfold stop, every_lane in *. rewrite current_race_cancel.
    destruct (current_race e) as [r|] eqn:Hr; untouched Hr.
Qed.

Lemma reachable_every_lane (e : Engine) : reachable e -> every_lane P e.
Proof.
  induction 1 as [|op e Hreach IH]; [exact I|].
  now apply step_keeps_every_lane.
Qed.

End EveryLane.

Lemma finalised_get (k : Z) (l : LaneState) (r : RaceState) :
  Dict.get k (lanes r) = Some l ->
  exists pos,
    Dict.get k (lanes (finalised r)) =
    Some (if finished l then l else mark_finished pos l).
Proof.
  intros Hg.
  destruct (finish_remaining_get_forward k l (lanes r) (finish_order r) Hg)
    as [pos Hpos].
  exists pos. unfold finalised.
  destruct (finish_remaining (lanes r) (finish_order r)) as [d' o'].
  exact Hpos.
Qed.

(** The lane that [_tick] leaves, when it gets past its guard: the loop body
    applied, and the lane marked if the time limit then ends the race. *)
Lemma tick_started_lane (k : Z) (l : LaneState) (now : Q) (e : Engine)
    (r : RaceState) :
  current_race e = Some r ->
  tick_started e = true ->
  Dict.get k (lanes r) = Some l ->
  exists l',
    lane_of k (fst (tick now e)) = Some l' /\
    (l' = tick_lane (fuel_simulation_enabled r) now l \/
     finished l = false /\
     exists pos,
       l' = mark_finished pos (tick_lane (fuel_simulation_enabled r) now l)).
Proof.
  intros Hr Hst Hl. unfold tick_started, tick in *. rewrite Hr in *.
  destruct (start_time r) as [started|]; [|discriminate].
  rewrite Hst. simpl.
  set (l1 := tick_lane (fuel_simulation_enabled r) now l).
  set (rmid := with_lanes
         (Dict.map_values (tick_lane (fuel_simulation_enabled r) now)
            (lanes r))
         (with_elapsed_time_ms (Py.int ((now - started) * 1000)%Q) r)).
  assert (Hmid : Dict.get k (lanes rmid) = Some l1).
  { unfold rmid. simpl. now rewrite get_map_values, Hl. }
  destruct (time_limit_reached rmid).
  - rewrite (finish_race_closed (with_current_race rmid e) rmid eq_refl).
    destruct (finalised_get k l1 rmid Hmid) as [pos Hpos].
    eexists. split; [exact Hpos|].
    destruct (finished l1) eqn:Hf1; [now left|right].
    split; [|eauto].
    unfold l1 in Hf1. now rewrite finished_tick_lane in Hf1.
  - exists l1. split; [|now left].
    destruct (_ =? 0); exact Hmid.
Qed.

Section LaneRelation.

Variable R : LaneState -> LaneState -> Prop.
Variable Pre : LaneState -> Prop.

Hypothesis R_refl : forall l, R l l.
Hypothesis R_trans : forall l1 l2 l3, R l1 l2 -> R l2 l3 -> R l1 l3.
Hypothesis R_stamp : forall l v, R l (with_last_lap_timestamp v l).
Hypothesis R_tick : forall l fuel now, Pre l -> R l (tick_lane fuel now l).
Hypothesis R_count : forall l t now, R l (counted_lane t now l).
Hypothesis R_mark :
  forall l pos, finished l = false -> R l (mark_finished pos l).

(** A relation between the states of a lane that the lane-level assignments
    of the methods respect holds across every call but [setup_race]. *)
Lemma step_lane_related (op : Op) (e : Engine) (k : Z) (l : LaneState) :
  is_setup op = false ->
  (forall lane v, op = OpSetPower lane v ->
     forall l0, R l0 (with_power_level (clamp_power v) l0)) ->
  lane_of k e = Some l ->
  Pre l ->
  exists l', lane_of k (fst (step op e)) = Some l' /\ R l l'.
Proof.
  intros Hop R_power Hl Hpre.
  assert (Hsame : forall e', lane_of k e' = lane_of k e ->
            exists l', lane_of k e' = Some l' /\ R l l').
  { intros e' He'. exists l. rewrite He'. auto. }
  destruct op; try discriminate; simpl.
  - apply Hsame. unfold countdown_begin, lane_of.
    destruct (current_race e) eqn:Hr; simpl; rewrite ?Hr; reflexivity.
  - apply Hsame. unfold countdown_step, lane_of.
    destruct (current_race e) eqn:Hr; simpl; rewrite ?Hr; reflexivity.
  - exists (with_last_lap_timestamp now l). split; auto.
    unfold start_race, lane_of in *.
    destruct (current_race e) as [r|]; [|discriminate]. simpl.
    rewrite get_map_values, Hl. reflexivity.
  - unfold race_tick_loop_round.
    destruct (tick_task e) as [[|]|]; try (now apply Hsame).
    destruct (is_running e); try (now apply Hsame).
    destruct (tick_started e) eqn:Hst;
      [|rewrite tick_not_started by assumption; now apply Hsame].
    unfold lane_of in Hl.
    destruct (current_race e) as [r|] eqn:Hr; [|discriminate].
    destruct (tick_started_lane k l now e r Hr Hst Hl)
      as (l' & Hl' & [->|(Hf & pos & ->)]); eexists; split; eauto.
    eapply R_trans; [apply R_tick; exact Hpre|].
    apply R_mark. now rewrite finished_tick_lane.
  - destruct (Z.eq_dec k lane) as [->|Hne];
      [|apply Hsame; now apply record_lap_other_lane].
    destruct (is_running e) eqn:Hrun;
      [|apply Hsame; rewrite record_lap_refused; auto].
    destruct (finished l) eqn:Hf;
      [apply Hsame; rewrite record_lap_refused; eauto|].
    apply is_running_spec in Hrun. destruct Hrun as (r & Hr & Hs).
    assert (Hacc : accepts_lap lane e r l).
    { unfold lane_of in Hl. rewrite Hr in Hl. repeat split; auto. }
    destruct (debounced now l) eqn:Hd.
    + rewrite (record_lap_debounced _ _ _ _ _ Hacc Hd). simpl.
      rewrite lane_of_with_lanes, get_set_same. eauto.
    + rewrite (record_lap_counted_lane _ _ _ _ _ Hacc Hd).
      eexists. split; [reflexivity|].
      destruct (reaches_target r (current_lap l + 1)); auto.
      eapply R_trans; [apply R_count|]. apply R_mark.
      destruct (counted_lane_fields (lap_ms now l) now l)
        as (_ & _ & _ & _ & _ & _ & F7 & _).
      congruence.
  - assert (H := set_power_lane lane k power e). rewrite Hl in H.
    unfold set_power, lane_of in *.
    destruct (current_race e) as [r|] eqn:Hr; [|discriminate].
    destruct (Dict.get lane (lanes r)) as [l0|] eqn:Hg; simpl;
      rewrite ?Hr; [|eauto].
    destruct (Z.eq_dec k lane) as [->|Hne].
    + rewrite get_set_same. rewrite Hg in Hl. injection Hl as ->.
      eexists. split; [reflexivity|]. now apply (R_power lane power).
    + rewrite get_set_other by auto. eauto.
  - apply Hsame. unfold pause, lane_of.
    destruct (current_race e) as [r|] eqn:Hr; [|untouched Hr].
    destruct (state_eqb (state r) RUNNING); untouched Hr.
  - apply Hsame. unfold resume, lane_of.
    destruct (current_race e) as [r|] eqn:Hr; [|untouched Hr].
    destruct (state_eqb (state r) PAUSED); untouched Hr.
  - apply Hsame. unfold stop, lane_of. rewrite current_race_cancel.
    destruct (current_race e) as [r|] eqn:Hr; untouched Hr.
Qed.

End LaneRelation.

(** * Fuel *)

Lemma power_tick_lane (fuel : bool) (now : Q) (l : LaneState) :
  power_level (tick_lane fuel now l) = power_level l.
Proof.
  unfold tick_lane, update_position_estimate.
  destruct (finished l); auto.
  destruct (Qeq_bool (last_lap_timestamp l) 0);
    destruct (Py.Qltb 0 (power_level l)); destruct fuel; reflexivity.
Qed.

Lemma fuel_tick_lane (fuel : bool) (now : Q) (l : LaneState) :
  fuel_level (tick_lane fuel now l) = fuel_after_tick fuel l.
Proof.
  unfold tick_lane, update_position_estimate, fuel_after_tick.
  destruct (finished l); [now rewrite andb_false_r|].
  destruct (Qeq_bool (last_lap_timestamp l) 0);
    destruct (Py.Qltb 0 (power_level l)); destruct fuel; reflexivity.
Qed.

Lemma fuel_after_tick_range (fuel : bool) (k : Z) (l : LaneState) :
  levels_in_range k l ->
  (0 <= fuel_after_tick fuel l <= fuel_level l)%Q.
Proof.
  intros [[Hf0 Hf1] [Hp0 Hp1]]. unfold fuel_after_tick.
  destruct (fuel && negb (finished l)); [|split; [exact Hf0|apply Qle_refl]].
  split; [apply max2_nonneg|].
  unfold Py.max2.
  destruct (Py.Qltb 0 (fuel_level l - power_level l * (1 # 1000))); auto.
  apply (Qplus_le_l _ _ (power_level l * (1 # 1000))).
  setoid_replace (fuel_level l - power_level l * (1 # 1000)
                  + power_level l * (1 # 1000))%Q
    with (fuel_level l + 0)%Q by ring.
  apply Qplus_le_r. apply Qmult_le_0_compat; [exact Hp0|discriminate].
Qed.

Lemma levels_reachable (e : Engine) (k : Z) (l : LaneState) :
  reachable e -> lane_of k e = Some l -> levels_in_range k l.
Proof.
  intros Hreach Hl.
  assert (H : every_lane levels_in_range e).
  { refine (reachable_every_lane levels_in_range _ _ _ _ _ _ e Hreach).
    - intros k0 c. split; split; simpl; discriminate.
    - intros k0 l0 v H. exact H.
    - intros k0 l0 v [Hf _]. split; [exact Hf|apply clamp_range].
    - intros k0 l0 fuel now H. split.
      + rewrite fuel_tick_lane.
        destruct (fuel_after_tick_range fuel k0 l0 H) as [A B].
        split; [exact A|]. eapply Qle_trans; [exact B|apply H].
      + rewrite power_tick_lane. apply H.
    - intros k0 l0 t now H.
      destruct (counted_lane_fields t now l0)
        as (_ & _ & _ & _ & _ & _ & _ & _ & _ & _ & Fp).
      assert (Ff : fuel_level (counted_lane t now l0) = fuel_level l0).
      { unfold counted_lane. destruct (best_lap_time_ms l0);
          [destruct (_ <? _)|]; reflexivity. }
      unfold levels_in_range. rewrite Fp, Ff. exact H.
    - intros k0 l0 pos H. exact H. }
  unfold every_lane, lane_of in *.
  destruct (current_race e) as [r|]; [|discriminate].
  apply (Forall_get levels_in_range _ _ _ H Hl).
Qed.

(** X6: in every reachable engine the fuel of a lane lies in [[0, 100]].  A
    [_tick] that gets past its guard leaves, in a session with fuel simulation
    and on an unfinished lane, [max(0, fuel - power * 0.001)], and the fuel as
    it was otherwise; so a tick never raises the fuel and never takes it
    below 0. *)
Theorem fuel_in_range_and_burnt_by_ticks (e : Engine) (r : RaceState)
    (k : Z) (l : LaneState) (now : Q) :
  reachable e ->
  current_race e = Some r ->
  Dict.get k (lanes r) = Some l ->
  (0 <= fuel_level l <= 100)%Q /\
  exists l',
    lane_of k (fst (tick now e)) = Some l' /\
    fuel_level l' =
      (if tick_started e
       then fuel_after_tick (fuel_simulation_enabled r) l
       else fuel_level l) /\
    (0 <= fuel_level l' <= fuel_level l)%Q.
Proof.
  intros Hreach Hr Hg.
  assert (Hl : lane_of k e = Some l) by (unfold lane_of; now rewrite Hr).
  assert (Hlev := levels_reachable e k l Hreach Hl).
  split; [apply Hlev|].
  destruct (tick_started e) eqn:Hst.
  - destruct (tick_started_lane k l now e r Hr Hst Hg)
      as (l' & Hl' & [->|(_ & pos & ->)]);
      eexists; (split; [exact Hl'|]); simpl; rewrite fuel_tick_lane;
      (split; [reflexivity|]);
      apply (fuel_after_tick_range _ k); exact Hlev.
  - exists l. rewrite tick_not_started by assumption. simpl.
    split; [exact Hl|]. split; [reflexivity|].
    split; [apply Hlev|apply Qle_refl].
Qed.

Lemma fuel_in_range_and_burnt_by_ticks_witness :
  reachable demo_started /\
  current_race demo_started = Some demo_race /\
  Dict.get 1 (lanes demo_race) = Some (demo_lane 1 11) /\
  (0 <= fuel_level (demo_lane 1 11) <= 100)%Q.
Proof.
  split; [exact demo_started_reachable|].
  split; [reflexivity|]. split; [reflexivity|].
  apply (fuel_in_range_and_burnt_by_ticks demo_started demo_race 1
           (demo_lane 1 11) 11 demo_started_reachable eq_refl eq_refl).
Defined.

(** A lane at 80 % power in a session with fuel simulation: one tick burns
    0.08 of the tank. *)
Example tick_burns_fuel :
  option_map fuel_level
    (lane_of 1
       (fst (run [ OpSetup 1 1 demo_participants "race_laps" 3 None true;
                   OpStartRace 10;
                   OpSetPower 1 80;
                   OpTick (101 # 10) ] init)))
  = Some ((100 - 80 * (1 # 1000))%Q) /\
  (100 - 80 * (1 # 1000) == 9992 # 100)%Q.
Proof. split; vm_compute; reflexivity. Qed.

(** * What a lane keeps along a run *)

Lemma moves_refl (l : LaneState) : lane_moves_on l l.
Proof.
  repeat split; auto; try lia; try apply Qle_refl.
  exists []. now rewrite app_nil_r.
Qed.

Lemma moves_trans (l1 l2 l3 : LaneState) :
  lane_moves_on l1 l2 -> lane_moves_on l2 l3 -> lane_moves_on l1 l3.
Proof.
  intros (A1 & A2 & (x1 & A3) & A4 & A5 & A6)
         (B1 & B2 & (x2 & B3) & B4 & B5 & B6).
  split; [congruence|]. split; [congruence|].
  split; [exists (x1 ++ x2); rewrite B3, A3; now rewrite app_assoc|].
  split; [lia|]. split; [eapply Qle_trans; eauto|].
  intros Hf. destruct (A6 Hf) as [Hf2 Hp2]. destruct (B6 Hf2) as [Hf3 Hp3].
  split; congruence.
Qed.

Lemma moves_tick (k : Z) (l : LaneState) (fuel : bool) (now : Q) :
  levels_in_range k l -> lane_moves_on l (tick_lane fuel now l).
Proof.
  intros Hlev.
  assert (Hfuel := fuel_after_tick_range fuel k l Hlev).
  rewrite <- (fuel_tick_lane fuel now l) in Hfuel.
  destruct (lane_kept_tick_lane fuel now l) as [Hlaps Hkeep].
  destruct (same_standing_tick_lane fuel now l) as (Hn & _).
  split; [exact Hn|].
  assert (Hrest : car_id (tick_lane fuel now l) = car_id l /\
                  current_lap (tick_lane fuel now l) = current_lap l).
  { unfold tick_lane, update_position_estimate.
    destruct (finished l); auto.
    destruct (Qeq_bool (last_lap_timestamp l) 0);
      destruct (Py.Qltb 0 (power_level l)); destruct fuel; auto. }
  destruct Hrest as [Hc Hlap].
  split; [exact Hc|].
  split; [exists []; now rewrite app_nil_r|].
  split; [lia|]. split; [apply Hfuel|exact Hkeep].
Qed.

Lemma moves_count (l : LaneState) (t : Z) (now : Q) :
  lane_moves_on l (counted_lane t now l).
Proof.
  destruct (counted_lane_fields t now l)
    as (F1 & F2 & _ & _ & _ & _ & F7 & F8 & F9 & F10 & _).
  assert (Ff : fuel_level (counted_lane t now l) = fuel_level l).
  { unfold counted_lane. destruct (best_lap_time_ms l);
      [destruct (_ <? _)|]; reflexivity. }
  split; [exact F9|]. split; [exact F10|].
  split; [exists [t]; exact F2|]. split; [lia|].
  split; [rewrite Ff; apply Qle_refl|].
  intros Hf. split; congruence.
Qed.

(** X7: along any calls other than [setup_race] on a reachable engine, a
    known lane stays known and keeps its lane number and its car; its
    [lap_times_ms] only grows at the end, its [current_lap] never falls, its
    fuel never rises, and once finished it stays finished at the same
    position. *)
Theorem lane_moves_on_along_runs (ops : list Op) (e : Engine) (k : Z)
    (l : LaneState) :
  reachable e ->
  no_setup ops ->
  lane_of k e = Some l ->
  exists l',
    lane_of k (fst (run ops e)) = Some l' /\ lane_moves_on l l'.
Proof.
  revert e l. induction ops as [|op ops IH]; intros e l Hreach Hops Hl.
  - exists l. split; [exact Hl|apply moves_refl].
  - assert (Hop := Forall_inv Hops). assert (Hrest := Forall_inv_tail Hops).
    simpl in Hop.
    assert (Hstamp : forall l0 v,
              lane_moves_on l0 (with_last_lap_timestamp v l0)).
    { intros l0 v.
      repeat split; simpl; auto; try lia; try apply Qle_refl.
      exists []. now rewrite app_nil_r. }
    assert (Hpower : forall lane v, op = OpSetPower lane v ->
              forall l0,
                lane_moves_on l0 (with_power_level (clamp_power v) l0)).
    { intros _ v _ l0.
      repeat split; simpl; auto; try lia; try apply Qle_refl.
      exists []. now rewrite app_nil_r. }
    assert (Hmark : forall l0 pos, finished l0 = false ->
              lane_moves_on l0 (mark_finished pos l0)).
    { intros l0 pos Hf.
      repeat split; simpl; auto; try lia; try apply Qle_refl;
        try congruence.
      exists []. now rewrite app_nil_r. }
    destruct (step_lane_related lane_moves_on (levels_in_range k)
                moves_refl moves_trans Hstamp
                (fun l0 fuel now Hlev => moves_tick k l0 fuel now Hlev)
                (fun l0 t now => moves_count l0 t now) Hmark
                op e k l Hop Hpower Hl (levels_reachable e k l Hreach Hl))
      as (l1 & Hl1 & Hm1).
    destruct (IH (fst (step op e)) l1 (reach_step op e Hreach) Hrest Hl1)
      as (l2 & Hl2 & Hm2).
    exists l2. rewrite run_cons_fst. split; [exact Hl2|].
    now apply (moves_trans _ l1).
Qed.

Lemma lane_moves_on_along_runs_witness :
  reachable demo_started /\
  no_setup [OpRecordLap 1 (112 # 10); OpStop; OpSetPower 1 30] /\
  lane_of 1 demo_started = Some (demo_lane 1 11) /\
  exists l',
    lane_of 1 (fst (run [OpRecordLap 1 (112 # 10); OpStop; OpSetPower 1 30]
                      demo_started)) = Some l' /\
    lane_moves_on (demo_lane 1 11) l'.
Proof.
  assert (Hops : no_setup [OpRecordLap 1 (112 # 10); OpStop; OpSetPower 1 30])
    by (repeat constructor).
  split; [exact demo_started_reachable|]. split; [exact Hops|].
  split; [reflexivity|].
  apply (lane_moves_on_along_runs _ demo_started 1 (demo_lane 1 11)
           demo_started_reachable Hops eq_refl).
Defined.

(** * The session along a run *)

Lemma same_rules_refl (r : RaceState) : same_rules r r.
Proof. repeat split. Qed.

Lemma same_rules_trans (r1 r2 r3 : RaceState) :
  same_rules r1 r2 -> same_rules r2 r3 -> same_rules r1 r3.
Proof.
  intros (A1 & A2 & A3 & A4 & A5 & A6 & A7) (B1 & B2 & B3 & B4 & B5 & B6 & B7).
  repeat split; congruence.
Qed.

Lemma same_rules_finalised (r : RaceState) : same_rules r (finalised r).
Proof.
  assert (Hkeys := finish_remaining_keys (lanes r) (finish_order r)).
  unfold finalised.
  destruct (finish_remaining (lanes r) (finish_order r)) as [d' o'].
  repeat split; auto.
Qed.

Lemma same_rules_ticked (now started : Q) (r : RaceState) :
  same_rules r (ticked_race now started r).
Proof.
  repeat split; simpl. apply keys_map_values.
Qed.

(** [_tick] past its guard, in closed form. *)
Lemma tick_closed (now : Q) (e : Engine) (r : RaceState) (started : Q) :
  current_race e = Some r ->
  start_time r = Some started ->
  Py.truthy started = true ->
  tick now e =
  if time_limit_reached (ticked_race now started r)
  then (with_current_race (finalised (ticked_race now started r))
          (cancel_tick_task e),
        [finished_event (finalised (ticked_race now started r))])
  else (with_current_race (ticked_race now started r) e,
        if Py.int (now * 10) mod 5 =? 0
        then [state_event (ticked_race now started r)]
        else []).
Proof.
  intros Hr Hs Ht. unfold tick. rewrite Hr, Hs, Ht. cbn [negb].
  change (with_lanes _ _) with (ticked_race now started r).
  destruct (time_limit_reached (ticked_race now started r)).
  - rewrite (finish_race_closed
               (with_current_race (ticked_race now started r) e)
               (ticked_race now started r) eq_refl).
    destruct e as [cr [t|]]; reflexivity.
  - destruct (_ =? 0); reflexivity.
Qed.

Lemma step_session (op : Op) (e : Engine) (r : RaceState) :
  is_setup op = false ->
  current_race e = Some r ->
  exists r',
    current_race (fst (step op e)) = Some r' /\
    same_rules r r' /\
    Forall (fun b => to_race b = race_id r) (snd (step op e)).
Proof.
  intros Hop Hr.
  assert (Hsame : forall e' out,
            current_race e' = Some r -> out = [] ->
            exists r', current_race (fst (e', out)) = Some r' /\
                       same_rules r r' /\
                       Forall (fun b => to_race b = race_id r)
                         (snd (e', out))).
  { intros e' out He' ->. exists r. simpl.
    split; [exact He'|]. split; [apply same_rules_refl|constructor]. }
  destruct op; try discriminate; simpl.
  - unfold countdown_begin. rewrite Hr. simpl.
    eexists. split; [reflexivity|]. split; [repeat split|constructor].
  - unfold countdown_step. rewrite Hr. simpl.
    eexists. split; [reflexivity|]. split; [repeat split|].
    repeat constructor.
  - unfold start_race. rewrite Hr. simpl.
    eexists. split; [reflexivity|].
    split; [repeat split; simpl; apply keys_map_values|].
    repeat constructor.
  - unfold race_tick_loop_round.
    destruct (tick_task e) as [[|]|]; try (now apply Hsame).
    destruct (is_running e); try (now apply Hsame).
    destruct (tick_started e) eqn:Hst;
      [|rewrite tick_not_started by assumption; now apply Hsame].
    unfold tick_started in Hst. rewrite Hr in Hst.
    destruct (start_time r) as [started|] eqn:Hs; [|discriminate].
    rewrite (tick_closed now e r started Hr Hs Hst).
    destruct (time_limit_reached (ticked_race now started r)).
    + eexists. split; [reflexivity|]. split.
      * eapply same_rules_trans;
          [apply (same_rules_ticked now started)|apply same_rules_finalised].
      * simpl. constructor; [|constructor]. simpl.
        apply (same_rules_finalised (ticked_race now started r)).
    + eexists. split; [reflexivity|].
      split; [apply same_rules_ticked|].
      simpl. destruct (_ =? 0); repeat constructor.
  - destruct (turned_away lane e) eqn:Hta.
    { unfold turned_away in Hta.
      assert (H : record_lap lane now e = (e, [])).
      { apply record_lap_refused.
        destruct (is_running e); [|now left]. simpl in Hta.
        destruct (lane_of lane e) as [l|]; [|now (right; left)].
        right; right. eauto. }
      rewrite H. now apply Hsame. }
    unfold turned_away in Hta. apply orb_false_iff in Hta.
    destruct Hta as [Hrun Hl]. apply negb_false_iff in Hrun.
    destruct (lane_of lane e) as [l|] eqn:Hlane; [|discriminate].
    apply is_running_spec in Hrun. destruct Hrun as (r0 & Hr0 & Hs).
    assert (r0 = r) by congruence. subst r0.
    assert (Hacc : accepts_lap lane e r l).
    { unfold lane_of in Hlane. rewrite Hr in Hlane. repeat split; auto. }
    assert (Hg : Dict.get lane (lanes r) = Some l) by apply Hacc.
    destruct (debounced now l) eqn:Hd.
    + rewrite (record_lap_debounced _ _ _ _ _ Hacc Hd). simpl.
      eexists. split; [reflexivity|].
      split; [|constructor].
      repeat split; simpl. eapply keys_set_present; eauto.
    + rewrite (record_lap_counted_closed _ _ _ _ _ Hacc Hd). cbv zeta.
      destruct (reaches_target r (current_lap l + 1));
        [destruct (forallb finished _)|];
        (eexists; split; [reflexivity|]; split;
         [repeat split; simpl; eapply keys_set_present; eauto
         |repeat constructor]).
  - unfold set_power. rewrite Hr.
    destruct (Dict.get lane (lanes r)) as [l|] eqn:Hg; [|now apply Hsame].
    simpl. eexists. split; [reflexivity|]. split; [|constructor].
    repeat split; simpl. eapply keys_set_present; eauto.
  - unfold pause. rewrite Hr.
    destruct (state_eqb (state r) RUNNING); [|now apply Hsame].
    simpl. rewrite current_race_cancel. simpl.
    eexists. split; [reflexivity|]. split; [repeat split|].
    unfold broadcast_state. rewrite current_race_cancel. simpl.
    repeat constructor.
  - unfold resume. rewrite Hr.
    destruct (state_eqb (state r) PAUSED); [|now apply Hsame].
    simpl. eexists. split; [reflexivity|]. split; [repeat split|].
    repeat constructor.
  - unfold stop. rewrite current_race_cancel, Hr. simpl.
    eexists. split; [reflexivity|]. split; [repeat split|].
    repeat constructor.
Qed.

Lemma run_cons_snd (op : Op) (ops : list Op) (e : Engine) :
  snd (run (op :: ops) e) =
  snd (step op e) ++ snd (run ops (fst (step op e))).
Proof.
  simpl. destruct (step op e) as [e1 out1]. simpl.
  destruct (run ops e1) as [e2 out2]. reflexivity.
Qed.

Lemma run_session (ops : list Op) (e : Engine)
    (r : RaceState) :
  no_setup ops ->
  current_race e = Some r ->
  exists r',
    current_race (fst (run ops e)) = Some r' /\
    same_rules r r' /\
    Forall (fun b => to_race b = race_id r) (snd (run ops e)).
Proof.
  revert e r. induction ops as [|op ops IH]; intros e r Hops Hr.
  - exists r. simpl. split; [exact Hr|].
    split; [apply same_rules_refl|constructor].
  - assert (Hop := Forall_inv Hops). assert (Hrest := Forall_inv_tail Hops).
    simpl in Hop.
    destruct (step_session op e r Hop Hr) as (r1 & Hr1 & Hs1 & Ho1).
    destruct (IH (fst (step op e)) r1 Hrest Hr1) as (r2 & Hr2 & Hs2 & Ho2).
    exists r2. rewrite run_cons_fst, run_cons_snd.
    split; [exact Hr2|]. split; [now apply (same_rules_trans _ r1)|].
    apply Forall_app. split; [exact Ho1|].
    destruct Hs1 as (Hid & _). rewrite Hid in Ho2. exact Ho2.
Qed.

(** X8: calls other than [setup_race] never drop or replace the session:
    after any run of them the session has the same race and track ids, mode,
    target, time limit and fuel setting and the same lane numbers in the same
    order, and every message broadcast on the way is addressed to that race
    id. *)
Theorem session_rules_are_fixed (ops : list Op) (e : Engine)
    (r : RaceState) :
  no_setup ops ->
  current_race e = Some r ->
  exists r',
    current_race (fst (run ops e)) = Some r' /\
    same_rules r r' /\
    Forall (fun b => to_race b = race_id r) (snd (run ops e)).
Proof. exact (run_session ops e r). Qed.

Lemma session_rules_are_fixed_witness :
  no_setup [OpRecordLap 1 (112 # 10); OpPause; OpStop] /\
  current_race demo_started = Some demo_race /\
  exists r',
    current_race (fst (run [OpRecordLap 1 (112 # 10); OpPause; OpStop]
                         demo_started)) = Some r' /\
    same_rules demo_race r' /\
    Forall (fun b => to_race b = race_id demo_race)
      (snd (run [OpRecordLap 1 (112 # 10); OpPause; OpStop] demo_started)).
Proof.
  assert (Hops : no_setup [OpRecordLap 1 (112 # 10); OpPause; OpStop])
    by (repeat constructor).
  split; [exact Hops|]. split; [reflexivity|].
  exact (session_rules_are_fixed _ demo_started demo_race Hops eq_refl).
Defined.

(** * The time limit in [_tick] *)

Lemma truthy_nonzero (x : Q) : ~ (x == 0)%Q -> Py.truthy x = true.
Proof.
  intros H. unfold Py.truthy. destruct (Qeq_bool x 0) eqn:E; auto.
  apply Qeq_bool_iff in E. contradiction.
Qed.

Lemma scaled_below (x : Q) (n : Z) :
  (x < inject_Z n)%Q -> (x * 1000 < inject_Z (n * 1000))%Q.
Proof.
  intros H. rewrite inject_Z_mult.
  apply Qmult_lt_compat_r; [reflexivity|exact H].
Qed.

Lemma scaled_at_least (x : Q) (n : Z) :
  (inject_Z n <= x)%Q -> (inject_Z (n * 1000) <= x * 1000)%Q.
Proof.
  intros H. rewrite inject_Z_mult.
  apply Qmult_le_compat_r; [exact H|discriminate].
Qed.

Lemma time_limit_reached_ticked (now started : Q) (r : RaceState) :
  (forall limit, time_limit_seconds r = Some limit -> 0 <= limit) ->
  time_limit_reached (ticked_race now started r) = true <->
  time_is_up now started r.
Proof.
  intros Hnn. unfold time_limit_reached, time_is_up, ticked_race.
  cbn [time_limit_seconds elapsed_time_ms with_lanes with_elapsed_time_ms].
  destruct (time_limit_seconds r) as [limit|].
  - specialize (Hnn limit eq_refl). split.
    + intros H. apply andb_true_iff in H. destruct H as [Hz Hle].
      apply negb_true_iff, Z.eqb_neq in Hz. apply Z.leb_le in Hle.
      exists limit. split; [reflexivity|]. split; [lia|].
      destruct (Qlt_le_dec (now - started) (inject_Z limit)) as [Hlt|Hge];
        [|exact Hge].
      assert (Hb := int_below _ (limit * 1000) ltac:(lia)
                      (scaled_below _ _ Hlt)).
      lia.
    + intros (limit' & [= <-] & Hpos & Hle).
      apply andb_true_iff. split.
      * apply negb_true_iff, Z.eqb_neq. lia.
      * apply Z.leb_le.
        apply int_at_least; [lia|now apply scaled_at_least].
  - split; [discriminate|]. intros (limit & H & _). discriminate.
Qed.

Lemma finalised_facts (r : RaceState) :
  state (finalised r) = FINISHED /\
  forallb finished (Dict.values (lanes (finalised r))) = true /\
  elapsed_time_ms (finalised r) = elapsed_time_ms r.
Proof.
  assert (Hfin := finish_remaining_finished (lanes r) (finish_order r)).
  unfold finalised.
  destruct (finish_remaining (lanes r) (finish_order r)) as [d' o'].
  repeat split; auto.
Qed.

(** X9: a tick of a started session whose time limit, if any, is not
    negative.  When the clock is at least the limit after the start, the tick
    ends the race: FINISHED, every lane finished, the tick task no longer
    active, one [race:finished] message.  In every other case (no limit, a
    limit of 0, or less than the limit elapsed) the race goes on in the same
    state with the same finish order and task, and the tick broadcasts the
    state when [int(now * 10)] is a multiple of 5 and nothing otherwise.
    Either way [elapsed_time_ms] is the truncated time since the start. *)
Theorem tick_ends_race_when_time_is_up (now started : Q) (e : Engine)
    (r : RaceState) :
  current_race e = Some r ->
  start_time r = Some started ->
  ~ (started == 0)%Q ->
  (forall limit, time_limit_seconds r = Some limit -> 0 <= limit) ->
  (time_is_up now started r ->
   exists r',
     current_race (fst (tick now e)) = Some r' /\
     state r' = FINISHED /\
     forallb finished (Dict.values (lanes r')) = true /\
     elapsed_time_ms r' = Py.int ((now - started) * 1000)%Q /\
     task_active (fst (tick now e)) = false /\
     snd (tick now e) = [finished_event r']) /\
  (~ time_is_up now started r ->
   exists r',
     current_race (fst (tick now e)) = Some r' /\
     state r' = state r /\
     finish_order r' = finish_order r /\
     elapsed_time_ms r' = Py.int ((now - started) * 1000)%Q /\
     tick_task (fst (tick now e)) = tick_task e /\
     snd (tick now e) =
     if Py.int (now * 10)%Q mod 5 =? 0 then [state_event r'] else []).
Proof.
  intros Hr Hs Hne Hnn.
  rewrite (tick_closed now e r started Hr Hs (truthy_nonzero _ Hne)).
  assert (Hiff := time_limit_reached_ticked now started r Hnn).
  split; intros Hup.
  - apply Hiff in Hup. rewrite Hup.
    destruct (finalised_facts (ticked_race now started r))
      as (Hst & Hall & Hel).
    exists (finalised (ticked_race now started r)).
    split; [reflexivity|]. split; [exact Hst|]. split; [exact Hall|].
    split; [rewrite Hel; reflexivity|].
    split; [destruct e as [cr [[|]|]]; reflexivity|reflexivity].
  - destruct (time_limit_reached (ticked_race now started r)) eqn:Hreached.
    + exfalso. apply Hup, Hiff. reflexivity.
    + exists (ticked_race now started r).
      split; [reflexivity|]. split; [reflexivity|]. split; [reflexivity|].
      split; [reflexivity|]. split; [reflexivity|].
      cbn [snd]. destruct (_ =? 0); reflexivity.
Qed.

Lemma tick_ends_race_when_time_is_up_witness :
  time_is_up 70 10 demo_timed_race /\
  exists r',
    current_race (fst (tick 70 demo_timed)) = Some r' /\
    state r' = FINISHED /\
    forallb finished (Dict.values (lanes r')) = true /\
    elapsed_time_ms r' = Py.int ((70 - 10) * 1000)%Q /\
    task_active (fst (tick 70 demo_timed)) = false /\
    snd (tick 70 demo_timed) = [finished_event r'].
Proof.
  assert (Hup : time_is_up 70 10 demo_timed_race).
  { exists 60. split; [reflexivity|]. split; [lia|]. discriminate. }
  split; [exact Hup|].
  refine (proj1 (tick_ends_race_when_time_is_up 70 10 demo_timed
                   demo_timed_race eq_refl eq_refl _ _) Hup).
  - discriminate.
  - intros limit [= <-]. lia.
Defined.

(** * The laps announced *)

Lemma turned_away_true (lane : Z) (now : Q) (e : Engine) :
  turned_away lane e = true -> record_lap lane now e = (e, []).
Proof.
  intros Hta. apply record_lap_refused. unfold turned_away in Hta.
  destruct (is_running e); [|now left]. simpl in Hta.
  destruct (lane_of lane e) as [l|]; [|now (right; left)].
  right; right. eauto.
Qed.

Lemma turned_away_false (lane : Z) (e : Engine) :
  turned_away lane e = false ->
  exists r l,
    accepts_lap lane e r l /\ is_running e = true /\
    lane_of lane e = Some l.
Proof.
  intros Hta. unfold turned_away in Hta. apply orb_false_iff in Hta.
  destruct Hta as [Hrun Hl]. apply negb_false_iff in Hrun.
  destruct (lane_of lane e) as [l|] eqn:Hlane; [|discriminate].
  destruct (proj1 (is_running_spec e) Hrun) as (r & Hr & Hs).
  exists r, l. split; [|auto].
  unfold lane_of in Hlane. rewrite Hr in Hlane. repeat split; auto.
Qed.

Lemma step_announced (k : Z) (op : Op) (e : Engine) :
  announced_laps k (snd (step op e)) =
  match counted_time k op e with
  | Some t => [t]
  | None => []
  end.
Proof.
  destruct op; cbn [step counted_time].
  - unfold or_unchanged. destruct (setup_race _ _ _ _ _ _ _ e); reflexivity.
  - unfold or_unchanged. destruct (countdown_begin e); reflexivity.
  - unfold countdown_step. destruct (current_race e); reflexivity.
  - unfold start_race. destruct (current_race e); reflexivity.
  - unfold race_tick_loop_round.
    destruct (tick_task e) as [[|]|]; try reflexivity.
    destruct (is_running e); try reflexivity.
    destruct (tick_started e) eqn:Hst;
      [|rewrite tick_not_started by assumption; reflexivity].
    unfold tick_started in Hst.
    destruct (current_race e) as [r|] eqn:Hr; [|discriminate].
    destruct (start_time r) as [started|] eqn:Hs; [|discriminate].
    rewrite (tick_closed now e r started Hr Hs Hst).
    destruct (time_limit_reached _); [reflexivity|].
    cbn [snd]. destruct (_ =? 0); reflexivity.
  - destruct (turned_away lane e) eqn:Hta.
    + rewrite (turned_away_true lane now e Hta). cbn [snd announced_laps flat_map].
      unfold turned_away in Hta.
      destruct (lane =? k); [|reflexivity].
      destruct (is_running e); [|reflexivity]. simpl in Hta.
      destruct (lane_of lane e) as [l|]; [|reflexivity].
      cbn [andb]. now rewrite Hta.
    + destruct (turned_away_false lane e Hta) as (r & l & Hacc & Hrun & Hl).
      rewrite Hrun, Hl, andb_true_r.
      assert (Hf : finished l = false) by apply Hacc. rewrite Hf. cbn [orb].
      destruct (debounced now l) eqn:Hd.
      * rewrite (record_lap_debounced _ _ _ _ _ Hacc Hd).
        destruct (lane =? k); reflexivity.
      * rewrite (record_lap_counted_closed _ _ _ _ _ Hacc Hd). cbv zeta.
        destruct (reaches_target r (current_lap l + 1));
          [destruct (forallb finished _)|];
          cbn [snd]; unfold announced_laps, announced_lap; simpl;
          destruct (lane =? k); reflexivity.
  - rewrite set_power_silent. reflexivity.
  - unfold pause. destruct (current_race e) as [r|]; [|reflexivity].
    destruct (state_eqb (state r) RUNNING); [|reflexivity].
    cbn [snd]. unfold broadcast_state. rewrite current_race_cancel.
    reflexivity.
  - unfold resume. destruct (current_race e) as [r|]; [|reflexivity].
    destruct (state_eqb (state r) PAUSED); reflexivity.
  - unfold stop. rewrite current_race_cancel.
    destruct (current_race e); reflexivity.
Qed.

Lemma announced_laps_app (k : Z) (out1 out2 : list Broadcast) :
  announced_laps k (out1 ++ out2) =
  announced_laps k out1 ++ announced_laps k out2.
Proof. unfold announced_laps. apply flat_map_app. Qed.

Lemma laps_recorded_acc (k : Z) (ops : list Op) (e : Engine)
    (acc : list Z) :
  no_setup ops ->
  laps_recorded k ops e acc = acc ++ laps_recorded k ops e [].
Proof.
  revert e acc. induction ops as [|op ops IH]; intros e acc Hops.
  - simpl. now rewrite app_nil_r.
  - assert (Hop := Forall_inv Hops). assert (Hrest := Forall_inv_tail Hops).
    simpl in Hop. cbn [laps_recorded]. unfold installs_session.
    rewrite Hop. cbn [andb].
    rewrite (IH _ (match counted_time k op e with
                   | Some t => acc ++ [t] | None => acc end) Hrest).
    rewrite (IH _ (match counted_time k op e with
                   | Some t => [] ++ [t] | None => [] end) Hrest).
    destruct (counted_time k op e); simpl; now rewrite <- ?app_assoc.
Qed.

(** X10: along calls other than [setup_race], the [race:lap] messages
    broadcast for a lane carry, in order, exactly the times of the crossings
    that [record_lap] counted for that lane: every counted lap is announced
    once, and neither a refused or debounced crossing nor any other method
    announces a lap. *)
Theorem announced_laps_are_the_counted_laps (k : Z) (ops : list Op)
    (e : Engine) :
  no_setup ops ->
  announced_laps k (snd (run ops e)) = laps_recorded k ops e [].
Proof.
  revert e. induction ops as [|op ops IH]; intros e Hops; [reflexivity|].
  assert (Hop := Forall_inv Hops). assert (Hrest := Forall_inv_tail Hops).
  simpl in Hop.
  rewrite run_cons_snd, announced_laps_app, step_announced, (IH _ Hrest).
  cbn [laps_recorded]. unfold installs_session. rewrite Hop. cbn [andb].
  rewrite (laps_recorded_acc k ops _
             (match counted_time k op e with
              | Some t => [] ++ [t] | None => [] end) Hrest).
  destruct (counted_time k op e); reflexivity.
Qed.

Lemma announced_laps_are_the_counted_laps_witness :
  no_setup demo_crossings /\
  announced_laps 1 (snd (run demo_crossings demo_started)) =
  [1200; 1100; 800].
Proof.
  assert (Hops : no_setup demo_crossings) by (repeat constructor).
  split; [exact Hops|].
  rewrite (announced_laps_are_the_counted_laps 1 _ demo_started Hops).
  vm_compute. reflexivity.
Defined.

(** * Crossings that are turned away *)

(** X11: crossings that arrive while no session is RUNNING (none set up,
    countdown, paused, finished), or for a lane that is unknown or has
    finished, leave the whole engine as it is, timestamps and lap history
    included, and broadcast nothing, however many there are. *)
Theorem crossings_turned_away_change_nothing (cs : list (Z * Q))
    (e : Engine) :
  Forall (fun c => turned_away (fst c) e = true) cs ->
  run (crossings cs) e = (e, []).
Proof.
  induction cs as [|[lane now] cs IH]; intros Hcs; [reflexivity|].
  assert (Hc := Forall_inv Hcs). simpl in Hc.
  cbn [crossings map run step fst snd].
  rewrite (turned_away_true lane now e Hc).
  fold (crossings cs). rewrite (IH (Forall_inv_tail Hcs)). reflexivity.
Qed.

Lemma crossings_turned_away_change_nothing_witness :
  Forall (fun c => turned_away (fst c) (fst (pause demo_after_two)) = true)
    [(1, 20%Q); (2, 21%Q); (7, 22%Q)] /\
  run (crossings [(1, 20%Q); (2, 21%Q); (7, 22%Q)])
    (fst (pause demo_after_two)) = (fst (pause demo_after_two), []).
Proof.
  assert (H : Forall (fun c => turned_away (fst c)
                                 (fst (pause demo_after_two)) = true)
                [(1, 20%Q); (2, 21%Q); (7, 22%Q)])
    by (repeat constructor).
  split; [exact H|].
  apply (crossings_turned_away_change_nothing _ _ H).
Defined.

(** * Sequences of [set_power] *)

Lemma set_power_lane_same (lane : Z) (power : Q) (e : Engine)
    (l : LaneState) :
  lane_of lane e = Some l ->
  lane_of lane (fst (set_power lane power e)) =
  Some (with_power_level (clamp_power power) l).
Proof.
  unfold lane_of, set_power.
  destruct (current_race e) as [r|]; [|discriminate].
  intros Hg. rewrite Hg. simpl. apply get_set_same.
Qed.

Lemma set_power_lane_other (lane k : Z) (power : Q) (e : Engine) :
  k <> lane ->
  lane_of k (fst (set_power lane power e)) = lane_of k e.
Proof.
  intros Hk. unfold lane_of, set_power.
  destruct (current_race e) as [r|] eqn:Hr; simpl; [|now rewrite Hr].
  destruct (Dict.get lane (lanes r)) eqn:Hg; simpl; rewrite ?Hr; auto.
  now apply get_set_other.
Qed.



(** * Who writes a power level *)

Lemma power_counted_lane (t : Z) (now : Q) (l : LaneState) :
  power_level (counted_lane t now l) = power_level l.
Proof.
  unfold counted_lane. destruct (best_lap_time_ms l) as [best|]; auto.
  destruct (t <? best); reflexivity.
Qed.

Lemma step_keeps_power (op : Op) (e : Engine) (k : Z) (l : LaneState) :
  is_setup op = false -> is_set_power op = false ->
  lane_of k e = Some l ->
  exists l',
    lane_of k (fst (step op e)) = Some l' /\
    power_level l' = power_level l.
Proof.
  intros Hop Hpw Hl.
  refine (step_lane_related
            (fun l0 l1 => power_level l1 = power_level l0) (fun _ => True)
            _ _ _ _ _ _ op e k l Hop _ Hl I).
  - reflexivity.
  - intros l1 l2 l3 H12 H23. congruence.
  - reflexivity.
  - intros l0 fuel now _. apply power_tick_lane.
  - intros l0 t now. apply power_counted_lane.
  - reflexivity.
  - intros lane v ->. discriminate.
Qed.

(** X13: only [set_power] (and a new [setup_race]) writes a lane's
    [power_level]: along any other calls, ticks, crossings, a pause, a stop
    and the end of the race included, every lane keeps the level it had. *)
Theorem power_changes_only_by_set_power (ops : list Op) (e : Engine)
    (k : Z) (l : LaneState) :
  no_power_writes ops ->
  lane_of k e = Some l ->
  exists l',
    lane_of k (fst (run ops e)) = Some l' /\
    power_level l' = power_level l.
Proof.
  revert e l. induction ops as [|op ops IH]; intros e l Hops Hl.
  - exists l. auto.
  - destruct (Forall_inv Hops) as [Hop Hpw].
    destruct (step_keeps_power op e k l Hop Hpw Hl) as (l1 & Hl1 & Hp1).
    destruct (IH _ l1 (Forall_inv_tail Hops) Hl1) as (l2 & Hl2 & Hp2).
    exists l2. rewrite run_cons_fst. split; [exact Hl2|congruence].
Qed.

Lemma power_changes_only_by_set_power_witness :
  no_power_writes [OpTick 11; OpRecordLap 1 (112 # 10); OpStop] /\
  lane_of 1 demo_timed = Some (with_power_level 80 (demo_lane 1 11)) /\
  exists l',
    lane_of 1 (fst (run [OpTick 11; OpRecordLap 1 (112 # 10); OpStop]
                      demo_timed)) = Some l' /\
    power_level l' = power_level (with_power_level 80 (demo_lane 1 11)).
Proof.
  assert (Hops : no_power_writes
                   [OpTick 11; OpRecordLap 1 (112 # 10); OpStop])
    by (repeat constructor).
  split; [exact Hops|]. split; [reflexivity|].
  exact (power_changes_only_by_set_power _ demo_timed 1 _ Hops eq_refl).
Defined.

(** * The simulated power controller *)

Lemma range_In (lo hi k : Z) : In k (range lo hi) <-> lo <= k < hi.
Proof.
  unfold range. rewrite in_map_iff. split.
  - intros (i & <- & Hi). apply in_seq in Hi. lia.
  - intros H. exists (Z.to_nat (k - lo)). split; [lia|].
    apply in_seq. lia.
Qed.

Lemma contains_In {V : Type} (k : Z) (d : Dict.t V) :
  Dict.contains k d = true <-> In k (Dict.keys d).
Proof.
  unfold Dict.contains. destruct (Dict.get k d) as [v|] eqn:Hg.
  - split; auto. intros _. apply get_In in Hg.
    apply (in_map fst) in Hg. exact Hg.
  - split; [discriminate|]. intros H. now apply get_None_keys in Hg.
Qed.

Lemma keys_init (n : Z) :
  Dict.keys
    (SimulatedPWMController.power_levels (SimulatedPWMController.init n)) =
  range 1 (n + 1).
Proof.
  unfold Dict.keys. simpl. rewrite map_map. simpl. apply map_id.
Qed.

Lemma get_set_cases {V : Type} (k k' : Z) (v : V) (d : Dict.t V) :
  Dict.get k (Dict.set k' v d) = if k =? k' then Some v else Dict.get k d.
Proof.
  destruct (k =? k') eqn:E.
  - apply Z.eqb_eq in E. subst. apply get_set_same.
  - apply Z.eqb_neq in E. now apply get_set_other.
Qed.

Lemma set_power_lane_of (lane k : Z) (power : Q) (e : Engine) :
  lane_of k (fst (set_power lane power e)) =
  if k =? lane
  then option_map (with_power_level (clamp_power power)) (lane_of k e)
  else lane_of k e.
Proof.
  destruct (k =? lane) eqn:E.
  - apply Z.eqb_eq in E. subst k.
    destruct (lane_of lane e) as [l|] eqn:Hl.
    + now apply set_power_lane_same.
    + unfold lane_of, set_power in *.
      destruct (current_race e) as [r|] eqn:Hr; simpl; [|now rewrite Hr].
      rewrite Hl. simpl. now rewrite Hr.
  - apply Z.eqb_neq in E. now apply set_power_lane_other.
Qed.

Lemma clamp_zero : clamp_power 0 = 0%Q.
Proof. reflexivity. Qed.

Lemma emergency_fold (ks : list Z) (c : SimulatedPWMController.t)
    (e : Engine) :
  let ce' :=
    fold_left
      (fun ce lane =>
         ({| SimulatedPWMController.power_levels :=
               Dict.set lane 0%Q
                 (SimulatedPWMController.power_levels (fst ce)) |},
          race_engine_set_power lane 0 (snd ce)))
      ks (c, e) in
  (forall k,
     Dict.get k (SimulatedPWMController.power_levels (fst ce')) =
     if existsb (Z.eqb k) ks then Some 0%Q
     else Dict.get k (SimulatedPWMController.power_levels c)) /\
  (forall k,
     lane_of k (snd ce') =
     if existsb (Z.eqb k) ks
     then option_map (with_power_level 0) (lane_of k e)
     else lane_of k e) /\
  (incl ks (Dict.keys (SimulatedPWMController.power_levels c)) ->
   Dict.keys (SimulatedPWMController.power_levels (fst ce')) =
   Dict.keys (SimulatedPWMController.power_levels c)).
Proof.
  revert c e. induction ks as [|k0 ks IH]; intros c e; cbv zeta.
  - simpl. auto.
  - cbn [fold_left fst snd existsb].
    specialize (IH {| SimulatedPWMController.power_levels :=
                        Dict.set k0 0%Q
                          (SimulatedPWMController.power_levels c) |}
                  (race_engine_set_power k0 0 e)).
    cbv zeta in IH. destruct IH as (Hc & He & Hk).
    split; [|split].
    + intros k. rewrite Hc. cbn [SimulatedPWMController.power_levels].
      rewrite get_set_cases.
      destruct (k =? k0); destruct (existsb (Z.eqb k) ks); reflexivity.
    + intros k. rewrite He. unfold race_engine_set_power.
      rewrite set_power_lane_of, clamp_zero.
      destruct (k =? k0); destruct (existsb (Z.eqb k) ks);
        destruct (lane_of k e); reflexivity.
    + intros Hin.
      assert (H0 : In k0 (Dict.keys
                            (SimulatedPWMController.power_levels c)))
        by (apply Hin; now left).
      apply contains_In in H0. unfold Dict.contains in H0.
      destruct (Dict.get k0 (SimulatedPWMController.power_levels c))
        as [v0|] eqn:Hg; [|discriminate].
      cbn [SimulatedPWMController.power_levels] in Hk.
      rewrite (keys_set_present _ _ _ _ Hg) in Hk.
      apply Hk. intros x Hx. apply Hin. now right.
Qed.

Lemma existsb_eqb_In (k : Z) (ks : list Z) :
  existsb (Z.eqb k) ks = true <-> In k ks.
Proof.
  rewrite existsb_exists. split.
  - intros (x & Hx & E). apply Z.eqb_eq in E. now subst.
  - intros H. exists k. split; [exact H|apply Z.eqb_refl].
Qed.



(** A race on lane 3 next to the default controller of two lanes: after an
    emergency stop lane 3 is still powered. *)
Example emergency_stop_misses_an_unknown_lane :
  let e :=
    fst (run [OpSetup 1 1 [ {| p_lane := 3; p_car_id := 13 |} ]
                "race_laps" 3 None false;
              OpSetPower 3 60] init) in
  option_map power_level
    (lane_of 3
       (snd (SimulatedPWMController.emergency_stop
               (SimulatedPWMController.init 2) e))) = Some 60%Q.
Proof. vm_compute. reflexivity. Qed.

Lemma emergency_fold_range (ks : list Z) (c : SimulatedPWMController.t)
    (e : Engine) :
  Forall (fun kv => (0 <= snd kv <= 100)%Q)
    (SimulatedPWMController.power_levels c) ->
  Forall (fun kv => (0 <= snd kv <= 100)%Q)
    (SimulatedPWMController.power_levels
       (fst (fold_left
               (fun ce lane =>
                  ({| SimulatedPWMController.power_levels :=
                        Dict.set lane 0%Q
                          (SimulatedPWMController.power_levels (fst ce)) |},
                   race_engine_set_power lane 0 (snd ce)))
               ks (c, e)))).
Proof.
  revert c e. induction ks as [|k0 ks IH]; intros c e Hr; [exact Hr|].
  cbn [fold_left fst snd]. apply IH. simpl.
  apply (Forall_set (fun _ v => (0 <= v <= 100)%Q)); [|exact Hr].
  split; discriminate.
Qed.

Lemma controller_ok_step (n : Z) (op : RigOp)
    (ce : SimulatedPWMController.t * Engine) :
  controller_ok n (fst ce) -> controller_ok n (fst (rig_step op ce)).
Proof.
  destruct ce as [c e]. intros [Hk Hr]. destruct op; simpl.
  - unfold SimulatedPWMController.set_power, Dict.contains.
    destruct (Dict.get lane (SimulatedPWMController.power_levels c))
      as [v|] eqn:Hg; [|split; assumption].
    split; simpl.
    + now rewrite (keys_set_present _ _ _ _ Hg).
    + apply (Forall_set (fun _ v => (0 <= v <= 100)%Q));
        [apply clamp_range|exact Hr].
  - unfold SimulatedPWMController.emergency_stop. split.
    + destruct (emergency_fold
                  (Dict.keys (SimulatedPWMController.power_levels c)) c e)
        as (_ & _ & Hkeys).
      rewrite Hkeys; [exact Hk|]. intros x Hx. exact Hx.
    + now apply emergency_fold_range.
  - split; assumption.
Qed.

Lemma controller_ok_run (n : Z) (ops : list RigOp)
    (ce : SimulatedPWMController.t * Engine) :
  controller_ok n (fst ce) -> controller_ok n (fst (rig_run ops ce)).
Proof.
  revert ce. induction ops as [|op ops IH]; intros ce Hok; [exact Hok|].
  simpl. apply IH. now apply controller_ok_step.
Qed.

(** X15: a controller made for [n] lanes keeps exactly the lanes 1 to [n]
    and levels within [[0, 100]], whatever is asked of it and of the engine:
    [get_power] answers within [[0, 100]] for every lane, and 0 for a lane
    outside 1 to [n], which [set_power] never creates. *)
Theorem controller_levels_stay_in_range (n : Z) (ops : list RigOp)
    (e : Engine) :
  let c := fst (rig_run ops (SimulatedPWMController.init n, e)) in
  Dict.keys (SimulatedPWMController.power_levels c) = range 1 (n + 1) /\
  (forall lane, (0 <= SimulatedPWMController.get_power lane c <= 100)%Q) /\
  (forall lane, ~ 1 <= lane <= n ->
     SimulatedPWMController.get_power lane c = 0%Q).
Proof.
  cbv zeta.
  assert (Hinit : controller_ok n (SimulatedPWMController.init n)).
  { split; [apply keys_init|]. simpl.
    apply Forall_forall. intros kv Hin. apply in_map_iff in Hin.
    destruct Hin as (k & <- & _). simpl. split; discriminate. }
  destruct (controller_ok_run n ops (SimulatedPWMController.init n, e) Hinit)
    as [Hk Hr].
  split; [exact Hk|]. split.
  - intros lane. unfold SimulatedPWMController.get_power.
    destruct (Dict.get lane _) as [v|] eqn:Hg; [|split; discriminate].
    apply get_In in Hg. rewrite Forall_forall in Hr.
    exact (Hr _ Hg).
  - intros lane Hout. unfold SimulatedPWMController.get_power.
    destruct (Dict.get lane _) as [v|] eqn:Hg; [|reflexivity].
    exfalso. apply Hout. apply get_In in Hg. apply (in_map fst) in Hg.
    fold (Dict.keys (SimulatedPWMController.power_levels
                       (fst (rig_run ops
                               (SimulatedPWMController.init n, e))))) in Hg.
    rewrite Hk in Hg. apply range_In in Hg. simpl in Hg. lia.
Qed.

Lemma levels_agree_step (op : RigOp) (c : SimulatedPWMController.t)
    (e : Engine) :
  rig_quiet op = true ->
  levels_agree c e ->
  levels_agree (fst (rig_step op (c, e))) (snd (rig_step op (c, e))).
Proof.
  intros Hq Hag. destruct op; cbn [rig_step fst snd].
  - unfold SimulatedPWMController.set_power.
    destruct (Dict.contains lane (SimulatedPWMController.power_levels c))
      eqn:Hin; [|exact Hag].
    cbn [fst snd]. intros k l Hk Hl.
    unfold race_engine_set_power in Hl. rewrite set_power_lane_of in Hl.
    unfold SimulatedPWMController.get_power, Dict.contains in *.
    cbn [SimulatedPWMController.power_levels] in *.
    rewrite get_set_cases in *.
    destruct (k =? lane) eqn:E.
    + destruct (lane_of k e) as [l0|]; [|discriminate].
      injection Hl as <-. reflexivity.
    + now apply Hag.
  - destruct (emergency_fold
                (Dict.keys (SimulatedPWMController.power_levels c)) c e)
      as (Hc & He & _).
    unfold SimulatedPWMController.emergency_stop.
    intros k l Hk Hl.
    unfold SimulatedPWMController.get_power, Dict.contains in *.
    rewrite Hc in *. rewrite He in Hl.
    destruct (existsb (Z.eqb k)
                (Dict.keys (SimulatedPWMController.power_levels c))).
    + destruct (lane_of k e) as [l0|]; [|discriminate].
      injection Hl as <-. reflexivity.
    + now apply Hag.
  - simpl in Hq. apply andb_true_iff in Hq. destruct Hq as [Hs Hp].
    apply negb_true_iff in Hs. apply negb_true_iff in Hp.
    intros k l Hk Hl.
    destruct (lane_of k e) as [l0|] eqn:Hl0.
    + destruct (step_keeps_power op e k l0 Hs Hp Hl0) as (l1 & Hl1 & Hp1).
      assert (l1 = l) by congruence. subst l1.
      rewrite Hp1. now apply Hag.
    + rewrite (step_lane_none op e k Hs Hl0) in Hl. discriminate.
Qed.

(** X16: as long as the engine gets no [setup_race] and no [set_power] of
    its own, calls on the controller ([set_power], [emergency_stop]) and
    calls on the engine in any order keep the two in step: if they agreed
    before, then afterwards [get_power] of the controller is the
    [power_level] of the engine for every lane both know. *)
Theorem controller_and_engine_agree (ops : list RigOp)
    (c : SimulatedPWMController.t) (e : Engine) :
  forallb rig_quiet ops = true ->
  levels_agree c e ->
  levels_agree (fst (rig_run ops (c, e))) (snd (rig_run ops (c, e))).
Proof.
  revert c e. induction ops as [|op ops IH]; intros c e Hq Hag;
    [exact Hag|].
  simpl in Hq. apply andb_true_iff in Hq. destruct Hq as [Hq Hrest].
  cbn [rig_run fold_left]. fold (rig_run ops (rig_step op (c, e))).
  assert (H := levels_agree_step op c e Hq Hag).
  destruct (rig_step op (c, e)) as [c1 e1]. now apply IH.
Qed.

Lemma demo_levels_agree :
  levels_agree (SimulatedPWMController.init 2) demo_started.
Proof.
  intros k l Hk Hl. apply contains_In in Hk. rewrite keys_init in Hk.
  apply range_In in Hk.
  assert (Hk' : k = 1 \/ k = 2) by lia.
  destruct Hk' as [-> | ->]; vm_compute in Hl; injection Hl as <-;
    reflexivity.
Qed.

Lemma controller_and_engine_agree_witness :
  forallb rig_quiet
    [RigSetPower 1 250; RigEngine (OpTick 11); RigEmergencyStop;
     RigSetPower 2 40] = true /\
  levels_agree (SimulatedPWMController.init 2) demo_started /\
  levels_agree
    (fst (rig_run [RigSetPower 1 250; RigEngine (OpTick 11);
                   RigEmergencyStop; RigSetPower 2 40]
            (SimulatedPWMController.init 2, demo_started)))
    (snd (rig_run [RigSetPower 1 250; RigEngine (OpTick 11);
                   RigEmergencyStop; RigSetPower 2 40]
            (SimulatedPWMController.init 2, demo_started))).
Proof.
  split; [reflexivity|]. split; [exact demo_levels_agree|].
  apply (controller_and_engine_agree
           [RigSetPower 1 250; RigEngine (OpTick 11); RigEmergencyStop;
            RigSetPower 2 40]
           (SimulatedPWMController.init 2) demo_started eq_refl
           demo_levels_agree).
Defined.

(** * The connection manager *)

Section StrDictFacts.

Context {V : Type}.
Implicit Types (d : StrDict.t V) (k c : string) (v : V).

Lemma sget_set_cases c k v d :
  StrDict.get c (StrDict.set k v d) =
  if String.eqb c k then Some v else StrDict.get c d.
Proof.
  induction d as [|[k' v'] d IH]; simpl.
  - destruct (String.eqb c k); reflexivity.
  - destruct (String.eqb k k') eqn:E; simpl.
    + apply String.eqb_eq in E. subst k'.
      destruct (String.eqb c k); reflexivity.
    + rewrite IH. destruct (String.eqb c k) eqn:E1; auto.
      apply String.eqb_eq in E1. subst c. now rewrite E.
Qed.

Lemma sget_None_keys c d :
  StrDict.get c d = None <-> ~ In c (StrDict.keys d).
Proof.
  induction d as [|[k' v'] d IH]; simpl; [tauto|].
  destruct (String.eqb c k') eqn:E.
  - apply String.eqb_eq in E. subst. split; [discriminate|].
    intros H. exfalso. apply H. now left.
  - apply String.eqb_neq in E. rewrite IH. split.
    + intros H [Hk|Hk]; [congruence|contradiction].
    + intros H Hk. apply H. now right.
Qed.

Lemma sget_In c v d :
  NoDup (StrDict.keys d) -> (In (c, v) d <-> StrDict.get c d = Some v).
Proof.
  induction d as [|[k' v'] d IH]; simpl; intros Hnd.
  - split; [tauto|discriminate].
  - apply NoDup_cons_iff in Hnd. destruct Hnd as [Hk' Hnd].
    destruct (String.eqb c k') eqn:E.
    + apply String.eqb_eq in E. subst k'. split.
      * intros [[= ->]|Hin]; [reflexivity|].
        exfalso. apply Hk'. apply (in_map fst) in Hin. exact Hin.
      * intros [= ->]. now left.
    + apply String.eqb_neq in E. rewrite <- (IH Hnd). split.
      * intros [[= -> _]|Hin]; [congruence|exact Hin].
      * intros Hin. now right.
Qed.

Lemma sget_pop_cases c k d :
  NoDup (StrDict.keys d) ->
  StrDict.get c (StrDict.pop k d) =
  if String.eqb c k then None else StrDict.get c d.
Proof.
  induction d as [|[k' v'] d IH]; simpl; intros Hnd.
  - destruct (String.eqb c k); reflexivity.
  - apply NoDup_cons_iff in Hnd. destruct Hnd as [Hk' Hnd].
    destruct (String.eqb k k') eqn:E.
    + apply String.eqb_eq in E. subst k'.
      destruct (String.eqb c k) eqn:E1; [|reflexivity].
      apply String.eqb_eq in E1. subst c. now apply sget_None_keys.
    + simpl. rewrite (IH Hnd).
      destruct (String.eqb c k) eqn:E1; [|reflexivity].
      apply String.eqb_eq in E1. subst c. now rewrite E.
Qed.

Lemma skeys_pop_In c k d :
  In c (StrDict.keys (StrDict.pop k d)) -> In c (StrDict.keys d).
Proof.
  induction d as [|[k' v'] d IH]; simpl; auto.
  destruct (String.eqb k k'); simpl; [auto|].
  intros [H|H]; auto.
Qed.

Lemma sNoDup_pop k d :
  NoDup (StrDict.keys d) -> NoDup (StrDict.keys (StrDict.pop k d)).
Proof.
  induction d as [|[k' v'] d IH]; simpl; intros Hnd; auto.
  apply NoDup_cons_iff in Hnd. destruct Hnd as [Hk' Hnd].
  destruct (String.eqb k k'); simpl; auto.
  constructor; auto. intros H. apply Hk'. eapply skeys_pop_In; eauto.
Qed.

Lemma skeys_set_In c k v d :
  In c (StrDict.keys (StrDict.set k v d)) <->
  c = k \/ In c (StrDict.keys d).
Proof.
  induction d as [|[k' v'] d IH]; simpl.
  - intuition.
  - destruct (String.eqb k k') eqn:E; simpl.
    + apply String.eqb_eq in E. subst. intuition.
    + rewrite IH. intuition.
Qed.

Lemma sNoDup_set k v d :
  NoDup (StrDict.keys d) -> NoDup (StrDict.keys (StrDict.set k v d)).
Proof.
  induction d as [|[k' v'] d IH]; simpl; intros Hnd.
  - constructor; [intros []|constructor].
  - apply NoDup_cons_iff in Hnd. destruct Hnd as [Hk' Hnd].
    destruct (String.eqb k k') eqn:E; simpl.
    + constructor; auto.
    + apply String.eqb_neq in E. constructor; auto.
      rewrite skeys_set_In. intros [H|H]; [congruence|contradiction].
Qed.

Lemma skeys_set_present k v v0 d :
  StrDict.get k d = Some v0 ->
  StrDict.keys (StrDict.set k v d) = StrDict.keys d.
Proof.
  induction d as [|[k' v'] d IH]; simpl; [discriminate|].
  destruct (String.eqb k k') eqn:E; simpl; auto.
  intros H. f_equal. auto.
Qed.

Lemma sset_same k v d :
  StrDict.get k d = Some v -> StrDict.set k v d = d.
Proof.
  induction d as [|[k' v'] d IH]; simpl; [discriminate|].
  destruct (String.eqb k k') eqn:E.
  - now intros [= ->].
  - intros H. f_equal. auto.
Qed.

Lemma sset_set k v1 v2 d :
  StrDict.set k v2 (StrDict.set k v1 d) = StrDict.set k v2 d.
Proof.
  induction d as [|[k' v'] d IH]; simpl.
  - now rewrite String.eqb_refl.
  - destruct (String.eqb k k') eqn:E; simpl; rewrite E; [reflexivity|].
    now rewrite IH.
Qed.

End StrDictFacts.

Lemma skeys_set_eq {V W : Type} (k : string) (v : V) (w : W)
    (d1 : StrDict.t V) (d2 : StrDict.t W) :
  StrDict.keys d1 = StrDict.keys d2 ->
  StrDict.keys (StrDict.set k v d1) = StrDict.keys (StrDict.set k w d2).
Proof.
  revert d2. induction d1 as [|[k1 v1] d1 IH]; intros [|[k2 v2] d2];
    simpl; try discriminate; auto.
  intros [= -> H]. destruct (String.eqb k k2); simpl; f_equal; auto.
Qed.

Lemma skeys_pop_eq {V W : Type} (k : string)
    (d1 : StrDict.t V) (d2 : StrDict.t W) :
  StrDict.keys d1 = StrDict.keys d2 ->
  StrDict.keys (StrDict.pop k d1) = StrDict.keys (StrDict.pop k d2).
Proof.
  revert d2. induction d1 as [|[k1 v1] d1 IH]; intros [|[k2 v2] d2];
    simpl; try discriminate; auto.
  intros [= -> H]. destruct (String.eqb k k2); simpl; f_equal; auto.
Qed.

Lemma manager_ok_connect (ws : WebSocket) (c : string) (now : Z)
    (m : ConnectionManager) :
  manager_ok m -> manager_ok (connect ws c now m).
Proof.
  intros [Hk Hnd]. split; simpl.
  - now apply skeys_set_eq.
  - now apply sNoDup_set.
Qed.

Lemma manager_ok_disconnect (c : string) (m : ConnectionManager) :
  manager_ok m -> manager_ok (disconnect c m).
Proof.
  intros [Hk Hnd]. split; simpl.
  - now apply skeys_pop_eq.
  - now apply sNoDup_pop.
Qed.

Lemma manager_ok_subscribe (c : string) (race : Z) (m : ConnectionManager) :
  manager_ok m -> manager_ok (subscribe_to_race c race m).
Proof.
  intros [Hk Hnd]. unfold subscribe_to_race.
  destruct (StrDict.get c (connection_metadata m)) as [md|] eqn:Hg;
    [|split; assumption].
  split; simpl; [|exact Hnd].
  now rewrite (skeys_set_present _ _ _ _ Hg).
Qed.

Lemma manager_ok_unsubscribe (c : string) (race : Z)
    (m : ConnectionManager) :
  manager_ok m -> manager_ok (unsubscribe_from_race c race m).
Proof.
  intros [Hk Hnd]. unfold unsubscribe_from_race.
  destruct (StrDict.get c (connection_metadata m)) as [md|] eqn:Hg;
    [|split; assumption].
  split; simpl; [|exact Hnd].
  now rewrite (skeys_set_present _ _ _ _ Hg).
Qed.

Lemma manager_ok_disconnect_all (ds : list string) (m : ConnectionManager) :
  manager_ok m ->
  manager_ok (fold_left (fun m c => disconnect c m) ds m).
Proof.
  revert m. induction ds as [|c ds IH]; intros m Hok; [exact Hok|].
  simpl. apply IH. now apply manager_ok_disconnect.
Qed.

Lemma manager_ok_send_to_connections {M : Type} (send_json : SendJson M)
    (ids : list string) (msg : M) (m : ConnectionManager) :
  manager_ok m ->
  manager_ok (fst (send_to_connections send_json ids msg m)).
Proof.
  intros Hok. unfold send_to_connections.
  destruct (send_round send_json ids msg m) as [sent ds]. simpl.
  now apply manager_ok_disconnect_all.
Qed.

Lemma manager_ok_step {M : Type} (op : ManagerOp M)
    (m : ConnectionManager) :
  manager_ok m -> manager_ok (fst (manager_step op m)).
Proof.
  intros Hok. destruct op; simpl.
  - now apply manager_ok_connect.
  - now apply manager_ok_disconnect.
  - now apply manager_ok_subscribe.
  - now apply manager_ok_unsubscribe.
  - unfold send_personal.
    destruct (StrDict.get connection_id (active_connections m)); auto.
    destruct (send_json w message); simpl; auto.
    now apply manager_ok_disconnect.
  - now apply manager_ok_send_to_connections.
  - now apply manager_ok_send_to_connections.
Qed.

Lemma manager_run_cons_fst {M : Type} (op : ManagerOp M)
    (ops : list (ManagerOp M)) (m : ConnectionManager) :
  fst (manager_run (op :: ops) m) =
  fst (manager_run ops (fst (manager_step op m))).
Proof.
  simpl. destruct (manager_step op m) as [m1 out1]. simpl.
  destruct (manager_run ops m1) as [m2 out2]. reflexivity.
Qed.

Lemma manager_run_cons_snd {M : Type} (op : ManagerOp M)
    (ops : list (ManagerOp M)) (m : ConnectionManager) :
  snd (manager_run (op :: ops) m) =
  snd (manager_step op m) ++
  snd (manager_run ops (fst (manager_step op m))).
Proof.
  simpl. destruct (manager_step op m) as [m1 out1]. simpl.
  destruct (manager_run ops m1) as [m2 out2]. reflexivity.
Qed.

Lemma manager_ok_run {M : Type} (ops : list (ManagerOp M))
    (m : ConnectionManager) :
  manager_ok m -> manager_ok (fst (manager_run ops m)).
Proof.
  revert m. induction ops as [|op ops IH]; intros m Hok; [exact Hok|].
  rewrite manager_run_cons_fst. apply IH. now apply manager_ok_step.
Qed.

Lemma manager_ok_tables (c : string) (m : ConnectionManager) :
  manager_ok m ->
  (StrDict.get c (active_connections m) = None <->
   StrDict.get c (connection_metadata m) = None).
Proof.
  intros [Hk _]. rewrite !sget_None_keys, Hk. tauto.
Qed.

(** X17: whatever calls the manager has served since it was created,
    exceptions of [send_json] included, its two tables list the same
    connections in the same order, each once: a connection has a socket
    exactly when it has metadata, and [connection_count] is the number of
    metadata entries as well. *)
Theorem manager_tables_agree {M : Type} (ops : list (ManagerOp M)) :
  let m := fst (manager_run ops manager_init) in
  StrDict.keys (active_connections m) =
  StrDict.keys (connection_metadata m) /\
  NoDup (StrDict.keys (active_connections m)) /\
  connection_count m = Py.len (connection_metadata m) /\
  (forall c,
     StrDict.get c (active_connections m) = None <->
     StrDict.get c (connection_metadata m) = None).
Proof.
  cbv zeta.
  assert (Hinit : manager_ok manager_init) by (split; constructor).
  assert (Hok := manager_ok_run ops manager_init Hinit).
  destruct Hok as [Hk Hnd].
  split; [exact Hk|]. split; [exact Hnd|]. split.
  - unfold connection_count, Py.len.
    rewrite <- (length_map fst (active_connections _)).
    rewrite <- (length_map fst (connection_metadata _)).
    unfold StrDict.keys in Hk. now rewrite Hk.
  - intros c. apply manager_ok_tables. split; assumption.
Qed.

(** * Sending through the manager *)

Lemma send_round_spec {M : Type} (send_json : SendJson M)
    (ids : list string) (msg : M) (m : ConnectionManager) :
  send_round send_json ids msg m =
  (map (fun c => (c, msg))
     (filter (fun c => reachable_by send_json c msg m) ids),
   filter (fun c => fails_on send_json c msg m) ids).
Proof.
  induction ids as [|c ids IH]; [reflexivity|].
  cbn [send_round filter]. rewrite IH. unfold reachable_by, fails_on.
  destruct (StrDict.get c (active_connections m)) as [ws|]; [|reflexivity].
  destruct (send_json ws msg); reflexivity.
Qed.

Lemma existsb_eqb_str (c : string) (l : list string) :
  existsb (String.eqb c) l = true <-> In c l.
Proof.
  rewrite existsb_exists. split.
  - intros (x & Hx & E). apply String.eqb_eq in E. now subst.
  - intros H. exists c. split; [exact H|apply String.eqb_refl].
Qed.

Lemma disconnect_all_get (ds : list string) (c : string)
    (m : ConnectionManager) :
  manager_ok m ->
  let m' := fold_left (fun m c => disconnect c m) ds m in
  StrDict.get c (active_connections m') =
  (if existsb (String.eqb c) ds then None
   else StrDict.get c (active_connections m)) /\
  StrDict.get c (connection_metadata m') =
  (if existsb (String.eqb c) ds then None
   else StrDict.get c (connection_metadata m)).
Proof.
  revert m. induction ds as [|k ds IH]; intros m Hok; cbv zeta.
  - simpl. auto.
  - cbn [fold_left existsb].
    destruct (IH (disconnect k m) (manager_ok_disconnect k m Hok))
      as [Ha Hm].
    cbv zeta in Ha, Hm. rewrite Ha, Hm. simpl.
    destruct Hok as [Hk Hnd].
    assert (Hnd' : NoDup (StrDict.keys (connection_metadata m)))
      by (now rewrite <- Hk).
    rewrite (sget_pop_cases c k _ Hnd), (sget_pop_cases c k _ Hnd').
    destruct (String.eqb c k); destruct (existsb (String.eqb c) ds); auto.
Qed.

Lemma filter_andb {A : Type} (f g : A -> bool) (l : list A) :
  filter g (filter f l) = filter (fun x => f x && g x) l.
Proof.
  induction l as [|x l IH]; [reflexivity|]. simpl.
  destruct (f x); simpl; [destruct (g x)|]; now rewrite IH.
Qed.

Lemma subscribers_closed (race : Z) (m : ConnectionManager) :
  NoDup (StrDict.keys (connection_metadata m)) ->
  race_subscribers race m =
  filter (fun c => subscribed c race m)
    (StrDict.keys (connection_metadata m)).
Proof.
  unfold race_subscribers, subscribed, StrDict.keys.
  generalize (connection_metadata m). intros d.
  induction d as [|[k md] d IH]; intros Hnd; [reflexivity|].
  apply NoDup_cons_iff in Hnd. destruct Hnd as [Hk Hnd].
  cbn [filter map fst snd StrDict.get].
  rewrite String.eqb_refl.
  assert (Hrest :
            filter (fun c =>
                      match (if String.eqb c k then Some md
                             else StrDict.get c d) with
                      | Some md0 => set_mem race (subscribed_races md0)
                      | None => false
                      end) (map fst d) =
            filter (fun c =>
                      match StrDict.get c d with
                      | Some md0 => set_mem race (subscribed_races md0)
                      | None => false
                      end) (map fst d)).
  { apply filter_ext_in. intros c Hc.
    destruct (String.eqb c k) eqn:E; [|reflexivity].
    apply String.eqb_eq in E. subst c. contradiction. }
  rewrite Hrest, <- (IH Hnd).
  destruct (set_mem race (subscribed_races md)); reflexivity.
Qed.

Lemma existsb_filter_str (c : string) (f : string -> bool)
    (l : list string) :
  existsb (String.eqb c) (filter f l) = existsb (String.eqb c) l && f c.
Proof.
  induction l as [|x l IH]; [reflexivity|]. simpl.
  destruct (f x) eqn:Ef; simpl; rewrite IH.
  - destruct (String.eqb c x) eqn:E; simpl; auto.
    apply String.eqb_eq in E. subst. now rewrite Ef.
  - destruct (String.eqb c x) eqn:E; simpl; auto.
    apply String.eqb_eq in E. subst. rewrite Ef.
    now rewrite andb_false_r.
Qed.

Lemma subscribed_in_keys (c : string) (race : Z) (m : ConnectionManager) :
  subscribed c race m = true ->
  existsb (String.eqb c) (StrDict.keys (connection_metadata m)) = true.
Proof.
  unfold subscribed. intros H. apply existsb_eqb_str.
  destruct (StrDict.get c (connection_metadata m)) eqn:Hg; [|discriminate].
  destruct (in_dec string_dec c (StrDict.keys (connection_metadata m)))
    as [Hin|Hout]; auto.
  apply sget_None_keys in Hout. congruence.
Qed.

Lemma broadcast_to_race_closed {M : Type} (send_json : SendJson M)
    (race : Z) (msg : M) (m : ConnectionManager) :
  manager_ok m ->
  let m' := fst (broadcast_to_race send_json race msg m) in
  snd (broadcast_to_race send_json race msg m) =
  map (fun c => (c, msg))
    (filter (fun c => subscribed c race m && reachable_by send_json c msg m)
       (StrDict.keys (connection_metadata m))) /\
  (forall c,
     StrDict.get c (active_connections m') =
     if subscribed c race m && fails_on send_json c msg m then None
     else StrDict.get c (active_connections m)) /\
  (forall c,
     StrDict.get c (connection_metadata m') =
     if subscribed c race m && fails_on send_json c msg m then None
     else StrDict.get c (connection_metadata m)) /\
  manager_ok m'.
Proof.
  intros Hok. cbv zeta.
  assert (Hnd : NoDup (StrDict.keys (connection_metadata m)))
    by (destruct Hok as [Hk Hnd]; now rewrite <- Hk).
  unfold broadcast_to_race, send_to_connections.
  rewrite send_round_spec. cbn [fst snd].
  rewrite (subscribers_closed race m Hnd), !filter_andb.
  split; [reflexivity|].
  assert (Hex : forall c,
            existsb (String.eqb c)
              (filter (fun x => subscribed x race m &&
                                fails_on send_json x msg m)
                 (StrDict.keys (connection_metadata m))) =
            subscribed c race m && fails_on send_json c msg m).
  { intros c. rewrite existsb_filter_str.
    destruct (subscribed c race m) eqn:Hs; simpl.
    - rewrite (subscribed_in_keys c race m Hs). reflexivity.
    - apply andb_false_r. }
  split; [|split].
  - intros c. rewrite (proj1 (disconnect_all_get _ c m Hok)). now rewrite Hex.
  - intros c. rewrite (proj2 (disconnect_all_get _ c m Hok)). now rewrite Hex.
  - now apply manager_ok_disconnect_all.
Qed.

(** X18: [broadcast_to_race] on a manager whose tables agree.  The message
    goes, once each and in the order of the tables, to the connections that
    are subscribed to the race and whose [send_json] returns; a subscribed
    connection whose [send_json] raises is dropped from both tables; every
    other connection, subscribed elsewhere or not at all, gets nothing and
    stays as it is. *)
Theorem broadcast_to_race_delivers_to_subscribers {M : Type}
    (send_json : SendJson M) (race : Z) (msg : M) (m : ConnectionManager) :
  manager_ok m ->
  let m' := fst (broadcast_to_race send_json race msg m) in
  snd (broadcast_to_race send_json race msg m) =
  map (fun c => (c, msg))
    (filter (fun c => subscribed c race m && reachable_by send_json c msg m)
       (StrDict.keys (connection_metadata m))) /\
  (forall c,
     StrDict.get c (active_connections m') =
     if subscribed c race m && fails_on send_json c msg m then None
     else StrDict.get c (active_connections m)) /\
  (forall c,
     StrDict.get c (connection_metadata m') =
     if subscribed c race m && fails_on send_json c msg m then None
     else StrDict.get c (connection_metadata m)) /\
  manager_ok m'.
Proof. exact (broadcast_to_race_closed send_json race msg m). Qed.

Lemma demo_manager_ok : manager_ok demo_manager.
Proof.
  split; [reflexivity|]. simpl.
  repeat constructor; simpl; intuition discriminate.
Qed.

Lemma broadcast_to_race_delivers_to_subscribers_witness :
  manager_ok demo_manager /\
  snd (broadcast_to_race (fun _ _ => true) 1 "go"%string demo_manager) =
  [("a"%string, "go"%string)].
Proof.
  split; [exact demo_manager_ok|].
  rewrite (proj1 (broadcast_to_race_delivers_to_subscribers
                    (fun _ _ => true) 1 "go"%string demo_manager
                    demo_manager_ok)).
  reflexivity.
Defined.

(** * Subscriptions *)

Lemma set_mem_add (x y : Z) (s : list Z) :
  set_mem x (set_add y s) = set_mem x s || (x =? y).
Proof.
  unfold set_add. destruct (set_mem y s) eqn:Hy.
  - destruct (x =? y) eqn:E; [|now rewrite orb_false_r].
    apply Z.eqb_eq in E. subst. now rewrite Hy.
  - unfold set_mem. rewrite existsb_app. simpl. now rewrite orb_false_r.
Qed.

Lemma set_mem_discard (x y : Z) (s : list Z) :
  set_mem x (set_discard y s) = set_mem x s && negb (x =? y).
Proof.
  unfold set_mem, set_discard. induction s as [|z s IH]; [reflexivity|].
  simpl. destruct (z =? y) eqn:Ez; simpl; rewrite IH.
  - apply Z.eqb_eq in Ez. subst z.
    destruct (x =? y); simpl; [now rewrite andb_false_r|reflexivity].
  - destruct (x =? z) eqn:Ex; simpl; [|reflexivity].
    apply Z.eqb_eq in Ex. subst z. now rewrite Ez.
Qed.

Lemma set_add_twice (x : Z) (s : list Z) :
  set_add x (set_add x s) = set_add x s.
Proof.
  unfold set_add at 1. rewrite set_mem_add, Z.eqb_refl, orb_true_r.
  reflexivity.
Qed.

Lemma set_discard_add (x : Z) (s : list Z) :
  set_mem x s = false -> set_discard x (set_add x s) = s.
Proof.
  intros Hx. unfold set_add. rewrite Hx. unfold set_discard.
  rewrite filter_app. simpl. rewrite Z.eqb_refl. simpl.
  rewrite app_nil_r. unfold set_mem in Hx.
  induction s as [|z s IH]; [reflexivity|]. simpl in *.
  apply orb_false_iff in Hx. destruct Hx as [Hz Hs].
  rewrite Z.eqb_sym, Hz. simpl. now rewrite IH.
Qed.

(** X19: [subscribe_to_race] adds exactly one subscription, that of the
    given connection to the given race, and only when the connection is in
    the metadata table; [unsubscribe_from_race] removes exactly that one.
    Neither touches a socket or the list of connections.  Subscribing twice
    is subscribing once, and unsubscribing right after a subscription that
    was new gives the manager back as it was. *)
Theorem subscriptions_change_one_at_a_time (c c' : string)
    (race race' : Z) (m : ConnectionManager) :
  subscribed c' race' (subscribe_to_race c race m) =
  subscribed c' race' m ||
  (String.eqb c' c && (race' =? race) && has_metadata c m) /\
  subscribed c' race' (unsubscribe_from_race c race m) =
  subscribed c' race' m && negb (String.eqb c' c && (race' =? race)) /\
  active_connections (subscribe_to_race c race m) = active_connections m /\
  active_connections (unsubscribe_from_race c race m) =
  active_connections m /\
  StrDict.keys (connection_metadata (subscribe_to_race c race m)) =
  StrDict.keys (connection_metadata m) /\
  StrDict.keys (connection_metadata (unsubscribe_from_race c race m)) =
  StrDict.keys (connection_metadata m) /\
  subscribe_to_race c race (subscribe_to_race c race m) =
  subscribe_to_race c race m /\
  (subscribed c race m = false ->
   unsubscribe_from_race c race (subscribe_to_race c race m) = m).
Proof.
  unfold subscribed, has_metadata, subscribe_to_race, unsubscribe_from_race.
  destruct (StrDict.get c (connection_metadata m)) as [md|] eqn:Hg.
  - cbn [connection_metadata active_connections].
    rewrite !sget_set_cases, String.eqb_refl.
    cbn [connection_metadata active_connections subscribed_races
         connected_at].
    rewrite !(skeys_set_present _ _ _ _ Hg), !sset_set, set_add_twice.
    repeat split.
    + destruct (String.eqb c' c) eqn:E.
      * apply String.eqb_eq in E. subst c'. rewrite Hg.
        cbn [subscribed_races]. rewrite set_mem_add.
        now rewrite andb_true_r.
      * now rewrite orb_false_r.
    + destruct (String.eqb c' c) eqn:E.
      * apply String.eqb_eq in E. subst c'. rewrite Hg.
        cbn [subscribed_races]. apply set_mem_discard.
      * now rewrite andb_true_r.
    + intros Hs. rewrite (set_discard_add _ _ Hs).
      destruct m as [act meta]. destruct md as [at_ subs].
      cbn in *. now rewrite (sset_same _ _ _ Hg).
  - rewrite Hg. repeat split.
    + now rewrite andb_false_r, orb_false_r.
    + destruct (String.eqb c' c) eqn:E; [|now rewrite andb_true_r].
      apply String.eqb_eq in E. subst c'. now rewrite Hg.
Qed.

(** * A connection that is gone *)

Lemma sget_pop_None {V : Type} (c k : string) (d : StrDict.t V) :
  StrDict.get c d = None -> StrDict.get c (StrDict.pop k d) = None.
Proof.
  rewrite !sget_None_keys. intros H Hin. apply H.
  eapply skeys_pop_In; eauto.
Qed.

Lemma disconnect_all_absent (ds : list string) (c : string)
    (m : ConnectionManager) :
  StrDict.get c (active_connections m) = None ->
  StrDict.get c
    (active_connections (fold_left (fun m c => disconnect c m) ds m)) = None.
Proof.
  revert m. induction ds as [|k ds IH]; intros m Hc; [exact Hc|].
  simpl. apply IH. simpl. now apply sget_pop_None.
Qed.

Lemma send_to_connections_absent {M : Type} (send_json : SendJson M)
    (ids : list string) (msg : M) (c : string) (m : ConnectionManager) :
  StrDict.get c (active_connections m) = None ->
  StrDict.get c
    (active_connections (fst (send_to_connections send_json ids msg m))) =
  None /\
  Forall (fun d => fst d <> c)
    (snd (send_to_connections send_json ids msg m)).
Proof.
  intros Hc. unfold send_to_connections. rewrite send_round_spec.
  cbn [fst snd]. split; [now apply disconnect_all_absent|].
  apply Forall_forall. intros [x y] Hin. apply in_map_iff in Hin.
  destruct Hin as (x' & [= <- <-] & Hx). apply filter_In in Hx.
  destruct Hx as [_ Hx]. unfold reachable_by in Hx. simpl.
  intros ->. now rewrite Hc in Hx.
Qed.

Lemma absent_step {M : Type} (op : ManagerOp M) (c : string)
    (m : ConnectionManager) :
  is_connect c op = false ->
  StrDict.get c (active_connections m) = None ->
  StrDict.get c (active_connections (fst (manager_step op m))) = None /\
  Forall (fun d => fst d <> c) (snd (manager_step op m)).
Proof.
  intros Hop Hc. destruct op; cbn [manager_step fst snd].
  - split; [|constructor]. simpl in *. rewrite sget_set_cases.
    rewrite String.eqb_sym, Hop. exact Hc.
  - split; [|constructor]. simpl. now apply sget_pop_None.
  - split; [|constructor]. unfold subscribe_to_race.
    destruct (StrDict.get connection_id (connection_metadata m)); auto.
  - split; [|constructor]. unfold unsubscribe_from_race.
    destruct (StrDict.get connection_id (connection_metadata m)); auto.
  - unfold send_personal.
    destruct (StrDict.get connection_id (active_connections m))
      as [ws|] eqn:Hg; [|split; [exact Hc|constructor]].
    destruct (send_json ws message); cbn [fst snd].
    + split; [exact Hc|]. constructor; [|constructor]. simpl.
      intros ->. congruence.
    + split; [|constructor]. simpl. now apply sget_pop_None.
  - now apply send_to_connections_absent.
  - now apply send_to_connections_absent.
Qed.

Lemma absent_run {M : Type} (ops : list (ManagerOp M)) (c : string)
    (m : ConnectionManager) :
  no_connect c ops ->
  StrDict.get c (active_connections m) = None ->
  StrDict.get c (active_connections (fst (manager_run ops m))) = None /\
  Forall (fun d => fst d <> c) (snd (manager_run ops m)).
Proof.
  revert m. induction ops as [|op ops IH]; intros m Hops Hc.
  - split; [exact Hc|constructor].
  - destruct (absent_step op c m (Forall_inv Hops) Hc) as [Hc1 Ho1].
    destruct (IH _ (Forall_inv_tail Hops) Hc1) as [Hc2 Ho2].
    rewrite manager_run_cons_fst, manager_run_cons_snd.
    split; [exact Hc2|]. apply Forall_app. split; assumption.
Qed.

(** X20: once a connection has been disconnected, nothing is sent to it any
    more, by [send_personal], [broadcast] or [broadcast_to_race], whatever
    subscriptions are asked for in its name, until [connect] is called for
    it again; and it stays out of the table of sockets. *)
Theorem gone_connection_receives_nothing {M : Type}
    (ops : list (ManagerOp M)) (c : string) (m : ConnectionManager) :
  manager_ok m ->
  no_connect c ops ->
  StrDict.get c
    (active_connections (fst (manager_run ops (disconnect c m)))) = None /\
  Forall (fun d => fst d <> c) (snd (manager_run ops (disconnect c m))).
Proof.
  intros [Hk Hnd] Hops. apply absent_run; [exact Hops|]. simpl.
  rewrite (sget_pop_cases c c _ Hnd). now rewrite String.eqb_refl.
Qed.

Lemma gone_connection_receives_nothing_witness :
  manager_ok demo_manager /\
  no_connect "a"%string
    [MSubscribe "a"%string 2;
     MBroadcastToRace (fun _ _ => true) 1 "go"%string;
     MBroadcast (fun _ _ => true) "all"%string] /\
  Forall (fun d => fst d <> "a"%string)
    (snd (manager_run
            [MSubscribe "a"%string 2;
             MBroadcastToRace (fun _ _ => true) 1 "go"%string;
             MBroadcast (fun _ _ => true) "all"%string]
            (disconnect "a"%string demo_manager))).
Proof.
  assert (Hops : no_connect "a"%string
                   [MSubscribe "a"%string 2;
                    MBroadcastToRace (fun _ _ => true) 1 "go"%string;
                    MBroadcast (fun _ _ => true) "all"%string])
    by (repeat constructor).
  split; [exact demo_manager_ok|]. split; [exact Hops|].
  exact (proj2 (gone_connection_receives_nothing _ "a"%string demo_manager
                  demo_manager_ok Hops)).
Defined.

(** X21: [connect] gives the connection the new socket and an empty set of
    subscriptions, also when the id was connected and subscribed before, so
    no race broadcast reaches it until it subscribes again; the other
    connections keep their sockets and subscriptions. *)
Theorem connect_starts_without_subscriptions (ws : WebSocket) (c : string)
    (now : Z) (m : ConnectionManager) :
  manager_ok m ->
  StrDict.get c (active_connections (connect ws c now m)) = Some ws /\
  (forall race, subscribed c race (connect ws c now m) = false) /\
  (forall c' race, c' <> c ->
     subscribed c' race (connect ws c now m) = subscribed c' race m /\
     StrDict.get c' (active_connections (connect ws c now m)) =
     StrDict.get c' (active_connections m)) /\
  (forall (M : Type) (send_json : SendJson M) (race : Z) (msg : M),
     Forall (fun d => fst d <> c)
       (snd (broadcast_to_race send_json race msg (connect ws c now m)))).
Proof.
  intros Hok.
  assert (Hsub : forall race, subscribed c race (connect ws c now m) = false).
  { intros race. unfold subscribed. simpl.
    rewrite sget_set_cases, String.eqb_refl. reflexivity. }
  split; [|split; [exact Hsub|split]].
  - simpl. rewrite sget_set_cases. now rewrite String.eqb_refl.
  - intros c' race Hne. apply String.eqb_neq in Hne.
    unfold subscribed. simpl. rewrite !sget_set_cases, Hne. auto.
  - intros M send_json race msg.
    destruct (broadcast_to_race_closed send_json race msg
                (connect ws c now m) (manager_ok_connect ws c now m Hok))
      as (Hsent & _).
    rewrite Hsent. apply Forall_forall. intros [x y] Hin.
    apply in_map_iff in Hin. destruct Hin as (x' & [= <- <-] & Hx).
    apply filter_In in Hx. destruct Hx as [_ Hx].
    apply andb_true_iff in Hx. destruct Hx as [Hx _]. simpl.
    intros ->. rewrite Hsub in Hx. discriminate.
Qed.

Lemma connect_starts_without_subscriptions_witness :
  manager_ok demo_manager /\
  Forall (fun d => fst d <> "a"%string)
    (snd (broadcast_to_race (fun _ _ => true) 1 "go"%string
            (connect 9 "a"%string 7 demo_manager))).
Proof.
  split; [exact demo_manager_ok|].
  exact (proj2 (proj2 (proj2 (connect_starts_without_subscriptions
                  9 "a"%string 7 demo_manager demo_manager_ok)))
           string (fun _ _ => true) 1 "go"%string).
Defined.

(** * The engine's messages through the manager *)

Lemma relay_subscribers (rid : Z) (out : list Broadcast)
    (env : nat -> SendJson WsMessage * Z) (m : ConnectionManager) :
  manager_ok m ->
  Forall (fun b => to_race b = rid) out ->
  Forall (fun d =>
            subscribed (fst d) rid m = true /\
            exists b, In b out /\ ws_type (snd d) = msg_type b /\
                      ws_payload (snd d) = payload b)
    (snd (manager_run (relay env out) m)).
Proof.
  revert env m. induction out as [|b out IH]; intros env m Hok Hout.
  - constructor.
  - assert (Hb := Forall_inv Hout). assert (Hrest := Forall_inv_tail Hout).
    cbn [relay]. rewrite manager_run_cons_snd.
    unfold relay_op at 1 2. cbn [manager_step]. rewrite Hb.
    destruct (broadcast_to_race_closed (fst (env O)) rid
                (create_ws_message (msg_type b) (payload b) (snd (env O)))
                m Hok) as (Hsent & _ & Hmeta & Hok1).
    cbv zeta in Hmeta, Hok1.
    apply Forall_app. split.
    + rewrite Hsent. apply Forall_forall. intros [c x] Hin.
      apply in_map_iff in Hin. destruct Hin as (c' & [= <- <-] & Hc).
      apply filter_In in Hc. destruct Hc as [_ Hc].
      apply andb_true_iff in Hc. destruct Hc as [Hc _].
      split; [exact Hc|]. exists b. split; [now left|]. split; reflexivity.
    + specialize (IH (fun i => env (S i)) _ Hok1 Hrest).
      eapply Forall_impl; [|exact IH].
      intros [c x] (Hc & b' & Hb' & Ht & Hp). cbn [fst snd] in *.
      split; [|exists b'; split; [now right|split; assumption]].
      unfold subscribed in Hc. rewrite Hmeta in Hc.
      destruct (subscribed c rid m && _) eqn:Hdrop; [discriminate|].
      exact Hc.
Qed.

(** X22: the messages that calls other than [setup_race] make the engine
    broadcast, handed to the manager one after the other, only reach
    connections that were subscribed to the race of the session when the
    first of them was sent; each message received has the type and the
    payload of one of the engine's messages.  This holds whichever sockets
    fail on the way. *)
Theorem engine_messages_reach_only_subscribers
    (env : nat -> SendJson WsMessage * Z) (ops : list Op) (e : Engine)
    (r : RaceState) (m : ConnectionManager) :
  no_setup ops ->
  current_race e = Some r ->
  manager_ok m ->
  Forall (fun d =>
            subscribed (fst d) (race_id r) m = true /\
            exists b, In b (snd (run ops e)) /\
                      ws_type (snd d) = msg_type b /\
                      ws_payload (snd d) = payload b)
    (snd (manager_run (relay env (snd (run ops e))) m)).
Proof.
  intros Hops Hr Hok.
  destruct (run_session ops e r Hops Hr) as (_ & _ & _ & Hout).
  now apply relay_subscribers.
Qed.

Lemma engine_messages_reach_only_subscribers_witness :
  no_setup demo_crossings /\
  current_race demo_started = Some demo_race /\
  manager_ok demo_manager /\
  Forall (fun d =>
            subscribed (fst d) (race_id demo_race) demo_manager = true /\
            exists b, In b (snd (run demo_crossings demo_started)) /\
                      ws_type (snd d) = msg_type b /\
                      ws_payload (snd d) = payload b)
    (snd (manager_run
            (relay (fun _ => (fun _ _ => true, 0))
               (snd (run demo_crossings demo_started)))
            demo_manager)).
Proof.
  assert (Hops : no_setup demo_crossings) by (repeat constructor).
  split; [exact Hops|]. split; [reflexivity|].
  split; [exact demo_manager_ok|].
  exact (engine_messages_reach_only_subscribers _ demo_crossings
           demo_started demo_race demo_manager Hops eq_refl
           demo_manager_ok).
Defined.

(** * Creating a race *)

Lemma fold_max_ge (xs : list Z) (a : Z) :
  a <= fold_left Z.max xs a /\
  forall x, In x xs -> x <= fold_left Z.max xs a.
Proof.
  revert a. induction xs as [|y xs IH]; intros a; simpl.
  - split; [lia|tauto].
  - destruct (IH (Z.max a y)) as [H1 H2]. split; [lia|].
    intros x [->|Hx]; [lia|auto].
Qed.

Lemma generate_id_above (all_docs : list (option Z)) (d : option Z) :
  In d all_docs -> doc_id d < generate_id all_docs.
Proof.
  destruct all_docs as [|d0 rest]; [intros []|].
  intros Hd. unfold generate_id.
  destruct (fold_max_ge (map doc_id rest) (doc_id d0)) as [H1 H2].
  destruct Hd as [<-|Hd]; [lia|].
  specialize (H2 (doc_id d) (in_map doc_id _ _ Hd)). lia.
Qed.

(** X23: the id that [generate_id] hands out is larger than the id of every
    document of the table, so no document has it; it is 1 for an empty
    table and positive as soon as a document has no id or one that is not
    negative. *)
Theorem generate_id_is_fresh (all_docs : list (option Z)) :
  (forall i, In (Some i) all_docs -> i < generate_id all_docs) /\
  ~ In (Some (generate_id all_docs)) all_docs /\
  (all_docs = [] -> generate_id all_docs = 1) /\
  (forall d, In d all_docs -> 0 <= doc_id d -> 0 < generate_id all_docs).
Proof.
  split; [|split; [|split]].
  - intros i Hi. exact (generate_id_above all_docs (Some i) Hi).
  - intros Hin. apply generate_id_above in Hin. simpl in Hin. lia.
  - intros ->. reflexivity.
  - intros d Hd Hpos. apply generate_id_above in Hd. lia.
Qed.

Lemma set_mem_In (x : Z) (s : list Z) : set_mem x s = true <-> In x s.
Proof. apply existsb_eqb_In. Qed.

Lemma set_add_In (x y : Z) (s : list Z) :
  In x (set_add y s) <-> In x s \/ x = y.
Proof.
  rewrite <- !set_mem_In, set_mem_add, orb_true_iff, Z.eqb_eq. tauto.
Qed.

Lemma validate_participants_spec (track_lanes : Z) (car_ids : list Z)
    (ps : list Participant) (used : list Z) :
  validate_participants track_lanes car_ids used ps = None <->
  NoDup (map p_lane ps) /\
  Forall (fun p => ~ In (p_lane p) used /\ p_lane p <= track_lanes /\
                   In (p_car_id p) car_ids) ps.
Proof.
  revert used. induction ps as [|p ps IH]; intros used; simpl.
  - split; auto. intros _. split; constructor.
  - destruct (set_mem (p_lane p) used) eqn:Hu.
    { split; [discriminate|]. intros [_ H].
      apply Forall_inv in H. apply set_mem_In in Hu. tauto. }
    destruct (track_lanes <? p_lane p) eqn:Ht.
    { split; [discriminate|]. intros [_ H].
      apply Forall_inv in H. apply Z.ltb_lt in Ht. lia. }
    destruct (existsb (Z.eqb (p_car_id p)) car_ids) eqn:Hc; simpl.
    2:{ split; [discriminate|]. intros [_ H].
        apply Forall_inv in H. destruct H as (_ & _ & H).
        apply existsb_eqb_In in H. congruence. }
    assert (Hu' : ~ In (p_lane p) used).
    { intros H. apply set_mem_In in H. congruence. }
    apply Z.ltb_ge in Ht. apply existsb_eqb_In in Hc.
    rewrite IH. split.
    + intros [Hnd Hall]. split.
      * constructor; [|exact Hnd]. intros Hin.
        apply in_map_iff in Hin. destruct Hin as (q & Hq & Hin).
        rewrite Forall_forall in Hall. destruct (Hall q Hin) as [Hq' _].
        apply Hq'. apply set_add_In. right. exact Hq.
      * constructor; [auto|].
        eapply Forall_impl; [|exact Hall].
        intros q (Hq & Hrest). split; [|exact Hrest].
        intros Hin. apply Hq. apply set_add_In. now left.
    + intros [Hnd Hall]. apply NoDup_cons_iff in Hnd.
      destruct Hnd as [Hp Hnd]. split; [exact Hnd|].
      apply Forall_inv_tail in Hall.
      apply Forall_forall. intros q Hq.
      rewrite Forall_forall in Hall. destruct (Hall q Hq) as (H1 & H2).
      split; [|exact H2]. intros Hin. apply set_add_In in Hin.
      destruct Hin as [Hin|Heq]; [contradiction|].
      apply Hp. rewrite <- Heq. now apply in_map.
Qed.

Lemma fill_lanes_distinct (ps : list Participant) (acc : Dict.t LaneState) :
  NoDup (Dict.keys acc ++ map p_lane ps) ->
  let d :=
    fold_left
      (fun lanes p =>
         Dict.set (p_lane p) (new_lane (p_lane p) (p_car_id p)) lanes)
      ps acc in
  Dict.keys d = Dict.keys acc ++ map p_lane ps /\
  (forall p, In p ps ->
     Dict.get (p_lane p) d = Some (new_lane (p_lane p) (p_car_id p))) /\
  (forall k, ~ In k (map p_lane ps) -> Dict.get k d = Dict.get k acc).
Proof.
  revert acc. induction ps as [|p ps IH]; intros acc Hnd; cbv zeta.
  - simpl. rewrite app_nil_r. repeat split; auto. intros p [].
  - cbn [fold_left map].
    assert (Habs : Dict.get (p_lane p) acc = None).
    { destruct (Dict.get (p_lane p) acc) as [v|] eqn:Hg; auto.
      exfalso. apply get_In in Hg. apply (in_map fst) in Hg.
      apply NoDup_app_remove_r in Hnd as Hacc.
      apply (NoDup_remove_2 _ _ _ Hnd).
      apply in_or_app. left. exact Hg. }
    assert (Hnd' : NoDup (Dict.keys
                            (Dict.set (p_lane p)
                               (new_lane (p_lane p) (p_car_id p)) acc)
                          ++ map p_lane ps)).
    { rewrite (keys_set_absent _ _ _ Habs), <- app_assoc. exact Hnd. }
    destruct (IH _ Hnd') as (Hk & Hg & Ho). cbv zeta in Hk, Hg, Ho.
    rewrite (keys_set_absent _ _ _ Habs), <- app_assoc in Hk.
    assert (Hp : ~ In (p_lane p) (map p_lane ps)).
    { intros Hin. apply (NoDup_remove_2 _ _ _ Hnd).
      apply in_or_app. now right. }
    split; [exact Hk|]. split.
    + intros q [<-|Hq]; [|now apply Hg].
      rewrite (Ho _ Hp). apply get_set_same.
    + intros k Hout. rewrite Ho by (intros H; apply Hout; now right).
      apply get_set_other. intros ->. apply Hout. now left.
Qed.

(** X24: [create_race] raises none of its exceptions exactly when the track
    is found, no two participants share a lane, no lane number is above the
    lanes of the track (2 when the track document has no such entry) and
    every car is in the cars table.  A participants list that passes gives
    [setup_race] one lane per participant, in the order of the list, each
    with the car of its participant: nothing is merged. *)
Theorem create_race_accepts_distinct_lanes (tracks : list TrackDoc)
    (car_ids : list Z) (track : Z) (ps : list Participant) :
  (create_race_checks tracks car_ids track ps = None <->
   exists t,
     find (fun t => td_id t =? track) tracks = Some t /\
     NoDup (map p_lane ps) /\
     Forall (fun p => p_lane p <= lanes_of_track t /\
                      In (p_car_id p) car_ids) ps) /\
  (create_race_checks tracks car_ids track ps = None ->
   Dict.keys (build_lanes ps) = map p_lane ps /\
   forall p, In p ps ->
     Dict.get (p_lane p) (build_lanes ps) =
     Some (new_lane (p_lane p) (p_car_id p))).
Proof.
  assert (Hiff : create_race_checks tracks car_ids track ps = None <->
                 exists t,
                   find (fun t => td_id t =? track) tracks = Some t /\
                   NoDup (map p_lane ps) /\
                   Forall (fun p => p_lane p <= lanes_of_track t /\
                                    In (p_car_id p) car_ids) ps).
  { unfold create_race_checks.
    destruct (find (fun t => td_id t =? track) tracks) as [t|].
    - rewrite validate_participants_spec. split.
      + intros [Hnd Hall]. exists t. split; [reflexivity|].
        split; [exact Hnd|]. eapply Forall_impl; [|exact Hall].
        intros p (_ & H). exact H.
      + intros (t' & [= <-] & Hnd & Hall). split; [exact Hnd|].
        eapply Forall_impl; [|exact Hall]. intros p H. split; [tauto|exact H].
    - split; [discriminate|]. intros (t & H & _). discriminate. }
  split; [exact Hiff|].
  intros Hok. apply Hiff in Hok. destruct Hok as (t & _ & Hnd & _).
  destruct (fill_lanes_distinct ps [] Hnd) as (Hk & Hg & _).
  split; [exact Hk|exact Hg].
Qed.

(** * [broadcast] and [send_personal] *)

Lemma fails_in_keys {M : Type} (send_json : SendJson M) (c : string)
    (msg : M) (m : ConnectionManager) :
  fails_on send_json c msg m = true ->
  existsb (String.eqb c) (StrDict.keys (active_connections m)) = true.
Proof.
  unfold fails_on. intros H. apply existsb_eqb_str.
  destruct (StrDict.get c (active_connections m)) eqn:Hg; [|discriminate].
  destruct (in_dec string_dec c (StrDict.keys (active_connections m)))
    as [Hin|Hout]; auto.
  apply sget_None_keys in Hout. congruence.
Qed.

(** X25: on a manager whose tables agree, [broadcast] delivers the message,
    once each and in table order, to every connection whose [send_json]
    returns and drops from both tables those whose [send_json] raises;
    [send_personal] delivers to the named connection alone, when it is
    connected and its [send_json] returns, and drops it when [send_json]
    raises; neither touches any other connection. *)
Theorem broadcast_and_send_personal_deliver {M : Type}
    (send_json : SendJson M) (msg : M) (m : ConnectionManager) :
  manager_ok m ->
  snd (broadcast send_json msg m) =
  map (fun c => (c, msg))
    (filter (fun c => reachable_by send_json c msg m)
       (StrDict.keys (active_connections m))) /\
  (forall c,
     StrDict.get c (active_connections (fst (broadcast send_json msg m))) =
     (if fails_on send_json c msg m then None
      else StrDict.get c (active_connections m)) /\
     StrDict.get c (connection_metadata (fst (broadcast send_json msg m))) =
     (if fails_on send_json c msg m then None
      else StrDict.get c (connection_metadata m))) /\
  (forall c,
     snd (send_personal send_json c msg m) =
     if reachable_by send_json c msg m then [(c, msg)] else []) /\
  (forall c c',
     StrDict.get c'
       (active_connections (fst (send_personal send_json c msg m))) =
     (if String.eqb c' c && fails_on send_json c msg m then None
      else StrDict.get c' (active_connections m)) /\
     StrDict.get c'
       (connection_metadata (fst (send_personal send_json c msg m))) =
     (if String.eqb c' c && fails_on send_json c msg m then None
      else StrDict.get c' (connection_metadata m))).
Proof.
  intros Hok.
  assert (Hnd : NoDup (StrDict.keys (active_connections m)))
    by apply Hok.
  assert (Hnd' : NoDup (StrDict.keys (connection_metadata m)))
    by (destruct Hok as [Hk ?]; now rewrite <- Hk).
  split; [|split; [|split]].
  - unfold broadcast, send_to_connections. rewrite send_round_spec.
    reflexivity.
  - intros c. unfold broadcast, send_to_connections.
    rewrite send_round_spec. cbn [fst].
    destruct (disconnect_all_get
                (filter (fun c0 => fails_on send_json c0 msg m)
                   (StrDict.keys (active_connections m))) c m Hok)
      as [Ha Hm]. cbv zeta in Ha, Hm.
    rewrite Ha, Hm, existsb_filter_str.
    destruct (fails_on send_json c msg m) eqn:Hf.
    + rewrite (fails_in_keys send_json c msg m Hf). auto.
    + rewrite andb_false_r. auto.
  - intros c. unfold send_personal, reachable_by.
    destruct (StrDict.get c (active_connections m)) as [ws|]; [|reflexivity].
    destruct (send_json ws msg); reflexivity.
  - intros c c'. unfold send_personal, fails_on.
    destruct (StrDict.get c (active_connections m)) as [ws|];
      [|rewrite andb_false_r; auto].
    destruct (send_json ws msg); cbn [fst negb];
      [rewrite andb_false_r; auto|].
    rewrite andb_true_r. simpl.
    rewrite (sget_pop_cases c' c _ Hnd), (sget_pop_cases c' c _ Hnd').
    auto.
Qed.

Lemma broadcast_and_send_personal_deliver_witness :
  manager_ok demo_manager /\
  snd (broadcast (fun ws _ => ws =? 1) "all"%string demo_manager) =
  [("a"%string, "all"%string)].
Proof.
  split; [exact demo_manager_ok|].
  rewrite (proj1 (broadcast_and_send_personal_deliver
                    (fun ws _ => ws =? 1) "all"%string demo_manager
                    demo_manager_ok)).
  reflexivity.
Defined.

(** * The race endpoints *)

Lemma search_head (race_id : Z) (races : list RaceDoc) (race : RaceDoc)
    (rest : list RaceDoc) :
  Races.search race_id races = race :: rest ->
  In race races /\ rd_id race = race_id.
Proof.
  intros H.
  assert (Hin : In race (Races.search race_id races))
    by (rewrite H; now left).
  apply filter_In in Hin. destruct Hin as [Hin Hid].
  apply Z.eqb_eq in Hid. auto.
Qed.

Lemma idle_update (v : string) (race_id : Z) (race : RaceDoc) (db : Db) :
  v = "created"%string \/ v = "countdown"%string \/ v = "cancelled"%string ->
  idle_table db ->
  idle_table
    (with_db_races
       (Races.update (with_rd_state v race) race_id (db_races db)) db).
Proof.
  intros Hv Hidle. unfold idle_table in *. simpl. unfold Races.update.
  apply Forall_forall. intros d Hd. apply in_map_iff in Hd.
  destruct Hd as (d0 & <- & Hd0).
  destruct (rd_id d0 =? race_id); [exact Hv|].
  rewrite Forall_forall in Hidle. now apply Hidle.
Qed.

Lemma idle_refuses (race_id : Z) (db : Db) :
  idle_table db ->
  api_ok (Races.pause_race race_id db) = false /\
  api_ok (Races.resume_race race_id db) = false.
Proof.
  intros Hidle. unfold Races.pause_race, Races.resume_race.
  destruct (Races.search race_id (db_races db)) as [|race rest] eqn:Hs;
    [split; reflexivity|].
  destruct (search_head _ _ _ _ Hs) as [Hin _].
  unfold idle_table in Hidle. rewrite Forall_forall in Hidle.
  destruct (Hidle race Hin) as [-> | [-> | ->]]; split; reflexivity.
Qed.

Lemma idle_step (op : ApiOp) (db : Db) :
  idle_table db -> idle_table (api_step op db).
Proof.
  intros Hidle.
  destruct op as [now track mode_ target tl fuel ps
                 |race_id|race_id|race_id|race_id|race_id];
    cbn [api_step].
  - unfold Races.create_race.
    destruct (create_race_checks _ _ _ _); [exact Hidle|].
    cbn [db_after]. unfold idle_table in *. simpl.
    apply Forall_app. split; [exact Hidle|].
    constructor; [now left|constructor].
  - unfold Races.start_race.
    destruct (Races.search race_id (db_races db)) as [|race rest];
      [exact Hidle|].
    destruct (negb (String.eqb (rd_state race) "created")); [exact Hidle|].
    destruct (rd_participants race); [exact Hidle|].
    cbn [db_after Races.store_state]. apply idle_update; auto.
  - destruct (idle_refuses race_id db Hidle) as [H _].
    destruct (Races.pause_race race_id db); [discriminate|exact Hidle].
  - destruct (idle_refuses race_id db Hidle) as [_ H].
    destruct (Races.resume_race race_id db); [discriminate|exact Hidle].
  - unfold Races.stop_race.
    destruct (Races.search race_id (db_races db)) as [|race rest];
      [exact Hidle|].
    destruct (String.eqb (rd_state race) "finished" ||
              String.eqb (rd_state race) "cancelled"); [exact Hidle|].
    cbn [db_after Races.store_state]. apply idle_update; auto.
  - unfold Races.delete_race.
    destruct (Races.search race_id (db_races db)); [exact Hidle|].
    unfold idle_table in *. simpl. unfold Races.remove.
    apply Forall_forall. intros d Hd. apply filter_In in Hd.
    rewrite Forall_forall in Hidle. now apply Hidle.
Qed.

Lemma idle_run (ops : list ApiOp) (db : Db) :
  idle_table db -> idle_table (api_run ops db).
Proof.
  revert db. induction ops as [|op ops IH]; intros db Hidle; [exact Hidle|].
  simpl. apply IH. now apply idle_step.
Qed.

(** X26: the race endpoints alone never run a race.  From a table in which
    every race is created, in countdown or cancelled, any requests to
    [create_race], [start_race], [pause_race], [resume_race], [stop_race] and
    [delete_race] give such a table again: no endpoint writes the state
    running without finding paused, or paused without finding running, so
    [pause_race] and [resume_race] raise for every race id, and no race is
    ever stored as running, paused or finished. *)
Theorem rest_api_never_runs_a_race (ops : list ApiOp) (db : Db) :
  idle_table db ->
  idle_table (api_run ops db) /\
  forall race_id,
    api_ok (Races.pause_race race_id (api_run ops db)) = false /\
    api_ok (Races.resume_race race_id (api_run ops db)) = false.
Proof.
  intros Hidle. assert (H := idle_run ops db Hidle).
  split; [exact H|]. intros race_id. now apply idle_refuses.
Qed.

Lemma rest_api_never_runs_a_race_witness :
  idle_table demo_db /\
  idle_table
    (api_run [ApiCreate 0 1 "race_laps" 3 None false demo_participants;
              ApiStart 1; ApiPause 1; ApiResume 1] demo_db) /\
  api_ok (Races.pause_race 1
            (api_run [ApiCreate 0 1 "race_laps" 3 None false
                        demo_participants;
                      ApiStart 1; ApiPause 1; ApiResume 1] demo_db)) = false.
Proof.
  assert (Hidle : idle_table demo_db) by constructor.
  split; [exact Hidle|].
  destruct (rest_api_never_runs_a_race
              [ApiCreate 0 1 "race_laps" 3 None false demo_participants;
               ApiStart 1; ApiPause 1; ApiResume 1] demo_db Hidle)
    as [H1 H2].
  split; [exact H1|exact (proj1 (H2 1))].
Defined.

Lemma ids_update (v : string) (race_id : Z) (race : RaceDoc)
    (races : list RaceDoc) :
  rd_id race = race_id ->
  map rd_id (Races.update (with_rd_state v race) race_id races) =
  map rd_id races.
Proof.
  intros Hid. unfold Races.update. rewrite map_map. apply map_ext_in.
  intros d _. destruct (rd_id d =? race_id) eqn:E; [|reflexivity].
  apply Z.eqb_eq in E. simpl. congruence.
Qed.

Lemma ids_remove (race_id : Z) (races : list RaceDoc) :
  map rd_id (Races.remove race_id races) =
  filter (fun i => negb (i =? race_id)) (map rd_id races).
Proof.
  unfold Races.remove. induction races as [|d races IH]; [reflexivity|].
  simpl. destruct (rd_id d =? race_id); simpl; now rewrite IH.
Qed.

Lemma new_id_fresh (races : list RaceDoc) :
  ~ In (generate_id (map (fun d => Some (rd_id d)) races)) (map rd_id races).
Proof.
  intros Hin. apply in_map_iff in Hin. destruct Hin as (d & Hd & Hin).
  assert (H : In (Some (rd_id d)) (map (fun d => Some (rd_id d)) races))
    by (apply in_map_iff; exists d; auto).
  apply generate_id_above in H. simpl in H. lia.
Qed.

Lemma distinct_step (op : ApiOp) (db : Db) :
  distinct_ids db -> distinct_ids (api_step op db).
Proof.
  intros Hd.
  destruct op as [now track mode_ target tl fuel ps
                 |race_id|race_id|race_id|race_id|race_id];
    cbn [api_step].
  - unfold Races.create_race.
    destruct (create_race_checks _ _ _ _); [exact Hd|].
    cbn [db_after]. unfold distinct_ids in *. simpl.
    rewrite map_app. simpl. apply NoDup_snoc; [exact Hd|].
    apply new_id_fresh.
  - unfold Races.start_race.
    destruct (Races.search race_id (db_races db)) as [|race rest] eqn:Hs;
      [exact Hd|].
    destruct (negb (String.eqb (rd_state race) "created")); [exact Hd|].
    destruct (rd_participants race); [exact Hd|].
    cbn [db_after Races.store_state]. unfold distinct_ids in *. simpl.
    rewrite ids_update; [exact Hd|]. now apply (search_head _ _ _ _ Hs).
  - unfold Races.pause_race.
    destruct (Races.search race_id (db_races db)) as [|race rest] eqn:Hs;
      [exact Hd|].
    destruct (negb (String.eqb (rd_state race) "running")); [exact Hd|].
    cbn [db_after Races.store_state]. unfold distinct_ids in *. simpl.
    rewrite ids_update; [exact Hd|]. now apply (search_head _ _ _ _ Hs).
  - unfold Races.resume_race.
    destruct (Races.search race_id (db_races db)) as [|race rest] eqn:Hs;
      [exact Hd|].
    destruct (negb (String.eqb (rd_state race) "paused")); [exact Hd|].
    cbn [db_after Races.store_state]. unfold distinct_ids in *. simpl.
    rewrite ids_update; [exact Hd|]. now apply (search_head _ _ _ _ Hs).
  - unfold Races.stop_race.
    destruct (Races.search race_id (db_races db)) as [|race rest] eqn:Hs;
      [exact Hd|].
    destruct (String.eqb (rd_state race) "finished" ||
              String.eqb (rd_state race) "cancelled"); [exact Hd|].
    cbn [db_after Races.store_state]. unfold distinct_ids in *. simpl.
    rewrite ids_update; [exact Hd|]. now apply (search_head _ _ _ _ Hs).
  - unfold Races.delete_race.
    destruct (Races.search race_id (db_races db)); [exact Hd|].
    unfold distinct_ids in *. simpl. rewrite ids_remove.
    now apply NoDup_filter.
Qed.

Lemma distinct_run (ops : list ApiOp) (db : Db) :
  distinct_ids db -> distinct_ids (api_run ops db).
Proof.
  revert db. induction ops as [|op ops IH]; intros db Hd; [exact Hd|].
  simpl. apply IH. now apply distinct_step.
Qed.

Lemma search_fresh (race : RaceDoc) (races : list RaceDoc) :
  ~ In (rd_id race) (map rd_id races) ->
  Races.search (rd_id race) (races ++ [race]) = [race].
Proof.
  intros Hout. unfold Races.search. rewrite filter_app. simpl.
  rewrite Z.eqb_refl.
  assert (H : filter (fun d => rd_id d =? rd_id race) races = []).
  { induction races as [|d races IH]; [reflexivity|]. simpl.
    destruct (rd_id d =? rd_id race) eqn:E.
    - apply Z.eqb_eq in E. exfalso. apply Hout. left. exact E.
    - apply IH. intros Hin. apply Hout. now right. }
  now rewrite H.
Qed.

(** X27: the races of the table keep ids of their own under any requests to
    the race endpoints, deletions included.  A [create_race] that does not
    raise appends one race, in state created, with the participants it was
    given and an id that no race of the table has: [generate_id] on the
    table as it stands.  [get_race] with that id then answers this race. *)
Theorem race_ids_stay_distinct (ops : list ApiOp) (db : Db) :
  distinct_ids db ->
  distinct_ids (api_run ops db) /\
  forall now track mode_ target time_limit fuel ps db1 race,
    Races.create_race now track mode_ target time_limit fuel ps
      (api_run ops db) = ApiOk (db1, race) ->
    ~ In (rd_id race) (map rd_id (db_races (api_run ops db))) /\
    db_races db1 = db_races (api_run ops db) ++ [race] /\
    rd_state race = "created"%string /\
    rd_participants race = ps /\
    distinct_ids db1 /\
    Races.get_race (rd_id race) db1 = ApiOk race.
Proof.
  intros Hd. assert (Hrun := distinct_run ops db Hd).
  split; [exact Hrun|].
  intros now track mode_ target time_limit fuel ps db1 race.
  unfold Races.create_race.
  destruct (create_race_checks _ _ _ _); [discriminate|].
  intros [= <- <-].
  assert (Hfresh := new_id_fresh (db_races (api_run ops db))).
  match goal with
  | |- context [with_db_races (_ ++ [?r]) _] => set (race := r)
  end.
  split; [exact Hfresh|]. split; [reflexivity|]. split; [reflexivity|].
  split; [reflexivity|]. split.
  - unfold distinct_ids. cbn [db_races with_db_races]. rewrite map_app.
    apply NoDup_snoc; [exact Hrun|exact Hfresh].
  - unfold Races.get_race. cbn [db_races with_db_races].
    rewrite (search_fresh race _ Hfresh). reflexivity.
Qed.

Lemma race_ids_stay_distinct_witness :
  distinct_ids demo_db /\
  distinct_ids
    (api_run [ApiCreate 0 1 "race_laps" 3 None false demo_participants;
              ApiCreate 1 1 "race_laps" 5 None false demo_participants;
              ApiDelete 1;
              ApiCreate 2 1 "race_laps" 5 None false []] demo_db).
Proof.
  assert (Hd : distinct_ids demo_db) by constructor.
  split; [exact Hd|].
  exact (proj1 (race_ids_stay_distinct
                  [ApiCreate 0 1 "race_laps" 3 None false demo_participants;
                   ApiCreate 1 1 "race_laps" 5 None false demo_participants;
                   ApiDelete 1;
                   ApiCreate 2 1 "race_laps" 5 None false []] demo_db Hd)).
Defined.
